(** * tidalauth: the browser-interaction engine, embedded in Rocq

    A shallow embedding of [tidalauth/utils.py], [tidalauth/engine.py] and
    [tidalauth/__main__.py].  Python code with side effects is written in a
    state-and-exception monad over a [State] that holds the engine object,
    the outside world (browser, HTTP peer) and the trace of effects. *)

From Stdlib Require Import String Ascii List ZArith Lia Bool Arith PeanoNat.
Import ListNotations.
Open Scope string_scope.

(** ** Python built-ins used by the program *)

Module Py.

(** [sep.join(parts)] *)
Definition join (sep : string) (parts : list string) : string :=
  String.concat sep parts.

(** [needle in hay] on strings *)
Fixpoint contains (needle hay : string) : bool :=
  if String.prefix needle hay then true
  else match hay with
       | EmptyString => false
       | String _ rest => contains needle rest
       end.

(** [str.isspace] on one character.  Characters are code points below 256;
    these are the white-space code points of that range. *)
Definition isspace (c : ascii) : bool :=
  let n := nat_of_ascii c in
  (((9 <=? n) && (n <=? 13)) || ((28 <=? n) && (n <=? 32))
   || (n =? 133) || (n =? 160))%nat.

Fixpoint lstrip (s : string) : string :=
  match s with
  | EmptyString => EmptyString
  | String c rest => if isspace c then lstrip rest else s
  end.

Fixpoint rstrip (s : string) : string :=
  match s with
  | EmptyString => EmptyString
  | String c rest =>
      match rstrip rest with
      | EmptyString => if isspace c then EmptyString else String c EmptyString
      | kept => String c kept
      end
  end.

(** [s.strip()] *)
Definition strip (s : string) : string := rstrip (lstrip s).

Fixpoint endswith (suffix s : string) : bool :=
  if String.eqb s suffix then true
  else match s with
       | EmptyString => false
       | String _ rest => endswith suffix rest
       end.

(** [s.removesuffix(suffix)] *)
Definition removesuffix (suffix s : string) : string :=
  if endswith suffix s && negb (String.eqb suffix "")
  then substring 0 (String.length s - String.length suffix) s
  else s.

Definition hex_digit (n : nat) : ascii :=
  if (n <? 10)%nat then ascii_of_nat (48 + n) else ascii_of_nat (87 + n).

Definition backslash : ascii := ascii_of_nat 92.
Definition single_quote : ascii := ascii_of_nat 39.
Definition double_quote : ascii := ascii_of_nat 34.

(** [repr] of one character inside a string literal quoted by [quote] *)
Definition repr_char (quote c : ascii) : string :=
  let n := nat_of_ascii c in
  if Ascii.eqb c quote || Ascii.eqb c backslash
  then String backslash (String c "")
  else if (n =? 9)%nat then String backslash "t"
  else if (n =? 10)%nat then String backslash "n"
  else if (n =? 13)%nat then String backslash "r"
  else if ((n <? 32) || (n =? 127) || ((128 <=? n) && (n <=? 160))
           || (n =? 173))%nat
       then String backslash (String "x"%char
              (String (hex_digit (n / 16)) (String (hex_digit (n mod 16)) "")))
  else String c "".

Fixpoint has_char (c : ascii) (s : string) : bool :=
  match s with
  | EmptyString => false
  | String d rest => Ascii.eqb c d || has_char c rest
  end.

Fixpoint repr_body (quote : ascii) (s : string) : string :=
  match s with
  | EmptyString => EmptyString
  | String c rest => repr_char quote c ++ repr_body quote rest
  end.

(** [repr(s)] for a string: single quotes, unless the text has a single
    quote and no double quote. *)
Definition repr_str (s : string) : string :=
  let quote := if has_char single_quote s && negb (has_char double_quote s)
               then double_quote else single_quote in
  String quote (repr_body quote s ++ String quote "").

Definition str_bool (b : bool) : string := if b then "True" else "False".

End Py.


(** ** Data model *)

(** Exceptions the program raises or lets through.  [ValueError] and
    [AssertionError] are raised by the engine itself, by [time.sleep] and by
    the driver's expectations; [AttributeError] by the lookup of a browser
    the driver does not have; [OverflowError] by [time.sleep];
    [DriverError] stands for the errors of the browser driver and
    [RequestError] for those of the HTTP client. *)
Inductive exn : Type :=
  | ValueError (msg : string)
  | AssertionError (msg : string)
  | AttributeError (msg : string)
  | OverflowError (msg : string)
  | DriverError (msg : string)
  | RequestError (msg : string).

(** [str(e)] *)
Definition exn_str (e : exn) : string :=
  match e with
  | ValueError msg | AssertionError msg | AttributeError msg
  | OverflowError msg | DriverError msg | RequestError msg => msg
  end.

Inductive Result (A : Type) : Type :=
  | Ok (a : A)
  | Raise (e : exn).
Arguments Ok {A} a.
Arguments Raise {A} e.

(** utils.py: [class Status(StrEnum)] and [class SelectorType(StrEnum)] *)
Inductive Status : Type := PASSED | FAILED.

Inductive SelectorType : Type := CSS | ID | XPATH.

Definition SelectorType_value (t : SelectorType) : string :=
  match t with
  | CSS => "css"
  | ID => "id"
  | XPATH => "xpath"
  end.

(** pydantic's [SecretStr]: [get_secret_value] gives the text back, [str]
    displays ten stars, or nothing for the empty secret. *)
Record SecretStr : Type := mkSecretStr { get_secret_value : string }.

Definition SecretStr_str (v : SecretStr) : string :=
  if String.eqb (get_secret_value v) "" then "" else "**********".

(** settings.py *)
Record TidalauthSettings : Type := {
  tidalidarr_url : string;
  browser_type : string;
  browser_version : string;
  headless : bool;
  timeout_ms : Z;
  sleep_ms : Z;
  viewport_width : Z;
  viewport_height : Z;
  take_video : bool;
  video_dir : string;
  user_email : string;
  user_password : SecretStr;
  sentry_dsn : string;
  sentry_environment : string;
  app_version : string
}.

(** Objects of the browser driver are opaque handles. *)
Definition Handle : Type := nat.

(** A frame locator: the page and the chain of iframe selectors, outermost
    first, each narrowed with [.first]. *)
Record FrameLocator : Type := {
  fl_page : Handle;
  fl_chain : list string
}.

(** A locator is a lazy query: a page, a frame chain, a selector and the
    indices of the [.nth(i)] narrowings applied to it, in order. *)
Record Locator : Type := {
  loc_page : Handle;
  loc_frames : list string;
  loc_query : string;
  loc_nth : list nat
}.

Record Element : Type := { el_id : nat; el_visible : bool }.

(** What the document holds: the matches, in document order, of a selector
    inside a frame chain of a page. *)
Definition Dom : Type := Handle -> list string -> string -> list Element.

(** Values that reach a wrapped method as arguments. *)
Inductive PyValue : Type :=
  | VNone
  | VStr (s : string)
  | VSecret (v : SecretStr)
  | VBool (b : bool)
  | VSelectorType (t : SelectorType)
  | VStrList (l : list string)
  | VFrameLocator (f : FrameLocator)
  | VLocator (l : Locator).

(** [selector: str | Locator] *)
Inductive SelectorInput : Type :=
  | Raw (selector : string)
  | Resolved (locator : Locator).

(** *** Effects *)

Inductive Action : Type :=
  | SentryInit
  | StartDriver
  | Launch (browser : string) (headless_flag : bool)
  | Mkdir (dir : string)
  | NewContext (browser : Handle) (width height : Z) (video : option string)
  | SetDefaultTimeout (context : Handle) (ms : Z)
  | NewPage (context : Handle)
  | ClosePage (page : Handle)
  | CloseContext (context : Handle)
  | CloseBrowser (browser : Handle)
  | StopDriver (driver : Handle)
  | Goto (page : Handle) (url : string)
  | WaitForLoadState (page : Handle)
  | AcceptDialogs (page : Handle)
  | Click (target : Locator)
  | Fill (target : Locator) (text : string)
  | ExpectUrl (page : Handle) (url : string)
  | ExpectVisible (target : Locator)
  | ExpectText (target : Locator) (expected : string)
  | Evaluate (page : Handle) (script : string)
  | HttpGet (url : string).

Inductive Level : Type := DEBUG | INFO | WARNING | ERROR.

Inductive LoggerName : Type := MainLogger | EngineLogger | UtilsLogger.

Inductive Event : Type :=
  | EvLog (logger : LoggerName) (level : Level) (exc_info : bool) (msg : string)
  | EvAfterLog (attempt_number : nat)
  | EvBackoff (seconds : Z)
  | EvSleep (milliseconds : Z)
  | EvAction (a : Action).

Record Response : Type := {
  http_error : option string;
  text : string
}.

(** The outside world, fixed for one run: the document as it is at each
    instant, the driver fault (if any) that an action issued at an instant
    meets, the message (if any) with which an expectation of the driver,
    evaluated at an instant, is found unmet, the
    text of the [AttributeError] (if any) that launching a browser by a
    given name meets, the text of the error (if any) with which the error
    tracker refuses a DSN, the HTTP peer, and how driver objects print. *)
Record Env : Type := {
  dom_at : nat -> Dom;
  fault_at : nat -> option string;
  unmet_at : nat -> option string;
  no_browser : string -> option string;
  bad_dsn : string -> option string;
  http_reply : string -> Result Response;
  repr_frame : FrameLocator -> string;
  repr_locator : Locator -> string
}.

(** engine.py: the fields [PlaywrightEngine.__init__] creates *)
Record PlaywrightEngine : Type := {
  _settings : TidalauthSettings;
  _playwright : option Handle;
  _browser : option Handle;
  _context : option Handle;
  _page : option Handle
}.

Definition __init__ (settings : TidalauthSettings) : PlaywrightEngine :=
  {| _settings := settings;
     _playwright := None; _browser := None; _context := None; _page := None |}.

Record State : Type := {
  engine : PlaywrightEngine;
  env : Env;
  clock : nat;
  trace : list Event
}.

Definition M (A : Type) : Type := State -> Result A * State.

Definition ret {A} (a : A) : M A := fun s => (Ok a, s).

Definition raise {A} (e : exn) : M A := fun s => (Raise e, s).

Definition bind {A B} (m : M A) (k : A -> M B) : M B :=
  fun s => match m s with
           | (Ok a, s') => k a s'
           | (Raise e, s') => (Raise e, s')
           end.

Declare Scope engine_scope.
Delimit Scope engine_scope with engine.
Notation "x <- m ;; k" := (bind m (fun x => k))
  (at level 100, m at next level, right associativity) : engine_scope.
Notation "m ;; k" := (bind m (fun _ => k))
  (at level 100, right associativity) : engine_scope.
Open Scope engine_scope.

Definition emit (ev : Event) : M unit :=
  fun s => (Ok tt, {| engine := engine s; env := env s; clock := clock s;
                      trace := trace s ++ [ev] |}).

Definition tick : M unit :=
  fun s => (Ok tt, {| engine := engine s; env := env s; clock := S (clock s);
                      trace := trace s |}).

Definition get_engine : M PlaywrightEngine := fun s => (Ok (engine s), s).

Definition get_env : M Env := fun s => (Ok (env s), s).

Definition set_engine (e : PlaywrightEngine) : M unit :=
  fun s => (Ok tt, {| engine := e; env := env s; clock := clock s;
                      trace := trace s |}).

Definition log (logger : LoggerName) (level : Level) (msg : string) : M unit :=
  emit (EvLog logger level false msg).

(** [logger.exception(msg)]: error level, with the traceback attached *)
Definition log_exception (logger : LoggerName) (msg : string) : M unit :=
  emit (EvLog logger ERROR true msg).

(** A call into the driver: issued at the current instant, it takes one
    instant, and either meets the fault the world has for that instant or
    yields a fresh handle. *)
Definition driver_call (a : Action) : M Handle :=
  fun s =>
    let s' := {| engine := engine s; env := env s; clock := S (clock s);
                 trace := trace s ++ [EvAction a] |} in
    match fault_at (env s) (clock s) with
    | Some msg => (Raise (DriverError msg), s')
    | None => (Ok (clock s), s')
    end.

Definition is_close_of (page : Handle) (ev : Event) : bool :=
  match ev with
  | EvAction (ClosePage p) => Nat.eqb p page
  | _ => false
  end.

Definition page_closed (page : Handle) (s : State) : bool :=
  existsb (is_close_of page) (trace s).

Definition target_closed : exn :=
  DriverError "Target page, context or browser has been closed".

(** A driver call on a page: refused once the page is closed. *)
Definition page_call (page : Handle) (a : Action) : M unit :=
  fun s => if page_closed page s then (Raise target_closed, s)
           else (_ <- driver_call a ;; ret tt) s.

(** ** utils.py *)

(** *** [retry_with_backoff]

    The decorator configures tenacity's [retry] with
    [stop_after_attempt(5)], [wait_exponential(multiplier=1, min=1, max=30)],
    [after_log(logger, DEBUG)] and [reraise=True].  The three strategies and
    the retrying loop are tenacity's. *)

(** [stop_after_attempt(n)]: [attempt_number >= n] *)
Definition stop_after_attempt (max_attempt_number attempt_number : nat) : bool :=
  (max_attempt_number <=? attempt_number)%nat.

(** [wait_exponential(multiplier, min, max)] called after attempt
    [attempt_number] (counted from 1): [exp = 2 ** (attempt_number - 1)],
    [result = multiplier * exp], clamped into [max(0, min) .. max]. *)
Definition wait_exponential (multiplier min max : Z) (attempt_number : nat) : Z :=
  let exp := (2 ^ (Z.of_nat attempt_number - 1))%Z in
  let result := (multiplier * exp)%Z in
  Z.max (Z.max 0 min) (Z.min result max).

Definition max_attempts : nat := 5.

Definition backoff_wait (attempt_number : nat) : Z :=
  wait_exponential 1 1 30 attempt_number.

(** tenacity's sleep between two attempts *)
Definition nap (seconds : Z) : M unit := emit (EvBackoff seconds) ;; tick.

(** What the loop does after a failed attempt that is not the last. *)
Definition between_attempts (attempt_number : nat) : M unit :=
  emit (EvAfterLog attempt_number) ;; nap (backoff_wait attempt_number).

(** The retrying loop: call; on success return; on failure run the [after]
    hook, then either stop and re-raise that failure or sleep and call again.
    [fuel] bounds the recursion; [retry_loop_fuel] shows that [max_attempts]
    of it is never used up. *)
Fixpoint retry_loop {A} (fuel attempt_number : nat) (fn : M A) : M A :=
  fun s =>
    match fn s with
    | (Ok result, s1) => (Ok result, s1)
    | (Raise e, s1) =>
        (emit (EvAfterLog attempt_number) ;;
         if stop_after_attempt max_attempts attempt_number then raise e
         else match fuel with
              | O => raise e
              | S fuel' =>
                  nap (backoff_wait attempt_number) ;;
                  retry_loop fuel' (S attempt_number) fn
              end) s1
    end.

Definition retry_with_backoff {A} (func : M A) : M A :=
  retry_loop max_attempts 1 func.

(** *** [report_status] *)

(** [str(value)] *)
Definition py_str (E : Env) (value : PyValue) : string :=
  match value with
  | VNone => "None"
  | VStr s => s
  | VSecret v => SecretStr_str v
  | VBool b => Py.str_bool b
  | VSelectorType t => SelectorType_value t
  | VStrList l => "[" ++ Py.join ", " (map Py.repr_str l) ++ "]"
  | VFrameLocator f => repr_frame E f
  | VLocator l => repr_locator E l
  end.

Definition get_str_value (E : Env) (value : PyValue) : string :=
  match value with
  | VSecret v => get_secret_value v
  | _ => py_str E value
  end.

(** The description [f"{func.__name__} ({all_args})"] of a call. *)
Definition func_call (E : Env) (name : string)
    (args : list PyValue) (kwargs : list (string * PyValue)) : string :=
  let args_parts := map (py_str E) args in
  let kwargs_parts :=
    map (fun kv => fst kv ++ "=" ++ get_str_value E (snd kv)) kwargs in
  let all_args := Py.join ", " (args_parts ++ kwargs_parts) in
  name ++ " (" ++ all_args ++ ")".

(** [PlaywrightEngine.report] *)
Definition report (message : string) (status : option Status) : M unit :=
  match status with
  | Some FAILED => log_exception EngineLogger message
  | _ => log EngineLogger INFO message
  end.

Definition calling_message (fc : string) : string := "Calling " ++ fc.
Definition called_message (fc : string) : string :=
  "Called " ++ fc ++ " successfully".
Definition failed_message (fc : string) (e : exn) : string :=
  "Failed to call " ++ fc ++ ": " ++ exn_str e.

(** The decorator, applied to a method named [name] and called with the
    positional arguments [args] (after [self]) and keyword arguments
    [kwargs]; [func] is the decorated call on those arguments. *)
Definition report_status {A} (name : string)
    (args : list PyValue) (kwargs : list (string * PyValue))
    (func : M A) : M A :=
  fun s =>
    let fc := func_call (env s) name args kwargs in
    (report (calling_message fc) None ;;
     fun s1 =>
       match func s1 with
       | (Ok result, s2) =>
           (report (called_message fc) None ;; ret result) s2
       | (Raise e, s2) =>
           (report (failed_message fc e) (Some FAILED) ;; raise e) s2
       end) s.

(** ** engine.py *)

Definition update_engine (f : PlaywrightEngine -> PlaywrightEngine) : M unit :=
  self <- get_engine ;; set_engine (f self).

Definition set_playwright (h : Handle) (e : PlaywrightEngine) : PlaywrightEngine :=
  {| _settings := _settings e; _playwright := Some h; _browser := _browser e;
     _context := _context e; _page := _page e |}.
Definition set_browser (h : Handle) (e : PlaywrightEngine) : PlaywrightEngine :=
  {| _settings := _settings e; _playwright := _playwright e; _browser := Some h;
     _context := _context e; _page := _page e |}.
Definition set_context (h : Handle) (e : PlaywrightEngine) : PlaywrightEngine :=
  {| _settings := _settings e; _playwright := _playwright e; _browser := _browser e;
     _context := Some h; _page := _page e |}.
Definition set_page (h : Handle) (e : PlaywrightEngine) : PlaywrightEngine :=
  {| _settings := _settings e; _playwright := _playwright e; _browser := _browser e;
     _context := _context e; _page := Some h |}.

(** Whether the driver's event loop runs in this process: from the last
    [sync_playwright().start()] that was issued on, until a [stop()] is
    issued. *)
Definition driver_running (s : State) : bool :=
  fold_left (fun running ev =>
               match ev with
               | EvAction StartDriver => true
               | EvAction (StopDriver _) => false
               | _ => running
               end) (trace s) false.

(** What the driver raises when it is started while its loop runs. *)
Definition sync_api_in_loop : exn :=
  DriverError
    ("It looks like you are using Playwright Sync API inside the asyncio loop."
     ++ String (ascii_of_nat 10) "Please use the Async API instead.").

(** [sync_playwright().start()]: refused, before anything is sent, while the
    driver runs. *)
Definition start_driver : M Handle :=
  fun s => if driver_running s then (Raise sync_api_in_loop, s)
           else driver_call StartDriver s.

(** [getattr(self._playwright, browser_type)] and the lookup of [launch] on
    what it gives: the driver has browsers under some names only. *)
Definition browser_instance (browser_type : string) : M unit :=
  E <- get_env ;;
  match no_browser E browser_type with
  | Some msg => raise (AttributeError msg)
  | None => ret tt
  end.

Definition setup : M unit :=
  playwright <- start_driver ;;
  update_engine (set_playwright playwright) ;;
  self <- get_engine ;;
  let settings := _settings self in
  browser_instance (browser_type settings) ;;
  browser <- driver_call (Launch (browser_type settings) (headless settings)) ;;
  update_engine (set_browser browser) ;;
  (if take_video settings
   then _ <- driver_call (Mkdir (video_dir settings)) ;; ret tt
   else ret tt) ;;
  context <- driver_call
    (NewContext browser (viewport_width settings) (viewport_height settings)
       (if take_video settings then Some (video_dir settings) else None)) ;;
  _ <- driver_call (SetDefaultTimeout context (timeout_ms settings)) ;;
  update_engine (set_context context) ;;
  page <- driver_call (NewPage context) ;;
  update_engine (set_page page).

(** [if handle: handle.close()] *)
Definition release (handle : option Handle) (close : Handle -> Action) : M unit :=
  match handle with
  | Some h => _ <- driver_call (close h) ;; ret tt
  | None => ret tt
  end.

Definition teardown : M unit :=
  self <- get_engine ;;
  release (_page self) ClosePage ;;
  release (_context self) CloseContext ;;
  release (_browser self) CloseBrowser ;;
  release (_playwright self) StopDriver.

(** The least integer whose quotient by 1000 is beyond the largest float. *)
Definition float_limit : Z := 1000 * (2 ^ 1024 - 2 ^ 970).

(** The most milliseconds whose nanoseconds fit in 64 bits. *)
Definition sleep_limit : Z := 9223372036854.

(** [time.sleep(milliseconds / 1000)] for an integer [milliseconds].  The
    division gives a float, and fails when the quotient is beyond the largest
    one; [time.sleep] turns the seconds into a signed 64-bit count of
    nanoseconds, and fails when they do not fit; then it refuses a negative
    length.  The texts are CPython 3.11's. *)
Definition sleep (milliseconds : Z) : M unit :=
  if (float_limit <=? Z.abs milliseconds)%Z
  then raise (OverflowError "integer division result too large for a float")
  else if (sleep_limit <? Z.abs milliseconds)%Z
  then raise (OverflowError "timestamp too large to convert to C _PyTime_t")
  else if (milliseconds <? 0)%Z
  then raise (ValueError "sleep length must be non-negative")
  else emit (EvSleep milliseconds) ;; tick.

Definition not_initialized : exn :=
  ValueError "Page not initialized. Please call `setup` first.".

(** The [page] property *)
Definition page : M Handle :=
  self <- get_engine ;;
  match _page self with
  | None => raise not_initialized
  | Some p => ret p
  end.

Definition _get_selector (selector : string) (selector_type : SelectorType) : string :=
  match selector_type with
  | XPATH => "xpath=" ++ selector
  | ID => "#" ++ selector
  | CSS => selector
  end.

(** *** Locators of the driver *)

Definition page_locator (p : Handle) (selector : string) : Locator :=
  {| loc_page := p; loc_frames := []; loc_query := selector; loc_nth := [] |}.

Definition frame_locator (f : FrameLocator) (selector : string) : Locator :=
  {| loc_page := fl_page f; loc_frames := fl_chain f; loc_query := selector;
     loc_nth := [] |}.

(** [locator.nth(i)] *)
Definition locator_nth (l : Locator) (i : nat) : Locator :=
  {| loc_page := loc_page l; loc_frames := loc_frames l; loc_query := loc_query l;
     loc_nth := loc_nth l ++ [i] |}.

Definition narrow (found : list Element) (i : nat) : list Element :=
  match nth_error found i with
  | Some e => [e]
  | None => []
  end.

(** The elements a locator denotes in a document. *)
Definition resolve (d : Dom) (l : Locator) : list Element :=
  fold_left narrow (loc_nth l) (d (loc_page l) (loc_frames l) (loc_query l)).

Definition current_dom (s : State) : Dom := dom_at (env s) (clock s).

(** A query on the live document: it fails once the page is closed and
    otherwise reads the document of the current instant.  The read itself
    is taken to be answered: what is said of a query is said of the matches
    it reports. *)
Definition query {A} (l : Locator) (f : list Element -> Result A) : M A :=
  fun s => if page_closed (loc_page l) s then (Raise target_closed, s)
           else (f (resolve (current_dom s) l), s).

Definition strict_mode_violation : exn := DriverError "strict mode violation".

Definition actionability_timeout : exn := DriverError "Timeout exceeded".

(** [locator.count()] *)
Definition locator_count (l : Locator) : M nat :=
  query l (fun found => Ok (List.length found)).

(** [locator.is_visible()]: a strict query; no match is not visible. *)
Definition locator_is_visible (l : Locator) : M bool :=
  query l (fun found =>
             match found with
             | [] => Ok false
             | [e] => Ok (el_visible e)
             | _ => Raise strict_mode_violation
             end).

(** [locator.all()] *)
Definition locator_all (l : Locator) : M (list Locator) :=
  count <- locator_count l ;;
  ret (map (locator_nth l) (seq 0 count)).

(** An action on a locator ([click], [fill]): strict, and the target has to be
    there and visible; the driver's wait for that is folded into the instant
    of the call. *)
Definition locator_action (l : Locator) (a : Action) : M unit :=
  ready <- query l (fun found =>
                      match found with
                      | [] => Ok false
                      | [e] => Ok (el_visible e)
                      | _ => Raise strict_mode_violation
                      end) ;;
  done <- driver_call a ;;
  if ready : bool then ret tt else raise actionability_timeout.

(** *** [_get_locator] *)

(** The [for i in range(count)] loop with its [else] clause. *)
Fixpoint first_visible (locator : Locator) (indices : list nat)
    (selector : string) : M Locator :=
  match indices with
  | [] => raise (ValueError ("Visible element not found: " ++ selector))
  | i :: rest =>
      let element := locator_nth locator i in
      visible <- locator_is_visible element ;;
      if visible : bool then ret element
      else first_visible locator rest selector
  end.

Definition _get_locator (selector : SelectorInput) (selector_type : SelectorType)
    (iframe : option FrameLocator) : M Locator :=
  match selector with
  | Resolved l => ret l
  | Raw raw =>
      let selector := _get_selector raw selector_type in
      locator <- match iframe with
                 | Some f => ret (frame_locator f selector)
                 | None => p <- page ;; ret (page_locator p selector)
                 end ;;
      count <- locator_count locator ;;
      if (count =? 0)%nat
      then raise (ValueError ("Element not found: " ++ selector))
      else if (1 <? count)%nat
      then
        log EngineLogger WARNING
          ("Multiple elements found: " ++ selector
           ++ ". Selecting the first visible.") ;;
        first_visible locator (seq 0 count) selector
      else ret locator
  end.

(** *** The operations

    Each decorated method [m] is [report_status] around [retry_with_backoff]
    around its body [m_body]; the arguments are passed the way the
    repository's own calls and the signatures pass them (positionally, and by
    keyword for [context] and the keyword-only parameters). *)

Definition selector_value (selector : SelectorInput) : PyValue :=
  match selector with
  | Raw raw => VStr raw
  | Resolved l => VLocator l
  end.

Definition navigate_body (url : string) : M unit :=
  p <- page ;;
  page_call p (Goto p url) ;;
  self <- get_engine ;;
  sleep (sleep_ms (_settings self) * 3).

Definition navigate (url : string) : M unit :=
  report_status "navigate" [VStr url] []
    (retry_with_backoff (navigate_body url)).

Definition _get_iframe_body (selector : string) (context : option FrameLocator)
    : M FrameLocator :=
  match context with
  | Some c => ret {| fl_page := fl_page c; fl_chain := fl_chain c ++ [selector] |}
  | None => p <- page ;; ret {| fl_page := p; fl_chain := [selector] |}
  end.

Definition context_value (context : option FrameLocator) : PyValue :=
  match context with
  | Some c => VFrameLocator c
  | None => VNone
  end.

(** Decorated with [report_status] only. *)
Definition _get_iframe (selector : string) (context : option FrameLocator)
    : M FrameLocator :=
  report_status "_get_iframe" [VStr selector] [("context", context_value context)]
    (_get_iframe_body selector context).

(** [iframe = None; for iframe_selector in iframe_selectors: iframe = ...] *)
Fixpoint enter_iframes (iframe_selectors : list string)
    (iframe : option FrameLocator) : M (option FrameLocator) :=
  match iframe_selectors with
  | [] => ret iframe
  | iframe_selector :: rest =>
      inner <- _get_iframe iframe_selector iframe ;;
      enter_iframes rest (Some inner)
  end.

Definition after_click : M unit :=
  p <- page ;;
  page_call p (WaitForLoadState p) ;;
  self <- get_engine ;;
  sleep (sleep_ms (_settings self)).

Definition click_body (selector : SelectorInput) (selector_type : SelectorType)
    (with_alert : bool) : M unit :=
  (if with_alert then p <- page ;; emit (EvAction (AcceptDialogs p)) else ret tt) ;;
  target <- _get_locator selector selector_type None ;;
  locator_action target (Click target) ;;
  after_click.

(** [with_alert] is keyword-only: [None] is a call that leaves it out. *)
Definition click (selector : SelectorInput) (selector_type : SelectorType)
    (with_alert : option bool) : M unit :=
  report_status "click" [selector_value selector; VSelectorType selector_type]
    (match with_alert with
     | Some b => [("with_alert", VBool b)]
     | None => []
     end)
    (retry_with_backoff
       (click_body selector selector_type
          (match with_alert with Some b => b | None => false end))).

Definition click_in_iframe_body (iframe_selectors : list string)
    (selector : SelectorInput) (selector_type : SelectorType) : M unit :=
  iframe <- enter_iframes iframe_selectors None ;;
  target <- _get_locator selector selector_type iframe ;;
  locator_action target (Click target) ;;
  after_click.

Definition click_in_iframe (iframe_selectors : list string)
    (selector : SelectorInput) (selector_type : SelectorType) : M unit :=
  report_status "click_in_iframe"
    [VStrList iframe_selectors; selector_value selector; VSelectorType selector_type]
    []
    (retry_with_backoff (click_in_iframe_body iframe_selectors selector selector_type)).

(** [value: str | SecretStr] *)
Inductive FillValue : Type :=
  | Plain (s : string)
  | Secret (v : SecretStr).

Definition fill_value (value : FillValue) : PyValue :=
  match value with
  | Plain s => VStr s
  | Secret v => VSecret v
  end.

Definition str_value (value : FillValue) : string :=
  match value with
  | Plain s => s
  | Secret v => get_secret_value v
  end.

Definition fill_body (value : FillValue) (selector : SelectorInput)
    (selector_type : SelectorType) : M unit :=
  let str_value := str_value value in
  locator <- _get_locator selector selector_type None ;;
  locator_action locator (Fill locator str_value).

(** [engine.fill(value, selector, selector_type)] *)
Definition fill (value : FillValue) (selector : SelectorInput)
    (selector_type : SelectorType) : M unit :=
  report_status "fill"
    [fill_value value; selector_value selector; VSelectorType selector_type] []
    (retry_with_backoff (fill_body value selector selector_type)).

(** [engine.fill(value=value, selector=selector, selector_type=selector_type)] *)
Definition fill_by_keyword (value : FillValue) (selector : SelectorInput)
    (selector_type : SelectorType) : M unit :=
  report_status "fill" []
    [("value", fill_value value); ("selector", selector_value selector);
     ("selector_type", VSelectorType selector_type)]
    (retry_with_backoff (fill_body value selector selector_type)).

Definition fill_in_iframe_body (value : FillValue)
    (iframe_selectors : list string) (selector : SelectorInput)
    (selector_type : SelectorType) : M unit :=
  iframe <- enter_iframes iframe_selectors None ;;
  let str_value := str_value value in
  locator <- _get_locator selector selector_type iframe ;;
  locator_action locator (Fill locator str_value).

(** [engine.fill_in_iframe(value, iframe_selectors, selector, selector_type)] *)
Definition fill_in_iframe (value : FillValue) (iframe_selectors : list string)
    (selector : SelectorInput) (selector_type : SelectorType) : M unit :=
  report_status "fill_in_iframe"
    [fill_value value; VStrList iframe_selectors; selector_value selector;
     VSelectorType selector_type] []
    (retry_with_backoff
       (fill_in_iframe_body value iframe_selectors selector selector_type)).

(** [any(loc.is_visible() for loc in ...)] *)
Fixpoint any_visible (locators : list Locator) : M bool :=
  match locators with
  | [] => ret false
  | l :: rest =>
      visible <- locator_is_visible l ;;
      if visible : bool then ret true else any_visible rest
  end.

(** [count() > 0 and any(...) if check_visible else True]: the conditional
    expression binds loosest, so the [and] is its first branch. *)
Definition exists_expression (locator : Locator) (check_visible : bool) : M bool :=
  if check_visible
  then
    count <- locator_count locator ;;
    if (0 <? count)%nat
    then (every <- locator_all locator ;; any_visible every)
    else ret false
  else ret true.

Definition element_exists_body (selector : SelectorInput)
    (selector_type : SelectorType) (check_visible : bool) : M bool :=
  match selector with
  | Resolved l => exists_expression l check_visible
  | Raw raw =>
      let selector := _get_selector raw selector_type in
      p <- page ;;
      let locator := page_locator p selector in
      exists_expression locator check_visible
  end.

(** [check_visible] is keyword-only with default [True]. *)
Definition element_exists (selector : SelectorInput) (selector_type : SelectorType)
    (check_visible : option bool) : M bool :=
  report_status "element_exists"
    [selector_value selector; VSelectorType selector_type]
    (match check_visible with
     | Some b => [("check_visible", VBool b)]
     | None => []
     end)
    (retry_with_backoff
       (element_exists_body selector selector_type
          (match check_visible with Some b => b | None => true end))).

Definition assert_element_not_visible_body (selector : SelectorInput)
    (selector_type : SelectorType) : M unit :=
  found <- match selector with
           | Resolved l =>
               E <- get_env ;; ret (l, repr_locator E l)
           | Raw raw =>
               let selector := _get_selector raw selector_type in
               p <- page ;; ret (page_locator p selector, selector)
           end ;;
  let locator := fst found in
  let selector := snd found in
  visible <- locator_is_visible locator ;;
  present <- (if visible : bool then ret true
              else count <- locator_count locator ;; ret (0 <? count)%nat) ;;
  if present : bool
  then raise (AssertionError ("Element not visible assertion failed: " ++ selector))
  else ret tt.

Definition assert_element_not_visible (selector : SelectorInput)
    (selector_type : SelectorType) : M unit :=
  report_status "assert_element_not_visible"
    [selector_value selector; VSelectorType selector_type] []
    (retry_with_backoff (assert_element_not_visible_body selector selector_type)).

(** *** Expectations

    [expect(...).to_...] polls until the expectation is met or its time is
    up, and then raises [AssertionError]; the polling is folded into the
    instant of the call. *)

(** An expectation on the page's URL, or on the visibility or the text of an
    element: refused on a closed page; otherwise the world has a driver
    fault for it, or finds it unmet, or lets it pass. *)
Definition expect_call (p : Handle) (a : Action) : M unit :=
  fun s =>
    if page_closed p s then (Raise target_closed, s)
    else
      let s' := {| engine := engine s; env := env s; clock := S (clock s);
                   trace := trace s ++ [EvAction a] |} in
      match fault_at (env s) (clock s) with
      | Some msg => (Raise (DriverError msg), s')
      | None =>
          match unmet_at (env s) (clock s) with
          | Some msg => (Raise (AssertionError msg), s')
          | None => (Ok tt, s')
          end
      end.

Definition assert_url_body (url : string) : M unit :=
  p <- page ;;
  expect_call p (ExpectUrl p url).

Definition assert_url (url : string) : M unit :=
  report_status "assert_url" [VStr url] []
    (retry_with_backoff (assert_url_body url)).

Definition assert_element_visible_body (selector : SelectorInput)
    (selector_type : SelectorType) : M unit :=
  locator <- _get_locator selector selector_type None ;;
  expect_call (loc_page locator) (ExpectVisible locator).

Definition assert_element_visible (selector : SelectorInput)
    (selector_type : SelectorType) : M unit :=
  report_status "assert_element_visible"
    [selector_value selector; VSelectorType selector_type] []
    (retry_with_backoff (assert_element_visible_body selector selector_type)).

(** [text: str | Pattern]: a compiled pattern is known by the way it prints
    ([re.compile('...')]). *)
Inductive TextInput : Type :=
  | Text (s : string)
  | Pattern (printed : string).

(** [str(text)] *)
Definition text_str (text : TextInput) : string :=
  match text with
  | Text s => s
  | Pattern printed => printed
  end.

Definition assert_text_body (text : TextInput) (selector : SelectorInput)
    (selector_type : SelectorType) : M unit :=
  locator <- _get_locator selector selector_type None ;;
  expect_call (loc_page locator) (ExpectText locator (text_str text)).

Definition assert_text (text : TextInput) (selector : SelectorInput)
    (selector_type : SelectorType) : M unit :=
  report_status "assert_text"
    [VStr (text_str text); selector_value selector; VSelectorType selector_type]
    []
    (retry_with_backoff (assert_text_body text selector selector_type)).

Definition set_local_storage_body (key value : string) : M unit :=
  p <- page ;;
  page_call p (Evaluate p ("localStorage.setItem('" ++ key ++ "', '"
                           ++ value ++ "')")) ;;
  log EngineLogger INFO ("Set localStorage: " ++ key ++ " = " ++ value).

Definition set_local_storage (key value : string) : M unit :=
  report_status "set_local_storage" [VStr key; VStr value] []
    (retry_with_backoff (set_local_storage_body key value)).

(** ** __main__.py *)

Definition requests_get (url : string) : M Response :=
  fun s =>
    let s' := {| engine := engine s; env := env s; clock := S (clock s);
                 trace := trace s ++ [EvAction (HttpGet url)] |} in
    (http_reply (env s) url, s').

Definition raise_for_status (response : Response) : M unit :=
  match http_error response with
  | Some msg => raise (RequestError msg)
  | None => ret tt
  end.

Definition link_marker : string := "https://link.tidal.com".

(** [sentry_sdk.init(dsn=settings.sentry_dsn, ...)]: a DSN that the error
    tracker cannot parse is refused with [BadDsn], a [ValueError]. *)
Definition sentry_init (settings : TidalauthSettings) : M unit :=
  emit (EvAction SentryInit) ;;
  E <- get_env ;;
  match bad_dsn E (sentry_dsn settings) with
  | Some msg => raise (ValueError msg)
  | None => ret tt
  end.

(** [main] from the loaded [settings] up to [content = response.text]. *)
Definition auth_check (settings : TidalauthSettings) : M string :=
  sentry_init settings ;;
  set_engine (__init__ settings) ;;
  setup ;;
  let base_url := Py.removesuffix "/" (tidalidarr_url settings) in
  response <- requests_get (base_url ++ "/auth") ;;
  raise_for_status response ;;
  ret (text response).

Definition main (settings : TidalauthSettings) : M unit :=
  content <- auth_check settings ;;
  if negb (Py.contains link_marker content)
  then log MainLogger INFO "Authorization does not seem required"
  else
    let authorization_url := Py.strip content in
    log MainLogger INFO ("Authorization is required, URL: " ++ authorization_url) ;;
    navigate authorization_url.

(** ** Concrete worlds, used by the examples below *)

Module Fixture.

Definition settings : TidalauthSettings :=
  {| tidalidarr_url := "http://127.0.0.1:8000/";
     browser_type := "chromium"; browser_version := "latest";
     headless := true; timeout_ms := 5000; sleep_ms := 1000;
     viewport_width := 1920; viewport_height := 1080;
     take_video := false; video_dir := "videos";
     user_email := "user@example.com";
     user_password := mkSecretStr "hunter2";
     sentry_dsn := ""; sentry_environment := "dev";
     app_version := "tidalauth@latest" |}.

Definition shown (n : nat) : Element := {| el_id := n; el_visible := true |}.
Definition hidden (n : nat) : Element := {| el_id := n; el_visible := false |}.

Fixpoint lookup (selector : string) (table : list (string * list Element))
    : list Element :=
  match table with
  | [] => []
  | (key, found) :: rest =>
      if String.eqb key selector then found else lookup selector rest
  end.

(** A document whose top-level selectors match as [table] says; nothing
    matches inside frames. *)
Definition document (table : list (string * list Element)) : Dom :=
  fun _ frames selector =>
    match frames with
    | [] => lookup selector table
    | _ => []
    end.

(** A world with a fixed document and no driver fault, whose HTTP peer
    answers [body]. *)
(** The driver has three browsers; any other name is not an attribute of
    it, or is one that cannot be launched. *)
Definition browsers : list string := ["chromium"; "firefox"; "webkit"].

Definition missing_browser (name : string) : option string :=
  if existsb (String.eqb name) browsers then None
  else Some ("'Playwright' object has no attribute '" ++ name ++ "'").

Definition world (d : Dom) (body : string) : Env :=
  {| dom_at := fun _ => d;
     fault_at := fun _ => None;
     unmet_at := fun _ => None;
     no_browser := missing_browser;
     bad_dsn := fun _ => None;
     http_reply := fun _ => Ok {| http_error := None; text := body |};
     repr_frame := fun _ => "<FrameLocator>";
     repr_locator := fun _ => "<Locator>" |}.

Definition fresh (E : Env) : State :=
  {| engine := __init__ settings; env := E; clock := 0; trace := [] |}.

(** The state after [setup]. *)
Definition ready (E : Env) : State := snd (setup (fresh E)).

Definition sample_document : Dom :=
  document [("#banner", [hidden 1]);
            (".item", [hidden 1; shown 2; shown 3]);
            (".ghost", [hidden 4; hidden 5]);
            ("#one", [shown 7])].

Definition sample_world : Env := world sample_document "no authorization needed".

(** A session that is set up, on the sample document; its page is handle 4. *)
Definition sample : State := ready sample_world.

(** A world whose HTTP peer answers with an authorization link. *)
Definition link_world : Env :=
  world (document []) " https://link.tidal.com/abc123
".

(** The sample world, except that the driver call issued at instant [t]
    fails. *)
Definition faulty_world (t : nat) : Env :=
  {| dom_at := fun _ => sample_document;
     fault_at := fun n => if Nat.eqb n t then Some "connection lost"%string
                          else None;
     unmet_at := fun _ => None;
     no_browser := missing_browser;
     bad_dsn := fun _ => None;
     http_reply := http_reply sample_world;
     repr_frame := repr_frame sample_world;
     repr_locator := repr_locator sample_world |}.

(** A document with a login form inside two nested iframes. *)
Definition framed_document : Dom :=
  fun _ frames selector =>
    if list_eq_dec string_dec frames ["#outer"; "#inner"]%string
    then lookup selector [("#password", [shown 9])]
    else [].

Definition framed : State := ready (world framed_document "").

(** An operation that fails, with an error that names the attempt, as long
    as fewer than [failures] backoff sleeps were taken, and then gives
    [value]. *)
Definition flaky (failures : nat) (value : nat) : M nat :=
  fun s =>
    let taken :=
      List.length
        (filter (fun ev => match ev with EvBackoff _ => true | _ => false end)
           (trace s)) in
    if (taken <? failures)%nat
    then (Raise (DriverError
                   (nth taken ["first"; "second"; "third"; "fourth"; "fifth"]
                      "later")), s)
    else (Ok value, s).

(** The sample world, except that the server answers every request with
    status 503; the body still holds a login link. *)
Definition refusing_world : Env :=
  {| dom_at := fun _ => sample_document;
     fault_at := fun _ => None;
     unmet_at := fun _ => None;
     no_browser := missing_browser;
     bad_dsn := fun _ => None;
     http_reply := fun _ =>
       Ok {| http_error := Some "503 Server Error: Service Unavailable"%string;
             text := "https://link.tidal.com/abc123"%string |};
     repr_frame := repr_frame sample_world;
     repr_locator := repr_locator sample_world |}.

(** A new engine whose settings name a browser the driver does not have. *)
Definition unknown_browser : State :=
  {| engine := __init__
       {| tidalidarr_url := tidalidarr_url settings;
          browser_type := "netscape";
          browser_version := browser_version settings;
          headless := headless settings; timeout_ms := timeout_ms settings;
          sleep_ms := sleep_ms settings;
          viewport_width := viewport_width settings;
          viewport_height := viewport_height settings;
          take_video := take_video settings; video_dir := video_dir settings;
          user_email := user_email settings;
          user_password := user_password settings;
          sentry_dsn := sentry_dsn settings;
          sentry_environment := sentry_environment settings;
          app_version := app_version settings |};
     env := sample_world; clock := 0; trace := [] |}.

End Fixture.

(** The events a run appended to the trace it started from. *)
Definition new_events (before after : State) : list Event :=
  skipn (List.length (trace before)) (trace after).

(** ** Observations on runs *)

(** The error kinds of the design, as the engine raises them. *)
Definition ElementNotFound (selector : string) : exn :=
  ValueError ("Element not found: " ++ selector).

Definition ElementNotVisible (selector : string) : exn :=
  ValueError ("Visible element not found: " ++ selector).

(** The locator [_get_locator] starts from: inside [iframe] when one is given,
    on the session's page otherwise. *)
Definition base_locator (s : State) (iframe : option FrameLocator)
    (selector : string) : option Locator :=
  match iframe with
  | Some f => Some (frame_locator f selector)
  | None => option_map (fun p => page_locator p selector) (_page (engine s))
  end.

(** Index of the first visible element, in document order. *)
Fixpoint first_visible_index (found : list Element) : option nat :=
  match found with
  | [] => None
  | e :: rest =>
      if el_visible e then Some 0 else option_map S (first_visible_index rest)
  end.

(** The three reports of [report_status], told apart as a reader of the log
    does: by logger, level and the way the message starts. *)
Definition is_attempting (ev : Event) : bool :=
  match ev with
  | EvLog EngineLogger INFO false msg => String.prefix "Calling " msg
  | _ => false
  end.

Definition is_succeeded (ev : Event) : bool :=
  match ev with
  | EvLog EngineLogger INFO false msg => String.prefix "Called " msg
  | _ => false
  end.

Definition is_failed (ev : Event) : bool :=
  match ev with
  | EvLog EngineLogger ERROR true msg => String.prefix "Failed to call " msg
  | _ => false
  end.

Definition is_terminal (ev : Event) : bool := is_succeeded ev || is_failed ev.

Definition is_report (ev : Event) : bool := is_attempting ev || is_terminal ev.

Definition count (p : Event -> bool) (evs : list Event) : nat :=
  List.length (filter p evs).

(** One "attempting" and one terminal report among the events of a run. *)
Definition reported_once {A} (m : M A) (s : State) : Prop :=
  let evs := new_events s (snd (m s)) in
  count is_attempting evs = 1%nat /\ count is_terminal evs = 1%nat.

Fixpoint collect {A B} (f : A -> option B) (l : list A) : list B :=
  match l with
  | [] => []
  | a :: rest =>
      match f a with
      | Some b => b :: collect f rest
      | None => collect f rest
      end
  end.

(** The seconds of the backoff sleeps in a trace, in order. *)
Definition backoffs (evs : list Event) : list Z :=
  collect (fun ev => match ev with EvBackoff z => Some z | _ => None end) evs.

Fixpoint drop_prefix (p s : string) : option string :=
  match p with
  | EmptyString => Some s
  | String a p' =>
      match s with
      | String b s' => if Ascii.eqb a b then drop_prefix p' s' else None
      | EmptyString => None
      end
  end.

Fixpoint drop_last (s : string) : string :=
  match s with
  | EmptyString => EmptyString
  | String _ EmptyString => EmptyString
  | String c rest => String c (drop_last rest)
  end.

(** The URL of a report "Calling navigate (<url>)". *)
Definition navigate_call (ev : Event) : option string :=
  match ev with
  | EvLog EngineLogger INFO false msg =>
      option_map drop_last (drop_prefix "Calling navigate (" msg)
  | _ => None
  end.

Definition navigate_calls (evs : list Event) : list string :=
  collect navigate_call evs.

(** The URLs the page was sent to. *)
Definition goto_of (ev : Event) : option string :=
  match ev with
  | EvAction (Goto _ url) => Some url
  | _ => None
  end.

Definition gotos (evs : list Event) : list string := collect goto_of evs.

(** An event that is neither a report of a [navigate] call nor a page load. *)
Definition no_navigation (ev : Event) : Prop :=
  navigate_call ev = None /\ goto_of ev = None.


(** What the body of an operation, retried or not, may leave in the trace:
    the warning of [_get_locator], sleeps, the retry loop's own events and
    actions on the page. *)
Definition is_interaction (ev : Event) : bool :=
  match ev with
  | EvLog EngineLogger WARNING false _ => true
  | EvSleep _ | EvAfterLog _ | EvBackoff _ => true
  | EvAction (Goto _ _) | EvAction (WaitForLoadState _)
  | EvAction (AcceptDialogs _) | EvAction (Click _) | EvAction (Fill _ _) => true
  | _ => false
  end.

Definition interaction (ev : Event) : Prop := is_interaction ev = true.

(** The effects of [teardown]. *)
Definition is_release (ev : Event) : bool :=
  match ev with
  | EvAction (ClosePage _) | EvAction (CloseContext _)
  | EvAction (CloseBrowser _) | EvAction (StopDriver _) => true
  | _ => false
  end.

(** A run of [main] released the session it set up: the page the engine
    holds at the end was closed. *)
Definition session_released (final : State) : Prop :=
  match _page (engine final) with
  | Some p => page_closed p final = true
  | None => True
  end.

(** The state in which attempt [k + 1] of a retried call starts, when the
    attempts before it failed; and what that attempt gives. *)
Fixpoint attempt_state {A} (fn : M A) (s : State) (k : nat) : State :=
  match k with
  | O => s
  | S k' => snd (between_attempts k (snd (fn (attempt_state fn s k'))))
  end.

Definition attempt_result {A} (fn : M A) (s : State) (k : nat) : Result A :=
  fst (fn (attempt_state fn s k)).

Definition failed {A} (r : Result A) : Prop :=
  match r with
  | Raise _ => True
  | Ok _ => False
  end.

(** The wait that C6 states before attempt [k + 1]: [min(2^k, 30)] seconds. *)
Definition stated_wait (k : nat) : Z := Z.min (2 ^ Z.of_nat k) 30.

(** What C4 asks of one resolution: whatever it returns denotes exactly one
    element, and that element is visible. *)
Definition resolves_visible_unique (selector : SelectorInput)
    (selector_type : SelectorType) (iframe : option FrameLocator) (s : State)
    : Prop :=
  forall l, fst (_get_locator selector selector_type iframe s) = Ok l ->
    exists e, resolve (current_dom s) l = [e] /\ el_visible e = true.

(** Calls of the session's lifecycle, made by a caller that goes on after a
    failure. *)
Inductive Lifecycle : Type := CallSetup | CallTeardown.

Definition lifecycle_call (c : Lifecycle) : M unit :=
  match c with
  | CallSetup => setup
  | CallTeardown => teardown
  end.

Fixpoint run_lifecycle (calls : list Lifecycle) (s : State)
    : list (Lifecycle * Result unit) * State :=
  match calls with
  | [] => ([], s)
  | c :: rest =>
      let r := lifecycle_call c s in
      let tail := run_lifecycle rest (snd r) in
      ((c, fst r) :: fst tail, snd tail)
  end.

Definition setup_completed (history : list (Lifecycle * Result unit)) : Prop :=
  In (CallSetup, Ok tt) history.

(** The driver actions in a list of events, in order. *)
Definition action_of (ev : Event) : option Action :=
  match ev with
  | EvAction a => Some a
  | _ => None
  end.

Definition actions (evs : list Event) : list Action := collect action_of evs.

(** The URLs of the HTTP requests in a list of events. *)
Definition http_of (ev : Event) : option string :=
  match ev with
  | EvAction (HttpGet url) => Some url
  | _ => None
  end.

Definition requested_urls (evs : list Event) : list string :=
  collect http_of evs.

(** What the retry loop, entered at attempt [n] with [fuel], leaves in the
    trace when every attempt leaves [evs] and fails. *)
Fixpoint failure_trace (evs : list Event) (fuel n : nat) : list Event :=
  (evs ++ EvAfterLog n ::
     (if stop_after_attempt max_attempts n then []
      else match fuel with
           | O => []
           | S fuel' => EvBackoff (backoff_wait n) :: failure_trace evs fuel' (S n)
           end))%list.

(** The four release actions of a complete session, in the order of
    [teardown]. *)
Definition release_actions (e : PlaywrightEngine) : list Event :=
  (match _page e with Some h => [EvAction (ClosePage h)] | None => [] end
   ++ match _context e with Some h => [EvAction (CloseContext h)] | None => [] end
   ++ match _browser e with Some h => [EvAction (CloseBrowser h)] | None => [] end
   ++ match _playwright e with Some h => [EvAction (StopDriver h)] | None => [] end)%list.

(** The session has a page; the error is not the one of the [page] property. *)
Definition initialized (s : State) : Prop := _page (engine s) <> None.

Definition other_error (e : exn) : Prop := e <> not_initialized.

(** A retried operation on a session without a page: the error of the [page]
    property, after the four backoff sleeps of five attempts, and without a
    single driver call. *)
Definition fails_uninitialized {A} (m : M A) (s : State) : Prop :=
  fst (m s) = Raise not_initialized
  /\ backoffs (new_events s (snd (m s))) = [1; 2; 4; 8]%Z
  /\ actions (new_events s (snd (m s))) = [].

(** The state [setup] leaves when no driver call fails.  Handles are the
    instants of the calls that made them; creating the video directory is one
    more call, before the context is made. *)
Definition setup_outcome (s : State) : State :=
  let settings := _settings (engine s) in
  let c := clock s in
  let k := if take_video settings then 1%nat else 0%nat in
  {| engine :=
       {| _settings := settings;
          _playwright := Some c;
          _browser := Some (c + 1)%nat;
          _context := Some (c + 2 + k)%nat;
          _page := Some (c + 4 + k)%nat |};
     env := env s;
     clock := (c + 5 + k)%nat;
     trace :=
       trace s
       ++ [EvAction StartDriver;
           EvAction (Launch (browser_type settings) (headless settings))]
       ++ (if take_video settings
           then [EvAction (Mkdir (video_dir settings))] else [])
       ++ [EvAction (NewContext (c + 1)%nat (viewport_width settings)
                       (viewport_height settings)
                       (if take_video settings
                        then Some (video_dir settings) else None));
           EvAction (SetDefaultTimeout (c + 2 + k)%nat (timeout_ms settings));
           EvAction (NewPage (c + 2 + k)%nat)] |}.

(** The state [teardown] leaves when no driver call fails. *)
Definition teardown_outcome (s : State) : State :=
  {| engine := engine s;
     env := env s;
     clock := (clock s + List.length (release_actions (engine s)))%nat;
     trace := trace s ++ release_actions (engine s) |}.

(** The state after one [release]: one driver call when the handle is there. *)
Definition after_release (handle : option Handle) (close : Handle -> Action)
    (s : State) : State :=
  match handle with
  | Some h => {| engine := engine s; env := env s; clock := S (clock s);
                 trace := trace s ++ [EvAction (close h)] |}
  | None => s
  end.

(** A decorated call is framed by its own two reports: the "Calling" report
    first, then what the decorated function leaves, then the report of how
    it ended; so it has one "Calling" report and one report of an outcome
    more than the decorated function leaves. *)
Definition own_reports {A} (name : string) (args : list PyValue)
    (kwargs : list (string * PyValue)) (func : M A) (s : State) : Prop :=
  let fc := func_call (env s) name args kwargs in
  let s1 := snd (report (calling_message fc) None s) in
  let inner := new_events s1 (snd (func s1)) in
  let evs := new_events s (snd (report_status name args kwargs func s)) in
  evs = EvLog EngineLogger INFO false (calling_message fc)
        :: inner
        ++ [match fst (func s1) with
            | Ok _ => EvLog EngineLogger INFO false (called_message fc)
            | Raise e => EvLog EngineLogger ERROR true (failed_message fc e)
            end]
  /\ count is_attempting evs = S (count is_attempting inner)
  /\ count is_terminal evs = S (count is_terminal inner).

(** The attempts of a retried call: one more than its backoff sleeps. *)
Definition attempts (evs : list Event) : nat := S (List.length (backoffs evs)).

(** One pair of reports for the call itself and [n] more on each attempt. *)
Definition reported_per_attempt {A} (m : M A) (s : State) (n : nat) : Prop :=
  let evs := new_events s (snd (m s)) in
  count is_attempting evs = (1 + attempts evs * n)%nat
  /\ count is_terminal evs = (1 + attempts evs * n)%nat.

(** An event that is no report and no backoff sleep: what one attempt of a
    body leaves, besides the reports of the decorated methods it calls. *)
Definition unretried (ev : Event) : Prop :=
  is_report ev = false /\ backoffs [ev] = [].



(** A [setup] call is in the history, whatever it gave. *)
Definition setup_called (history : list (Lifecycle * Result unit)) : Prop :=
  exists r, In (CallSetup, r) history.

(** What C10 states of lifecycle calls made on a session: after them the
    [page] property fails with NotInitialized exactly when [setup] was never
    called. *)
Definition fails_iff_never_called (calls : list Lifecycle) (s0 : State) : Prop :=
  fst (page (snd (run_lifecycle calls s0))) = Raise not_initialized
  <-> ~ setup_called (fst (run_lifecycle calls s0)).

(** No operation fails with NotInitialized. *)
Definition never_not_initialized (s : State) : Prop :=
  (forall url, fst (navigate url s) <> Raise not_initialized)
  /\ (forall selector selector_type with_alert,
        fst (click selector selector_type with_alert s) <> Raise not_initialized)
  /\ (forall iframe_selectors selector selector_type,
        fst (click_in_iframe iframe_selectors selector selector_type s)
        <> Raise not_initialized)
  /\ (forall value selector selector_type,
        fst (fill value selector selector_type s) <> Raise not_initialized)
  /\ (forall value iframe_selectors selector selector_type,
        fst (fill_in_iframe value iframe_selectors selector selector_type s)
        <> Raise not_initialized)
  /\ (forall url, fst (assert_url url s) <> Raise not_initialized)
  /\ (forall selector selector_type,
        fst (assert_element_visible selector selector_type s)
        <> Raise not_initialized)
  /\ (forall text selector selector_type,
        fst (assert_text text selector selector_type s) <> Raise not_initialized)
  /\ (forall selector selector_type check_visible,
        fst (element_exists selector selector_type check_visible s)
        <> Raise not_initialized)
  /\ (forall selector selector_type,
        fst (assert_element_not_visible selector selector_type s)
        <> Raise not_initialized)
  /\ (forall key value,
        fst (set_local_storage key value s) <> Raise not_initialized).

(** ** Two program logics for the monad *)

(** [emits P m]: whatever the state, [m] only appends to the trace, and only
    events that satisfy [P]. *)
Definition emits (P : Event -> Prop) {A} (m : M A) : Prop :=
  forall s, exists evs, trace (snd (m s)) = (trace s ++ evs)%list /\ Forall P evs.

(** [safe I E m]: from a state in [I], [m] ends in [I] and raises only
    exceptions in [E]. *)
Definition safe (I : State -> Prop) (E : exn -> Prop) {A} (m : M A) : Prop :=
  forall s, I s ->
    I (snd (m s)) /\ forall e, fst (m s) = Raise e -> E e.

(** * Properties *)

Open Scope list_scope.

Example strip_example : Py.strip "  https://link.tidal.com/abc123
" = "https://link.tidal.com/abc123".
Proof. reflexivity. Qed.

Example selector_translation (raw : string) :
  _get_selector raw ID = String "#" raw
  /\ _get_selector raw CSS = raw
  /\ _get_selector raw XPATH = ("xpath=" ++ raw)%string.
Proof. repeat split. Qed.

(** ** Selector resolution *)

Lemma resolve_nth (d : Dom) (l : Locator) (i : nat) :
  resolve d (locator_nth l i) = narrow (resolve d l) i.
Proof. unfold resolve, locator_nth; simpl. now rewrite fold_left_app. Qed.

Lemma narrow_middle (pre : list Element) (e : Element) (post : list Element) :
  narrow (pre ++ e :: post) (List.length pre) = [e].
Proof.
  unfold narrow. rewrite nth_error_app2 by lia.
  now rewrite Nat.sub_diag.
Qed.

Lemma query_open {A} (l : Locator) (f : list Element -> Result A) (s : State) :
  page_closed (loc_page l) s = false ->
  query l f s = (f (resolve (current_dom s) l), s).
Proof. unfold query. now intros ->. Qed.

Lemma first_visible_index_split (found : list Element) (i : nat) :
  first_visible_index found = Some i ->
  exists pre e post,
    found = pre ++ e :: post /\ List.length pre = i
    /\ Forall (fun x => el_visible x = false) pre /\ el_visible e = true.
Proof.
  revert i. induction found as [|x rest IH]; simpl; intros i H; [discriminate|].
  destruct (el_visible x) eqn:Hx.
  - inversion H; subst. exists [], x, rest. repeat split; auto.
  - destruct (first_visible_index rest) as [j|] eqn:Hj; simpl in H; [|discriminate].
    inversion H; subst.
    destruct (IH j eq_refl) as (pre & e & post & -> & Hlen & Hpre & He).
    exists (x :: pre), e, post. simpl. repeat split; auto.
Qed.

Lemma first_visible_index_hidden_prefix (pre : list Element) (e : Element)
    (post : list Element) :
  Forall (fun x => el_visible x = false) pre -> el_visible e = true ->
  first_visible_index (pre ++ e :: post) = Some (List.length pre).
Proof.
  induction 1 as [|x pre Hx _ IH]; simpl; intros He.
  - now rewrite He.
  - rewrite Hx, (IH He). reflexivity.
Qed.

Lemma first_visible_index_none (found : list Element) :
  Forall (fun x => el_visible x = false) found ->
  first_visible_index found = None.
Proof.
  induction 1 as [|x rest Hx _ IH]; simpl; [reflexivity|].
  now rewrite Hx, IH.
Qed.

(** The scan of [_get_locator], from any point of the match list on. *)
Lemma first_visible_scan (base : Locator) (selector : string) (s : State) :
  page_closed (loc_page base) s = false ->
  forall tl pre,
    resolve (current_dom s) base = pre ++ tl ->
    first_visible base (seq (List.length pre) (List.length tl)) selector s
    = (match first_visible_index tl with
       | Some i => Ok (locator_nth base (List.length pre + i))
       | None => Raise (ElementNotVisible selector)
       end, s).
Proof.
  intros Hopen. induction tl as [|e tl IH]; intros pre Hfound; simpl.
  - reflexivity.
  - unfold bind, locator_is_visible.
    rewrite query_open by exact Hopen.
    rewrite resolve_nth, Hfound, narrow_middle.
    destruct (el_visible e) eqn:He.
    + unfold ret. now rewrite Nat.add_0_r.
    + specialize (IH (pre ++ [e])).
      rewrite length_app in IH; simpl in IH.
      rewrite Nat.add_1_r in IH.
      rewrite IH by (now rewrite <- app_assoc).
      destruct (first_visible_index tl) as [i|]; simpl; [|reflexivity].
      now rewrite Nat.add_succ_r.
Qed.

(** What [_get_locator] returns for a selector string, by the matches of the
    moment. *)
Lemma _get_locator_result (raw : string) (selector_type : SelectorType)
    (iframe : option FrameLocator) (s : State) (base : Locator) :
  base_locator s iframe (_get_selector raw selector_type) = Some base ->
  page_closed (loc_page base) s = false ->
  fst (_get_locator (Raw raw) selector_type iframe s)
  = match resolve (current_dom s) base with
    | [] => Raise (ElementNotFound (_get_selector raw selector_type))
    | [_] => Ok base
    | found =>
        match first_visible_index found with
        | Some i => Ok (locator_nth base i)
        | None => Raise (ElementNotVisible (_get_selector raw selector_type))
        end
    end.
Proof.
  intros Hbase Hopen. unfold _get_locator.
  set (selector := _get_selector raw selector_type) in *.
  assert (Hloc : (match iframe with
                  | Some f => ret (frame_locator f selector)
                  | None => p <- page ;; ret (page_locator p selector)
                  end) s = (Ok base, s)).
  { destruct iframe as [f|]; simpl in Hbase.
    - inversion Hbase; reflexivity.
    - unfold page, bind, get_engine. destruct (_page (engine s)); simpl in *;
        inversion Hbase; reflexivity. }
  unfold bind at 1. rewrite Hloc.
  unfold bind at 1. unfold locator_count. rewrite query_open by exact Hopen.
  destruct (resolve (current_dom s) base) as [|e [|e' rest]] eqn:Hfound.
  - reflexivity.
  - reflexivity.
  - cbn [List.length Nat.eqb Nat.ltb Nat.leb].
    unfold bind at 1. unfold log, emit.
    match goal with
    | |- fst (first_visible _ _ _ ?st) = _ => set (s' := st)
    end.
    assert (Hopen' : page_closed (loc_page base) s' = false).
    { unfold page_closed, s'; simpl. rewrite existsb_app; simpl.
      unfold page_closed in Hopen. now rewrite Hopen. }
    pose proof (first_visible_scan base selector s' Hopen'
                  (e :: e' :: rest) [] Hfound) as Hscan.
    cbn [List.length] in Hscan. rewrite Hscan.
    cbn [first_visible_index fst Nat.add].
    destruct (el_visible e); [reflexivity|].
    destruct (el_visible e'); [reflexivity|].
    destruct (first_visible_index rest); reflexivity.
Qed.

Lemma _get_locator_passthrough (l : Locator) (selector_type : SelectorType)
    (iframe : option FrameLocator) (s : State) :
  _get_locator (Resolved l) selector_type iframe s = (Ok l, s).
Proof. reflexivity. Qed.

(** C5. Selector resolution by cases, on a live page: one visible match is
    returned; no match fails with ElementNotFound; several matches with a
    visible one give the first visible match in document order; several
    matches, none visible, fail with ElementNotVisible. *)
Theorem get_locator_case_analysis (raw : string) (selector_type : SelectorType)
    (iframe : option FrameLocator) (s : State) (base : Locator) :
  base_locator s iframe (_get_selector raw selector_type) = Some base ->
  page_closed (loc_page base) s = false ->
  let selector := _get_selector raw selector_type in
  let found := resolve (current_dom s) base in
  let result := fst (_get_locator (Raw raw) selector_type iframe s) in
  (forall e, found = [e] -> el_visible e = true ->
     result = Ok base /\ resolve (current_dom s) base = [e])
  /\ (found = [] -> result = Raise (ElementNotFound selector))
  /\ (forall pre e post,
        (1 < List.length found)%nat -> found = pre ++ e :: post ->
        Forall (fun x => el_visible x = false) pre -> el_visible e = true ->
        result = Ok (locator_nth base (List.length pre))
        /\ resolve (current_dom s) (locator_nth base (List.length pre)) = [e])
  /\ ((1 < List.length found)%nat ->
      Forall (fun x => el_visible x = false) found ->
      result = Raise (ElementNotVisible selector)).
Proof.
  intros Hbase Hopen selector found result.
  pose proof (_get_locator_result raw selector_type iframe s base Hbase Hopen) as R.
  fold found result selector in R.
  split; [|split; [|split]].
  - intros e Hone _. split; [|exact Hone]. rewrite R. now rewrite Hone.
  - intros Hnone. rewrite R. now rewrite Hnone.
  - intros pre e post Hlen Hsplit Hpre He. split.
    + rewrite R.
      pose proof (first_visible_index_hidden_prefix pre e post Hpre He) as Hidx.
      rewrite <- Hsplit in Hidx.
      destruct found as [|x [|y rest]]; simpl in Hlen; try lia.
      now rewrite Hidx.
    + rewrite resolve_nth. fold found. rewrite Hsplit. apply narrow_middle.
  - intros Hlen Hhidden. rewrite R.
    pose proof (first_visible_index_none found Hhidden) as Hidx.
    destruct found as [|x [|y rest]]; simpl in Hlen; try lia.
    now rewrite Hidx.
Qed.

Lemma get_locator_case_analysis_witness :
  fst (_get_locator (Raw "one") ID None Fixture.sample)
  = Ok (page_locator 4 "#one")
  /\ fst (_get_locator (Raw "#none") CSS None Fixture.sample)
     = Raise (ElementNotFound "#none")
  /\ fst (_get_locator (Raw ".item") CSS None Fixture.sample)
     = Ok (locator_nth (page_locator 4 ".item") 1)
  /\ fst (_get_locator (Raw ".ghost") CSS None Fixture.sample)
     = Raise (ElementNotVisible ".ghost").
Proof.
  split; [|split; [|split]].
  - pose proof (get_locator_case_analysis "one" ID None Fixture.sample
                  (page_locator 4 "#one") eq_refl eq_refl) as (H & _).
    exact (proj1 (H (Fixture.shown 7) eq_refl eq_refl)).
  - pose proof (get_locator_case_analysis "#none" CSS None Fixture.sample
                  (page_locator 4 "#none") eq_refl eq_refl) as (_ & H & _).
    exact (H eq_refl).
  - pose proof (get_locator_case_analysis ".item" CSS None Fixture.sample
                  (page_locator 4 ".item") eq_refl eq_refl) as (_ & _ & H & _).
    refine (proj1 (H [Fixture.hidden 1] (Fixture.shown 2) [Fixture.shown 3]
                     _ eq_refl _ eq_refl)).
    + vm_compute. lia.
    + repeat constructor.
  - pose proof (get_locator_case_analysis ".ghost" CSS None Fixture.sample
                  (page_locator 4 ".ghost") eq_refl eq_refl) as (_ & _ & _ & H).
    apply H.
    + vm_compute. lia.
    + repeat constructor.
Defined.

(** C4, as stated, fails: a selector with a single hidden match resolves to
    that hidden element. *)
Lemma single_hidden_match_is_returned :
  ~ resolves_visible_unique (Raw "banner") ID None Fixture.sample.
Proof.
  intros H.
  destruct (H (page_locator 4 "#banner") eq_refl) as (e & Hres & Hvis).
  vm_compute in Hres. inversion Hres; subst. discriminate Hvis.
Qed.

(** C4, amended. A selector string resolved on a live page gives a locator
    that denotes exactly one of the current matches.  With several matches it
    is the first visible one in document order; with a single match it is
    that match, visible or not. *)
Theorem get_locator_unique_and_visible_among_many (raw : string)
    (selector_type : SelectorType) (iframe : option FrameLocator) (s : State)
    (base l : Locator) :
  base_locator s iframe (_get_selector raw selector_type) = Some base ->
  page_closed (loc_page base) s = false ->
  fst (_get_locator (Raw raw) selector_type iframe s) = Ok l ->
  let found := resolve (current_dom s) base in
  exists e,
    resolve (current_dom s) l = [e]
    /\ In e found
    /\ ((1 < List.length found)%nat ->
        el_visible e = true
        /\ exists pre post,
             found = pre ++ e :: post
             /\ Forall (fun x => el_visible x = false) pre
             /\ l = locator_nth base (List.length pre))
    /\ (List.length found = 1%nat -> l = base).
Proof.
  intros Hbase Hopen Hok found.
  rewrite (_get_locator_result raw selector_type iframe s base Hbase Hopen) in Hok.
  fold found in Hok. subst found.
  destruct (resolve (current_dom s) base) as [|x [|y rest]] eqn:Hfound.
  - discriminate.
  - inversion Hok; subst l. exists x.
    split; [exact Hfound|]. split; [now left|].
    split; [simpl; lia|reflexivity].
  - destruct (first_visible_index (x :: y :: rest)) as [i|] eqn:Hidx;
      [|discriminate].
    inversion Hok; subst l.
    destruct (first_visible_index_split _ _ Hidx)
      as (pre & e & post & Hsplit & Hlen & Hpre & He).
    exists e. split; [|split; [|split]].
    + rewrite resolve_nth, Hfound, Hsplit, <- Hlen. apply narrow_middle.
    + rewrite Hsplit. apply in_or_app. right. now left.
    + intros _. split; [exact He|].
      exists pre, post. subst i. split; [exact Hsplit|]. split; [exact Hpre|reflexivity].
    + simpl; intros; lia.
Qed.

Lemma get_locator_unique_and_visible_among_many_witness :
  exists e, resolve (current_dom Fixture.sample)
              (locator_nth (page_locator 4 ".item") 1) = [e]
            /\ el_visible e = true.
Proof.
  destruct (get_locator_unique_and_visible_among_many ".item" CSS None
              Fixture.sample (page_locator 4 ".item")
              (locator_nth (page_locator 4 ".item") 1)
              eq_refl eq_refl eq_refl) as (e & Hres & _ & Hmany & _).
  exists e. split; [exact Hres|].
  apply Hmany. vm_compute. lia.
Defined.

(** ** [element_exists] and [assert_element_not_visible] *)

Lemma any_visible_scan (base : Locator) (s : State) :
  page_closed (loc_page base) s = false ->
  forall tl pre,
    resolve (current_dom s) base = pre ++ tl ->
    any_visible (map (locator_nth base) (seq (List.length pre) (List.length tl))) s
    = (Ok (existsb el_visible tl), s).
Proof.
  intros Hopen. induction tl as [|e tl IH]; intros pre Hfound; simpl.
  - reflexivity.
  - unfold bind, locator_is_visible.
    rewrite query_open by exact Hopen.
    rewrite resolve_nth, Hfound, narrow_middle.
    destruct (el_visible e); [reflexivity|].
    specialize (IH (pre ++ [e])).
    rewrite length_app, Nat.add_1_r in IH.
    apply IH. now rewrite <- app_assoc.
Qed.

(** With [check_visible] on, the answer is whether some match is visible. *)
Lemma element_exists_checks_visibility (raw : string) (selector_type : SelectorType)
    (s : State) (p : Handle) :
  _page (engine s) = Some p ->
  page_closed p s = false ->
  element_exists_body (Raw raw) selector_type true s
  = (Ok (existsb el_visible
           (current_dom s p [] (_get_selector raw selector_type))), s).
Proof.
  intros Hpage Hopen. unfold element_exists_body, page, bind, get_engine.
  rewrite Hpage. unfold ret at 1. cbv iota beta.
  unfold exists_expression, bind, locator_count, locator_all.
  set (base := page_locator p (_get_selector raw selector_type)).
  assert (Hopen' : page_closed (loc_page base) s = false) by exact Hopen.
  rewrite query_open by exact Hopen'.
  change (resolve (current_dom s) base)
    with (current_dom s p [] (_get_selector raw selector_type)) in *.
  destruct (current_dom s p [] (_get_selector raw selector_type))
    as [|e rest] eqn:Hfound.
  - reflexivity.
  - cbn [List.length Nat.ltb Nat.leb]. unfold bind, locator_count.
    rewrite query_open by exact Hopen'. unfold ret at 1.
    change (resolve (current_dom s) base)
      with (current_dom s p [] (_get_selector raw selector_type)).
    rewrite Hfound.
    exact (any_visible_scan base s Hopen' (e :: rest) [] Hfound).
Qed.

(** With [check_visible] off, the answer is [True] whatever the page holds. *)
Lemma element_exists_unchecked_is_true (selector : SelectorInput)
    (selector_type : SelectorType) (s : State) (p : Handle) :
  _page (engine s) = Some p ->
  element_exists_body selector selector_type false s = (Ok true, s).
Proof.
  intros Hpage. destruct selector as [raw|l]; [|reflexivity].
  unfold element_exists_body, page, bind, get_engine.
  now rewrite Hpage.
Qed.

(** C3, at the failing input: no element matches [#missing], and
    [element_exists("#missing", SelectorType.CSS, check_visible=False)]
    answers [True], after one attempt and with a success report. *)
Theorem element_exists_unchecked_true_without_match :
  current_dom Fixture.sample 4 [] "#missing" = []
  /\ fst (element_exists_body (Raw "#missing") CSS false Fixture.sample) = Ok true
  /\ fst (element_exists (Raw "#missing") CSS (Some false) Fixture.sample) = Ok true
  /\ new_events Fixture.sample
       (snd (element_exists (Raw "#missing") CSS (Some false) Fixture.sample))
     = [EvLog EngineLogger INFO false
          "Calling element_exists (#missing, css, check_visible=False)";
        EvLog EngineLogger INFO false
          "Called element_exists (#missing, css, check_visible=False) successfully"].
Proof. repeat split. Qed.

(** What the assertion does on a live page, by the matches of the moment. *)
Lemma assert_element_not_visible_result (raw : string)
    (selector_type : SelectorType) (s : State) (p : Handle) :
  _page (engine s) = Some p ->
  page_closed p s = false ->
  assert_element_not_visible_body (Raw raw) selector_type s
  = (match current_dom s p [] (_get_selector raw selector_type) with
     | [] => Ok tt
     | [_] => Raise (AssertionError
                       ("Element not visible assertion failed: "
                        ++ _get_selector raw selector_type)%string)
     | _ => Raise strict_mode_violation
     end, s).
Proof.
  intros Hpage Hopen.
  unfold assert_element_not_visible_body, page, bind, get_engine.
  rewrite Hpage. unfold ret at 1. cbv iota beta. unfold ret at 1.
  cbn [fst snd].
  set (base := page_locator p (_get_selector raw selector_type)).
  assert (Hopen' : page_closed (loc_page base) s = false) by exact Hopen.
  unfold locator_is_visible, locator_count.
  rewrite !query_open by exact Hopen'.
  change (resolve (current_dom s) base)
    with (current_dom s p [] (_get_selector raw selector_type)).
  destruct (current_dom s p [] (_get_selector raw selector_type))
    as [|e [|e' rest]] eqn:Hfound; cbv beta iota.
  - rewrite query_open by exact Hopen'.
    change (resolve (current_dom s) base)
      with (current_dom s p [] (_get_selector raw selector_type)).
    now rewrite Hfound.
  - destruct (el_visible e); [reflexivity|].
    rewrite query_open by exact Hopen'.
    change (resolve (current_dom s) base)
      with (current_dom s p [] (_get_selector raw selector_type)).
    now rewrite Hfound.
  - reflexivity.
Qed.

(** C2, at the failing input: [#banner] matches one element, which is hidden,
    and [assert_element_not_visible("banner", SelectorType.ID)] raises the
    assertion error, on each of the five attempts. *)
Theorem assert_not_visible_rejects_hidden_element :
  current_dom Fixture.sample 4 [] "#banner" = [Fixture.hidden 1]
  /\ fst (assert_element_not_visible_body (Raw "banner") ID Fixture.sample)
     = Raise (AssertionError "Element not visible assertion failed: #banner")
  /\ fst (assert_element_not_visible (Raw "banner") ID Fixture.sample)
     = Raise (AssertionError "Element not visible assertion failed: #banner")
  /\ count (fun ev => match ev with EvAfterLog _ => true | _ => false end)
       (new_events Fixture.sample
          (snd (assert_element_not_visible (Raw "banner") ID Fixture.sample)))
     = 5%nat.
Proof. repeat split. Qed.

(** ** What [report_status] writes about the arguments *)

Lemma prefix_app (p rest : string) : String.prefix p (p ++ rest)%string = true.
Proof.
  induction p as [|c p IH]; simpl.
  - now destruct rest.
  - destruct (ascii_dec c c) as [_|Hne]; [exact IH|now elim Hne].
Qed.

Lemma contains_prefix (x s : string) :
  String.prefix x s = true -> Py.contains x s = true.
Proof. destruct s; simpl; now intros ->. Qed.

Lemma contains_middle (before x after : string) :
  Py.contains x (before ++ x ++ after)%string = true.
Proof.
  induction before as [|c before IH].
  - change ("" ++ x ++ after)%string with (x ++ after)%string.
    apply contains_prefix, prefix_app.
  - cbn [append Py.contains].
    destruct (String.prefix x (String c (before ++ x ++ after))); [reflexivity|].
    exact IH.
Qed.

Lemma string_app_assoc (a b c : string) :
  ((a ++ b) ++ c = a ++ (b ++ c))%string.
Proof. induction a as [|x a IH]; simpl; [reflexivity|now rewrite IH]. Qed.

Lemma string_app_nil_r (a : string) : (a ++ "")%string = a.
Proof. induction a as [|x a IH]; simpl; [reflexivity|now rewrite IH]. Qed.

Lemma join_middle (sep : string) (pre : list string) (x : string)
    (post : list string) :
  exists before after,
    Py.join sep (pre ++ x :: post) = (before ++ x ++ after)%string.
Proof.
  unfold Py.join. induction pre as [|y pre IH].
  - exists ""%string. destruct post as [|z post]; simpl.
    + exists ""%string. now rewrite string_app_nil_r.
    + eexists. reflexivity.
  - destruct IH as (before & after & IH).
    exists (y ++ sep ++ before)%string, after.
    change ((y :: pre) ++ x :: post) with (y :: (pre ++ x :: post)).
    destruct (pre ++ x :: post) as [|z tl] eqn:Hl.
    + now destruct pre.
    + cbn [String.concat]. cbn [String.concat] in IH. rewrite IH.
      now rewrite !string_app_assoc.
Qed.

(** A secret passed by keyword is written out in clear, whatever the call. *)
Lemma keyword_secret_in_description (E : Env) (name key : string)
    (v : SecretStr) (args : list PyValue) (pre post : list (string * PyValue)) :
  Py.contains (get_secret_value v)
    (func_call E name args (pre ++ (key, VSecret v) :: post)) = true.
Proof.
  unfold func_call. rewrite map_app. cbn [map fst snd get_str_value].
  rewrite app_assoc.
  destruct (join_middle ", " (map (py_str E) args
              ++ map (fun kv => (fst kv ++ "=" ++ get_str_value E (snd kv))%string) pre)
              (key ++ "=" ++ get_secret_value v)%string
              (map (fun kv => (fst kv ++ "=" ++ get_str_value E (snd kv))%string) post))
    as (before & after & ->).
  replace (name ++ " (" ++ (before ++ (key ++ "=" ++ get_secret_value v) ++ after)
           ++ ")")%string
    with ((name ++ " (" ++ before ++ key ++ "=") ++ get_secret_value v
          ++ (after ++ ")"))%string
    by now rewrite !string_app_assoc.
  apply contains_middle.
Qed.

(** A secret passed positionally is written as its mask: two calls that differ
    only in the text of a non-empty secret have the same description. *)
Lemma positional_secret_masked (E : Env) (name : string) (v1 v2 : SecretStr)
    (pre post : list PyValue) (kwargs : list (string * PyValue)) :
  get_secret_value v1 <> ""%string -> get_secret_value v2 <> ""%string ->
  func_call E name (pre ++ VSecret v1 :: post) kwargs
  = func_call E name (pre ++ VSecret v2 :: post) kwargs.
Proof.
  intros H1 H2. unfold func_call. rewrite !map_app. cbn [map py_str].
  unfold SecretStr_str.
  destruct (String.eqb_spec (get_secret_value v1) ""); [contradiction|].
  destruct (String.eqb_spec (get_secret_value v2) ""); [contradiction|].
  reflexivity.
Qed.

(** C1, at the failing input:
    [fill(value=SecretStr("hunter2"), selector="#one", selector_type=CSS)]
    is reported with the password in clear, and another password gives
    another report. *)
Theorem keyword_secret_reported_in_plaintext :
  hd_error (new_events Fixture.sample
              (snd (fill_by_keyword (Secret (mkSecretStr "hunter2"))
                      (Raw "#one") CSS Fixture.sample)))
  = Some (EvLog EngineLogger INFO false
            "Calling fill (value=hunter2, selector=#one, selector_type=css)")
  /\ Py.contains "hunter2"
       (func_call Fixture.sample_world "fill" []
          [("value", VSecret (mkSecretStr "hunter2"));
           ("selector", VStr "#one"); ("selector_type", VSelectorType CSS)])
     = true
  /\ func_call Fixture.sample_world "fill" []
       [("value", VSecret (mkSecretStr "hunter2"));
        ("selector", VStr "#one"); ("selector_type", VSelectorType CSS)]
     <> func_call Fixture.sample_world "fill" []
          [("value", VSecret (mkSecretStr "letmein"));
           ("selector", VStr "#one"); ("selector_type", VSelectorType CSS)].
Proof.
  split; [reflexivity|]. split; [reflexivity|].
  vm_compute. discriminate.
Qed.

Example positional_secret_report :
  hd_error (new_events Fixture.sample
              (snd (fill (Secret (mkSecretStr "hunter2"))
                      (Raw "#one") CSS Fixture.sample)))
  = Some (EvLog EngineLogger INFO false "Calling fill (**********, #one, css)").
Proof. reflexivity. Qed.

(** ** The logic of appended events *)

Lemma new_events_app (s s' : State) (evs : list Event) :
  trace s' = trace s ++ evs -> new_events s s' = evs.
Proof.
  intros H. unfold new_events. rewrite H.
  rewrite skipn_app, skipn_all, Nat.sub_diag. reflexivity.
Qed.

Lemma retry_loop_unfold {A} (fuel n : nat) (fn : M A) (s : State) :
  retry_loop fuel n fn s
  = match fn s with
    | (Ok result, s1) => (Ok result, s1)
    | (Raise e, s1) =>
        let s2 := snd (emit (EvAfterLog n) s1) in
        if stop_after_attempt max_attempts n then (Raise e, s2)
        else match fuel with
             | O => (Raise e, s2)
             | S fuel' =>
                 retry_loop fuel' (S n) fn (snd (nap (backoff_wait n) s2))
             end
    end.
Proof.
  destruct fuel; cbn [retry_loop]; destruct (fn s) as [[v|e] s1];
    try reflexivity; unfold bind at 1; cbn [emit];
    destruct (stop_after_attempt max_attempts n); reflexivity.
Qed.

Lemma after_log_trace (n : nat) (s : State) :
  trace (snd (emit (EvAfterLog n) s)) = trace s ++ [EvAfterLog n].
Proof. reflexivity. Qed.

Lemma nap_trace (z : Z) (s : State) :
  trace (snd (nap z s)) = trace s ++ [EvBackoff z].
Proof. reflexivity. Qed.

Section Emits.

Variable P : Event -> Prop.

Lemma emits_ret {A} (a : A) : emits P (ret a).
Proof. intros s. exists []. simpl. now rewrite app_nil_r. Qed.

Lemma emits_raise {A} (e : exn) : emits P (@raise A e).
Proof. intros s. exists []. simpl. now rewrite app_nil_r. Qed.

Lemma emits_bind {A B} (m : M A) (k : A -> M B) :
  emits P m -> (forall a, emits P (k a)) -> emits P (bind m k).
Proof.
  intros Hm Hk s. unfold bind.
  destruct (Hm s) as (evs1 & H1 & HP1).
  destruct (m s) as [[a|e] s1]; simpl in *.
  - destruct (Hk a s1) as (evs2 & H2 & HP2).
    exists (evs1 ++ evs2). rewrite H2, H1, app_assoc.
    split; [reflexivity|]. now apply Forall_app.
  - now exists evs1.
Qed.

Lemma emits_emit (ev : Event) : P ev -> emits P (emit ev).
Proof. intros H s. exists [ev]. simpl. auto. Qed.

Lemma emits_tick : emits P tick.
Proof. intros s. exists []. simpl. now rewrite app_nil_r. Qed.

Lemma emits_get_engine : emits P get_engine.
Proof. intros s. exists []. simpl. now rewrite app_nil_r. Qed.

Lemma emits_get_env : emits P get_env.
Proof. intros s. exists []. simpl. now rewrite app_nil_r. Qed.

Lemma emits_set_engine (e : PlaywrightEngine) : emits P (set_engine e).
Proof. intros s. exists []. simpl. now rewrite app_nil_r. Qed.

Lemma emits_driver_call (a : Action) :
  P (EvAction a) -> emits P (driver_call a).
Proof.
  intros H s. exists [EvAction a]. unfold driver_call.
  destruct (fault_at (env s) (clock s)); simpl; auto.
Qed.

Lemma emits_page_call (p : Handle) (a : Action) :
  P (EvAction a) -> emits P (page_call p a).
Proof.
  intros H s. unfold page_call.
  destruct (page_closed p s).
  - exists []. simpl. now rewrite app_nil_r.
  - apply emits_bind; [now apply emits_driver_call|intros; apply emits_ret].
Qed.

Lemma emits_query {A} (l : Locator) (f : list Element -> Result A) :
  emits P (query l f).
Proof.
  intros s. exists []. unfold query.
  destruct (page_closed (loc_page l) s); simpl; now rewrite app_nil_r.
Qed.

Lemma emits_requests_get (url : string) :
  P (EvAction (HttpGet url)) -> emits P (requests_get url).
Proof. intros H s. exists [EvAction (HttpGet url)]. simpl. auto. Qed.

Lemma emits_retry_loop {A} (fn : M A) :
  (forall n, P (EvAfterLog n)) -> (forall z, P (EvBackoff z)) ->
  emits P fn ->
  forall fuel attempt_number, emits P (retry_loop fuel attempt_number fn).
Proof.
  intros Hafter Hnap Hfn fuel.
  induction fuel as [|fuel IH]; intros n s; rewrite retry_loop_unfold;
    destruct (Hfn s) as (evs & Htr & HP);
    destruct (fn s) as [[v|e] s1]; cbn [fst snd] in *;
    try (now exists evs).
  - exists (evs ++ [EvAfterLog n]).
    destruct (stop_after_attempt max_attempts n); cbn [snd trace];
      rewrite after_log_trace, Htr, <- app_assoc;
      (split; [reflexivity|]); apply Forall_app; auto.
  - destruct (stop_after_attempt max_attempts n).
    + exists (evs ++ [EvAfterLog n]). cbn [snd].
      rewrite after_log_trace, Htr, <- app_assoc.
      split; [reflexivity|]. apply Forall_app; auto.
    + destruct (IH (S n) (snd (nap (backoff_wait n)
                                 (snd (emit (EvAfterLog n) s1)))))
        as (evs2 & H2 & HP2).
      exists (evs ++ EvAfterLog n :: EvBackoff (backoff_wait n) :: evs2).
      rewrite H2, nap_trace, after_log_trace, Htr, <- !app_assoc.
      split; [reflexivity|].
      apply Forall_app; split; [assumption|]. repeat constructor; auto.
Qed.

Lemma emits_report (message : string) (status : option Status) :
  (forall msg, P (EvLog EngineLogger INFO false msg)) ->
  (forall msg, P (EvLog EngineLogger ERROR true msg)) ->
  emits P (report message status).
Proof.
  intros Hinfo Herr. unfold report, log, log_exception.
  destruct status as [[|]|]; apply emits_emit; auto.
Qed.

Lemma emits_report_status {A} (name : string) (args : list PyValue)
    (kwargs : list (string * PyValue)) (func : M A) :
  (forall msg, P (EvLog EngineLogger INFO false msg)) ->
  (forall msg, P (EvLog EngineLogger ERROR true msg)) ->
  emits P func -> emits P (report_status name args kwargs func).
Proof.
  intros Hinfo Herr Hfunc s. unfold report_status.
  apply emits_bind; [now apply emits_report|]. intros _ s1.
  destruct (Hfunc s1) as (evs & Htr & HP).
  destruct (func s1) as [[v|e] s2]; simpl in *.
  - eexists (evs ++ [_]). rewrite Htr, <- app_assoc.
    split; [reflexivity|]. apply Forall_app; auto.
  - eexists (evs ++ [_]). rewrite Htr, <- app_assoc.
    split; [reflexivity|]. apply Forall_app; auto.
Qed.

End Emits.

Lemma emits_weaken (P Q : Event -> Prop) {A} (m : M A) :
  (forall ev, P ev -> Q ev) -> emits P m -> emits Q m.
Proof.
  intros HPQ Hm s. destruct (Hm s) as (evs & Htr & HP).
  exists evs. split; [exact Htr|]. eapply Forall_impl; eauto.
Qed.

(** Decomposes a goal [emits P m] along the structure of [m]. *)
Ltac emits_auto :=
  repeat first
    [ apply emits_ret | apply emits_raise | apply emits_tick
    | apply emits_get_engine | apply emits_get_env | apply emits_set_engine
    | apply emits_query
    | apply emits_bind; [|intros ?]
    | apply emits_emit | apply emits_driver_call | apply emits_page_call
    | apply emits_requests_get
    | match goal with
      | |- emits _ (if ?b then _ else _) => destruct b
      | |- emits _ (match ?x with _ => _ end) => destruct x
      | |- emits _ (let _ := _ in _) => cbv zeta
      end
    | reflexivity | assumption ].

Lemma emits_page : emits interaction page.
Proof. unfold page. emits_auto. Qed.

Lemma emits_sleep (ms : Z) : emits interaction (sleep ms).
Proof. unfold sleep. emits_auto. Qed.

Lemma emits_locator_is_visible (l : Locator) :
  emits interaction (locator_is_visible l).
Proof. unfold locator_is_visible. emits_auto. Qed.

Lemma emits_locator_count (l : Locator) : emits interaction (locator_count l).
Proof. unfold locator_count. emits_auto. Qed.

Lemma emits_first_visible (l : Locator) (indices : list nat) (selector : string) :
  emits interaction (first_visible l indices selector).
Proof.
  induction indices as [|i rest IH]; simpl.
  - emits_auto.
  - apply emits_bind; [apply emits_locator_is_visible|].
    intros [|]; [apply emits_ret|exact IH].
Qed.

Lemma emits_any_visible (locators : list Locator) :
  emits interaction (any_visible locators).
Proof.
  induction locators as [|l rest IH]; simpl.
  - emits_auto.
  - apply emits_bind; [apply emits_locator_is_visible|].
    intros [|]; [apply emits_ret|exact IH].
Qed.

Lemma emits_get_locator (selector : SelectorInput) (selector_type : SelectorType)
    (iframe : option FrameLocator) :
  emits interaction (_get_locator selector selector_type iframe).
Proof.
  unfold _get_locator. destruct selector as [raw|l]; [|apply emits_ret].
  cbv zeta. apply emits_bind.
  - destruct iframe; [apply emits_ret|].
    apply emits_bind; [apply emits_page|intros; apply emits_ret].
  - intros locator. apply emits_bind; [apply emits_locator_count|].
    intros n. destruct (n =? 0)%nat; [apply emits_raise|].
    destruct (1 <? n)%nat; [|apply emits_ret].
    apply emits_bind; [unfold log; now apply emits_emit|].
    intros _. apply emits_first_visible.
Qed.

Lemma emits_locator_action (l : Locator) (a : Action) :
  interaction (EvAction a) -> emits interaction (locator_action l a).
Proof. intros Ha. unfold locator_action. emits_auto. Qed.

Lemma emits_after_click : emits interaction after_click.
Proof.
  unfold after_click.
  apply emits_bind; [apply emits_page|intros p].
  apply emits_bind; [now apply emits_page_call|intros _].
  apply emits_bind; [apply emits_get_engine|intros self]. apply emits_sleep.
Qed.

Lemma emits_navigate_body (url : string) : emits interaction (navigate_body url).
Proof.
  unfold navigate_body.
  apply emits_bind; [apply emits_page|intros p].
  apply emits_bind; [now apply emits_page_call|intros _].
  apply emits_bind; [apply emits_get_engine|intros self]. apply emits_sleep.
Qed.

Lemma emits_click_body (selector : SelectorInput) (selector_type : SelectorType)
    (with_alert : bool) :
  emits interaction (click_body selector selector_type with_alert).
Proof.
  unfold click_body. apply emits_bind.
  - destruct with_alert; [|apply emits_ret].
    apply emits_bind; [apply emits_page|intros p]. now apply emits_emit.
  - intros _. apply emits_bind; [apply emits_get_locator|intros target].
    apply emits_bind; [now apply emits_locator_action|intros _].
    apply emits_after_click.
Qed.

Lemma emits_fill_body (value : FillValue) (selector : SelectorInput)
    (selector_type : SelectorType) :
  emits interaction (fill_body value selector selector_type).
Proof.
  unfold fill_body. cbv zeta.
  apply emits_bind; [apply emits_get_locator|intros target].
  now apply emits_locator_action.
Qed.

Lemma emits_exists_expression (l : Locator) (check_visible : bool) :
  emits interaction (exists_expression l check_visible).
Proof.
  unfold exists_expression. destruct check_visible; [|apply emits_ret].
  apply emits_bind; [apply emits_locator_count|intros n].
  destruct (0 <? n)%nat; [|apply emits_ret].
  apply emits_bind; [|intros; apply emits_any_visible].
  unfold locator_all.
  apply emits_bind; [apply emits_locator_count|intros; apply emits_ret].
Qed.

Lemma emits_element_exists_body (selector : SelectorInput)
    (selector_type : SelectorType) (check_visible : bool) :
  emits interaction (element_exists_body selector selector_type check_visible).
Proof.
  unfold element_exists_body.
  destruct selector as [raw|l]; [|apply emits_exists_expression].
  cbv zeta. apply emits_bind; [apply emits_page|intros p].
  apply emits_exists_expression.
Qed.

Lemma emits_assert_element_not_visible_body (selector : SelectorInput)
    (selector_type : SelectorType) :
  emits interaction (assert_element_not_visible_body selector selector_type).
Proof.
  unfold assert_element_not_visible_body. apply emits_bind.
  - destruct selector as [raw|l].
    + cbv zeta. apply emits_bind; [apply emits_page|intros; apply emits_ret].
    + apply emits_bind; [apply emits_get_env|intros; apply emits_ret].
  - intros found. cbv zeta.
    apply emits_bind; [apply emits_locator_is_visible|intros visible].
    apply emits_bind.
    + destruct visible; [apply emits_ret|].
      apply emits_bind; [apply emits_locator_count|intros; apply emits_ret].
    + intros [|]; [apply emits_raise|apply emits_ret].
Qed.

Lemma emits_retry_with_backoff {A} (body : M A) :
  emits interaction body -> emits interaction (retry_with_backoff body).
Proof.
  intros H. unfold retry_with_backoff.
  apply emits_retry_loop; [reflexivity|reflexivity|exact H].
Qed.

Lemma interaction_not_report (ev : Event) :
  interaction ev -> is_report ev = false.
Proof.
  unfold interaction.
  destruct ev as [[] [] [] msg|n|z|z|a]; simpl; try discriminate; reflexivity.
Qed.

Lemma interaction_not_release (ev : Event) :
  interaction ev -> is_release ev = false.
Proof.
  unfold interaction.
  destruct ev as [lg lv ex msg|n|z|z|[]]; simpl; try discriminate; reflexivity.
Qed.

(** ** One pair of reports per call *)

Lemma count_app (p : Event -> bool) (a b : list Event) :
  count p (a ++ b) = (count p a + count p b)%nat.
Proof. unfold count. now rewrite filter_app, length_app. Qed.

Lemma count_none (p : Event -> bool) (evs : list Event) :
  Forall (fun ev => p ev = false) evs -> count p evs = 0%nat.
Proof.
  unfold count. induction 1 as [|ev evs Hev _ IH]; simpl; [reflexivity|].
  now rewrite Hev.
Qed.

Lemma is_report_parts (ev : Event) :
  is_report ev = false -> is_attempting ev = false /\ is_terminal ev = false.
Proof. unfold is_report. now intros [? ?]%orb_false_elim. Qed.

Lemma calling_is_attempting (fc : string) :
  is_attempting (EvLog EngineLogger INFO false (calling_message fc)) = true
  /\ is_terminal (EvLog EngineLogger INFO false (calling_message fc)) = false.
Proof.
  split; [apply (prefix_app "Calling " fc)|].
  unfold is_terminal, is_succeeded, is_failed, calling_message.
  now destruct fc.
Qed.

Lemma called_is_terminal (fc : string) :
  is_attempting (EvLog EngineLogger INFO false (called_message fc)) = false
  /\ is_terminal (EvLog EngineLogger INFO false (called_message fc)) = true.
Proof.
  split.
  - unfold is_attempting, called_message. now destruct fc.
  - unfold is_terminal, is_succeeded. apply orb_true_iff. left.
    apply (prefix_app "Called " (fc ++ " successfully")).
Qed.

Lemma failed_is_terminal (fc : string) (e : exn) :
  is_attempting (EvLog EngineLogger ERROR true (failed_message fc e)) = false
  /\ is_terminal (EvLog EngineLogger ERROR true (failed_message fc e)) = true.
Proof.
  split; [reflexivity|].
  unfold is_terminal, is_failed. apply orb_true_iff. right.
  apply (prefix_app "Failed to call " (fc ++ ": " ++ exn_str e)).
Qed.

(** A run of a decorated call: the "Calling" report, the decorated function,
    then the report of how it ended. *)
Lemma report_status_run {A} (name : string) (args : list PyValue)
    (kwargs : list (string * PyValue)) (func : M A) (s : State) :
  let fc := func_call (env s) name args kwargs in
  let s1 := snd (report (calling_message fc) None s) in
  report_status name args kwargs func s
  = match func s1 with
    | (Ok result, s2) => (Ok result, snd (report (called_message fc) None s2))
    | (Raise e, s2) =>
        (Raise e, snd (report (failed_message fc e) (Some FAILED) s2))
    end.
Proof.
  cbv zeta. unfold report_status, bind. cbn [report log emit fst snd].
  destruct (func _) as [[v|e] s2]; reflexivity.
Qed.

Lemma report_status_events {A} (name : string) (args : list PyValue)
    (kwargs : list (string * PyValue)) (func : M A) (s : State)
    (evs : list Event) :
  let fc := func_call (env s) name args kwargs in
  let s1 := snd (report (calling_message fc) None s) in
  trace (snd (func s1)) = trace s1 ++ evs ->
  exists last,
    new_events s (snd (report_status name args kwargs func s))
    = EvLog EngineLogger INFO false (calling_message fc) :: evs ++ [last]
    /\ is_attempting last = false /\ is_terminal last = true.
Proof.
  cbv zeta. intros Htr. rewrite report_status_run.
  destruct (func _) as [[v|e] s2]; cbn [snd] in *.
  - eexists. split.
    + apply new_events_app. cbn [report log emit snd trace].
      rewrite Htr. cbn [report log emit snd trace].
      rewrite <- !app_assoc. reflexivity.
    + apply called_is_terminal.
  - eexists. split.
    + apply new_events_app. cbn [report log_exception emit snd trace].
      rewrite Htr. cbn [report log emit snd trace].
      rewrite <- !app_assoc. reflexivity.
    + apply failed_is_terminal.
Qed.

(** When the decorated function leaves no report of its own, the call leaves
    exactly one "Calling" report and exactly one report of how it ended. *)
Lemma report_status_once {A} (name : string) (args : list PyValue)
    (kwargs : list (string * PyValue)) (func : M A) (s : State) :
  emits (fun ev => is_report ev = false) func ->
  reported_once (report_status name args kwargs func) s.
Proof.
  intros Hquiet. unfold reported_once. cbv zeta.
  destruct (Hquiet (snd (report
              (calling_message (func_call (env s) name args kwargs)) None s)))
    as (evs & Htr & Hevs).
  destruct (report_status_events name args kwargs func s evs Htr)
    as (last & -> & Hatt & Hterm).
  assert (Ha : count is_attempting evs = 0%nat).
  { apply count_none. eapply Forall_impl; [|exact Hevs].
    intros ev Hev. now apply is_report_parts. }
  assert (Ht : count is_terminal evs = 0%nat).
  { apply count_none. eapply Forall_impl; [|exact Hevs].
    intros ev Hev. now apply is_report_parts. }
  change (?x :: evs ++ [last]) with ([x] ++ evs ++ [last]).
  rewrite !count_app, Ha, Ht. unfold count. cbn [filter].
  rewrite Hatt, Hterm.
  destruct (calling_is_attempting (func_call (env s) name args kwargs))
    as [-> ->].
  split; reflexivity.
Qed.

Lemma retried_body_quiet {A} (body : M A) :
  emits interaction body ->
  emits (fun ev => is_report ev = false) (retry_with_backoff body).
Proof.
  intros H. eapply emits_weaken; [exact interaction_not_report|].
  now apply emits_retry_with_backoff.
Qed.

(** C7, as stated, fails: one call of [click_in_iframe] through one iframe,
    on a page where the element is missing, leaves six "Calling" reports and
    six reports of an outcome, one pair from each of its five attempts. *)
Lemma click_in_iframe_reports_per_attempt :
  ~ reported_once (click_in_iframe ["#f"] (Raw "#x") CSS) Fixture.sample.
Proof.
  unfold reported_once. cbv zeta.
  intros [H _]. vm_compute in H. discriminate H.
Qed.

(** ** The retry wrapper *)

Lemma backoff_wait_formula (k : nat) :
  backoff_wait k = Z.max 1 (Z.min (2 ^ (Z.of_nat k - 1)) 30).
Proof.
  unfold backoff_wait, wait_exponential. cbv zeta.
  rewrite Z.mul_1_l. reflexivity.
Qed.

Lemma backoff_wait_bounds (k : nat) : (1 <= backoff_wait k <= 30)%Z.
Proof. rewrite backoff_wait_formula. lia. Qed.

Lemma backoff_wait_monotone (k : nat) :
  (1 <= k)%nat -> (backoff_wait k <= backoff_wait (S k))%Z.
Proof.
  intros Hk. rewrite !backoff_wait_formula.
  assert (2 ^ (Z.of_nat k - 1) <= 2 ^ (Z.of_nat (S k) - 1))%Z
    by (apply Z.pow_le_mono_r; lia).
  lia.
Qed.

Example backoff_schedule :
  map backoff_wait (seq 1 4) = [1; 2; 4; 8]%Z
  /\ map backoff_wait (seq 5 3) = [16; 30; 30]%Z.
Proof. split; reflexivity. Qed.

(** The fuel of [retry_loop] does not matter once it covers the attempts
    that are left: [retry_with_backoff] never runs out of it. *)
Lemma retry_loop_fuel {A} (fn : M A) (fuel : nat) :
  forall fuel' n s,
    (max_attempts <= fuel + n)%nat -> (max_attempts <= fuel' + n)%nat ->
    retry_loop fuel n fn s = retry_loop fuel' n fn s.
Proof.
  induction fuel as [|fuel IH]; intros fuel' n s H H';
    rewrite (retry_loop_unfold _ n), (retry_loop_unfold fuel' n);
    destruct (fn s) as [[v|e] s1]; try reflexivity;
    unfold stop_after_attempt;
    destruct (Nat.leb_spec max_attempts n) as [Hstop|Hgo]; try reflexivity;
    cbv zeta.
  - simpl in H. lia.
  - destruct fuel' as [|fuel']; [simpl in H'; lia|].
    apply IH; lia.
Qed.

Lemma backoffs_app (a b : list Event) :
  backoffs (a ++ b) = backoffs a ++ backoffs b.
Proof.
  unfold backoffs. induction a as [|ev a IH]; simpl; [reflexivity|].
  destruct ev; simpl; now rewrite IH.
Qed.

Lemma between_attempts_state (k : nat) (s : State) :
  snd (between_attempts k s)
  = snd (nap (backoff_wait k) (snd (emit (EvAfterLog k) s))).
Proof. reflexivity. Qed.

Lemma between_attempts_backoffs (k : nat) (s : State) :
  backoffs (trace (snd (between_attempts k s)))
  = backoffs (trace s) ++ [backoff_wait k].
Proof.
  rewrite between_attempts_state, nap_trace, after_log_trace.
  rewrite !backoffs_app.
  change (backoffs [EvAfterLog k]) with (@nil Z).
  now rewrite app_nil_r.
Qed.

(** While the attempts fail, the loop is at the next attempt of the chain. *)
Lemma retry_loop_advance {A} (fn : M A) (s : State) (j : nat) :
  (j < max_attempts)%nat ->
  (forall k, (k < j)%nat -> failed (attempt_result fn s k)) ->
  retry_with_backoff fn s
  = retry_loop (max_attempts - j) (S j) fn (attempt_state fn s j).
Proof.
  unfold retry_with_backoff. induction j as [|j IH]; intros Hj Hfail.
  - reflexivity.
  - rewrite IH by (try lia; intros k Hk; apply Hfail; lia).
    rewrite retry_loop_unfold.
    specialize (Hfail j (Nat.lt_succ_diag_r j)).
    unfold attempt_result in Hfail.
    cbn [attempt_state]. rewrite between_attempts_state.
    destruct (fn (attempt_state fn s j)) as [[v|e] s1]; [contradiction|].
    unfold stop_after_attempt.
    destruct (Nat.leb_spec max_attempts (S j)) as [Hstop|_]; [lia|].
    cbv zeta.
    destruct (max_attempts - j)%nat as [|fuel] eqn:Hfuel; [lia|].
    cbn [snd]. apply retry_loop_fuel; lia.
Qed.

Section Waits.

Context {A : Type} (fn : M A).

Hypothesis fn_takes_no_backoff :
  forall s, backoffs (trace (snd (fn s))) = backoffs (trace s).

Lemma attempt_state_backoffs (s : State) (j : nat) :
  backoffs (trace (attempt_state fn s j))
  = backoffs (trace s) ++ map backoff_wait (seq 1 j).
Proof.
  induction j as [|j IH].
  - simpl. now rewrite app_nil_r.
  - cbn [attempt_state]. rewrite between_attempts_backoffs.
    rewrite fn_takes_no_backoff, IH.
    rewrite seq_S, map_app, <- app_assoc. reflexivity.
Qed.

Lemma retry_loop_backoffs (fuel : nat) :
  forall n s,
    exists j, (j <= max_attempts - n)%nat
      /\ backoffs (trace (snd (retry_loop fuel n fn s)))
         = backoffs (trace s) ++ map backoff_wait (seq n j).
Proof.
  induction fuel as [|fuel IH]; intros n s; rewrite retry_loop_unfold;
    pose proof (fn_takes_no_backoff s) as Hq;
    destruct (fn s) as [[v|e] s1]; cbn [snd] in *;
    try (exists 0%nat; split; [lia|]; simpl; now rewrite app_nil_r, Hq);
    unfold stop_after_attempt;
    destruct (Nat.leb_spec max_attempts n) as [Hstop|Hgo]; cbv zeta;
    try (exists 0%nat; split; [lia|]; cbn [snd];
         rewrite after_log_trace, backoffs_app, Hq; simpl;
         now rewrite !app_nil_r).
  destruct (IH (S n) (snd (nap (backoff_wait n)
                             (snd (emit (EvAfterLog n) s1)))))
    as (j & Hj & Hb).
  exists (S j). split; [lia|].
  rewrite Hb, nap_trace, after_log_trace, !backoffs_app, Hq.
  simpl. now rewrite app_nil_r, <- app_assoc.
Qed.

End Waits.

(** C6, as stated, fails: the waits of a call that fails five times are 1, 2,
    4 and 8 seconds, not [min(2^k, 30)] for k = 1..4. *)
Lemma waits_are_not_two_to_the_k :
  backoffs (new_events Fixture.sample
              (snd (retry_with_backoff (Fixture.flaky 5 0) Fixture.sample)))
  <> map stated_wait (seq 1 4).
Proof. vm_compute. discriminate. Qed.

(** C6, amended. For an operation that takes no backoff sleep of its own:
    the wait after failed attempt [k] is [min(2^(k-1), 30)] seconds, at least
    1, at most 30 and never shorter than the one before; a call takes at most
    four waits, so makes at most five attempts; four failures and a success
    give the success value after the four waits 1, 2, 4, 8; five failures
    give back the error of the fifth attempt after the same four waits. *)
Theorem retry_with_backoff_contract {A} (fn : M A) (s : State) :
  (forall s', backoffs (trace (snd (fn s'))) = backoffs (trace s')) ->
  let final := retry_with_backoff fn s in
  (forall k, (1 <= k)%nat ->
     backoff_wait k = Z.max 1 (Z.min (2 ^ (Z.of_nat k - 1)) 30)
     /\ (1 <= backoff_wait k <= 30)%Z
     /\ (backoff_wait k <= backoff_wait (S k))%Z)
  /\ (exists j, (j <= 4)%nat
        /\ backoffs (trace (snd final))
           = backoffs (trace s) ++ map backoff_wait (seq 1 j))
  /\ (forall v,
        (forall k, (k < 4)%nat -> failed (attempt_result fn s k)) ->
        attempt_result fn s 4 = Ok v ->
        fst final = Ok v
        /\ backoffs (trace (snd final)) = backoffs (trace s) ++ [1; 2; 4; 8]%Z)
  /\ (forall e,
        (forall k, (k < 4)%nat -> failed (attempt_result fn s k)) ->
        attempt_result fn s 4 = Raise e ->
        fst final = Raise e
        /\ backoffs (trace (snd final)) = backoffs (trace s) ++ [1; 2; 4; 8]%Z).
Proof.
  intros Hquiet final. split; [|split; [|split]].
  - intros k Hk. split; [apply backoff_wait_formula|].
    split; [apply backoff_wait_bounds|now apply backoff_wait_monotone].
  - destruct (retry_loop_backoffs fn Hquiet max_attempts 1 s) as (j & Hj & Hb).
    exists j. split; [simpl in Hj; lia|exact Hb].
  - intros v Hfail Hok. subst final.
    rewrite (retry_loop_advance fn s 4) by (simpl; auto; lia).
    rewrite retry_loop_unfold. unfold attempt_result in Hok.
    pose proof (Hquiet (attempt_state fn s 4)) as Hq.
    destruct (fn (attempt_state fn s 4)) as [[v'|e] s1]; cbn [fst snd] in *;
      [|discriminate].
    split; [exact Hok|].
    rewrite Hq. apply (attempt_state_backoffs fn Hquiet s 4).
  - intros e Hfail Herr. subst final.
    rewrite (retry_loop_advance fn s 4) by (simpl; auto; lia).
    rewrite retry_loop_unfold. unfold attempt_result in Herr.
    pose proof (Hquiet (attempt_state fn s 4)) as Hq.
    destruct (fn (attempt_state fn s 4)) as [[v|e'] s1]; cbn [fst snd] in *;
      [discriminate|].
    change (stop_after_attempt max_attempts 5) with true. cbv zeta iota.
    cbn [fst snd]. split; [exact Herr|].
    rewrite after_log_trace, backoffs_app, Hq. simpl. rewrite app_nil_r.
    apply (attempt_state_backoffs fn Hquiet s 4).
Qed.

Lemma flaky_takes_no_backoff (failures value : nat) (s : State) :
  backoffs (trace (snd (Fixture.flaky failures value s))) = backoffs (trace s).
Proof. unfold Fixture.flaky. cbv zeta. now destruct (_ <? _)%nat. Qed.

Lemma retry_with_backoff_contract_witness :
  (fst (retry_with_backoff (Fixture.flaky 4 42) Fixture.sample) = Ok 42%nat
   /\ backoffs (trace (snd (retry_with_backoff (Fixture.flaky 4 42)
                              Fixture.sample)))
      = [1; 2; 4; 8]%Z)
  /\ (fst (retry_with_backoff (Fixture.flaky 5 0) Fixture.sample)
      = Raise (DriverError "fifth")
      /\ backoffs (trace (snd (retry_with_backoff (Fixture.flaky 5 0)
                                 Fixture.sample)))
         = [1; 2; 4; 8]%Z).
Proof.
  split.
  - pose proof (retry_with_backoff_contract (Fixture.flaky 4 42) Fixture.sample
                  (flaky_takes_no_backoff 4 42)) as (_ & _ & H & _).
    apply (H 42%nat).
    + intros k Hk. do 4 (destruct k as [|k]; [exact I|]). lia.
    + reflexivity.
  - pose proof (retry_with_backoff_contract (Fixture.flaky 5 0) Fixture.sample
                  (flaky_takes_no_backoff 5 0)) as (_ & _ & _ & H).
    apply (H (DriverError "fifth")).
    + intros k Hk. do 4 (destruct k as [|k]; [exact I|]). lia.
    + reflexivity.
Defined.

(** ** The main flow *)


Lemma emits_update_engine (P : Event -> Prop)
    (f : PlaywrightEngine -> PlaywrightEngine) :
  emits P (update_engine f).
Proof. unfold update_engine. emits_auto. Qed.

Lemma emits_start_driver (P : Event -> Prop) :
  P (EvAction StartDriver) -> emits P start_driver.
Proof.
  intros HP s. unfold start_driver. destruct (driver_running s).
  - exists []. cbn [snd]. now rewrite app_nil_r.
  - now apply emits_driver_call.
Qed.

Lemma emits_browser_instance (P : Event -> Prop) (name : string) :
  emits P (browser_instance name).
Proof. unfold browser_instance. emits_auto. Qed.

Lemma emits_setup (P : Event -> Prop) :
  (forall a, is_release (EvAction a) = false -> goto_of (EvAction a) = None ->
             P (EvAction a)) ->
  emits P setup.
Proof.
  intros HP. unfold setup.
  repeat first
    [ apply emits_update_engine | apply emits_ret | apply emits_get_engine
    | apply emits_browser_instance
    | apply emits_start_driver; apply HP; reflexivity
    | apply emits_bind; [|intros ?]
    | apply emits_driver_call; apply HP; reflexivity
    | match goal with
      | |- emits _ (let _ := _ in _) => cbv zeta
      | |- emits _ (if ?b then _ else _) => destruct b
      end ].
Qed.

Lemma emits_teardown (P : Event -> Prop) :
  (forall a, P (EvAction a)) -> emits P teardown.
Proof.
  intros HP. unfold teardown, release.
  apply emits_bind; [apply emits_get_engine|intros self].
  repeat (apply emits_bind; [|intros ?]);
    match goal with
    | |- emits _ (match ?h with _ => _ end) =>
        destruct h;
        [apply emits_bind; [now apply emits_driver_call|intros; apply emits_ret]
        |apply emits_ret]
    end.
Qed.

Lemma emits_sentry_init (P : Event -> Prop) (settings : TidalauthSettings) :
  P (EvAction SentryInit) -> emits P (sentry_init settings).
Proof.
  intros HP. unfold sentry_init.
  apply emits_bind; [now apply emits_emit|intros _].
  apply emits_bind; [apply emits_get_env|intros W].
  destruct (bad_dsn W (sentry_dsn settings)); [apply emits_raise|apply emits_ret].
Qed.

Lemma emits_auth_check (P : Event -> Prop) (settings : TidalauthSettings) :
  (forall a, is_release (EvAction a) = false -> goto_of (EvAction a) = None ->
             P (EvAction a)) ->
  emits P (auth_check settings).
Proof.
  intros HP. unfold auth_check.
  apply emits_bind; [apply emits_sentry_init; now apply HP|intros _].
  apply emits_bind; [apply emits_set_engine|intros _].
  apply emits_bind; [now apply emits_setup|intros _]. cbv zeta.
  apply emits_bind; [apply emits_requests_get; now apply HP|intros response].
  apply emits_bind; [|intros; apply emits_ret].
  unfold raise_for_status. destruct (http_error response);
    [apply emits_raise|apply emits_ret].
Qed.

Lemma emits_navigate (P : Event -> Prop) (url : string) :
  (forall ev, interaction ev -> P ev) ->
  (forall msg, P (EvLog EngineLogger INFO false msg)) ->
  (forall msg, P (EvLog EngineLogger ERROR true msg)) ->
  emits P (navigate url).
Proof.
  intros Hwork Hinfo Herr. unfold navigate.
  apply emits_report_status; [assumption|assumption|].
  eapply emits_weaken; [exact Hwork|].
  apply emits_retry_with_backoff, emits_navigate_body.
Qed.

Lemma emits_main (P : Event -> Prop) (settings : TidalauthSettings) :
  (forall a, is_release (EvAction a) = false -> goto_of (EvAction a) = None ->
             P (EvAction a)) ->
  (forall ev, interaction ev -> P ev) ->
  (forall lg msg, P (EvLog lg INFO false msg)) ->
  (forall msg, P (EvLog EngineLogger ERROR true msg)) ->
  emits P (main settings).
Proof.
  intros Hact Hwork Hinfo Herr. unfold main.
  apply emits_bind; [now apply emits_auth_check|intros content].
  destruct (negb (Py.contains link_marker content)).
  - unfold log. now apply emits_emit.
  - cbv zeta. apply emits_bind; [unfold log; now apply emits_emit|intros _].
    now apply emits_navigate.
Qed.

(** C8, as stated, fails: in the run where no authorization is needed, [main]
    returns with the page it opened still open. *)
Lemma main_leaves_session_open :
  ~ session_released
      (snd (main Fixture.settings (Fixture.fresh Fixture.sample_world))).
Proof.
  unfold session_released. vm_compute. discriminate.
Qed.

(** C8, amended. No run of [main] releases anything: whatever the world does
    and however the run ends, it closes no page, context or browser and does
    not stop the driver; [teardown] is never part of it. *)
Theorem main_never_tears_down (settings : TidalauthSettings) (s : State) :
  Forall (fun ev => is_release ev = false)
    (new_events s (snd (main settings s))).
Proof.
  destruct (emits_main (fun ev => is_release ev = false) settings) with (s := s)
    as (evs & Htr & Hevs).
  - intros a Ha _. exact Ha.
  - exact interaction_not_release.
  - reflexivity.
  - reflexivity.
  - now rewrite (new_events_app _ _ _ Htr).
Qed.

Example teardown_releases_in_order :
  new_events Fixture.sample (snd (teardown Fixture.sample))
  = [EvAction (ClosePage 4); EvAction (CloseContext 2);
     EvAction (CloseBrowser 1); EvAction (StopDriver 0)]
  /\ session_released (snd (teardown Fixture.sample)).
Proof. split; reflexivity. Qed.

Lemma collect_app {A B} (f : A -> option B) (a b : list A) :
  collect f (a ++ b) = collect f a ++ collect f b.
Proof.
  induction a as [|x a IH]; simpl; [reflexivity|].
  destruct (f x); simpl; now rewrite IH.
Qed.

Lemma collect_none {A B} (f : A -> option B) (l : list A) :
  Forall (fun x => f x = None) l -> collect f l = [].
Proof.
  induction 1 as [|x l Hx _ IH]; simpl; [reflexivity|].
  now rewrite Hx.
Qed.









Lemma no_navigation_lists (evs : list Event) :
  Forall no_navigation evs -> navigate_calls evs = [] /\ gotos evs = [].
Proof.
  intros H. split; apply collect_none;
    (eapply Forall_impl; [|exact H]); now intros ev [? ?].
Qed.


(** ** The logic of invariants and raised errors *)

Section Safe.

Variable I : State -> Prop.
Variable E : exn -> Prop.

Hypothesis I_engine : forall s s', engine s' = engine s -> I s -> I s'.
Hypothesis E_driver : forall msg, E (DriverError msg).

Lemma safe_ret {A} (a : A) : safe I E (ret a).
Proof. intros s Hs. split; [exact Hs|]. intros e He. discriminate He. Qed.

Lemma safe_raise {A} (e : exn) : E e -> safe I E (@raise A e).
Proof.
  intros He s Hs. split; [exact Hs|]. intros e' H. now inversion H; subst.
Qed.

Lemma safe_bind {A B} (m : M A) (k : A -> M B) :
  safe I E m -> (forall a, safe I E (k a)) -> safe I E (bind m k).
Proof.
  intros Hm Hk s Hs. unfold bind.
  destruct (Hm s Hs) as [Hs1 He1].
  destruct (m s) as [[a|e] s1]; cbn [fst snd] in *.
  - exact (Hk a s1 Hs1).
  - split; [exact Hs1|]. intros e' H. apply He1. now inversion H.
Qed.

Lemma safe_same_engine {A} (m : M A) :
  (forall s, engine (snd (m s)) = engine s) ->
  (forall s e, fst (m s) = Raise e -> E e) ->
  safe I E m.
Proof.
  intros Heng Herr s Hs. split.
  - now apply (I_engine s).
  - intros e. apply Herr.
Qed.

Lemma safe_emit (ev : Event) : safe I E (emit ev).
Proof. apply safe_same_engine; [reflexivity|discriminate]. Qed.

Lemma safe_tick : safe I E tick.
Proof. apply safe_same_engine; [reflexivity|discriminate]. Qed.

Lemma safe_get_engine : safe I E get_engine.
Proof. apply safe_same_engine; [reflexivity|discriminate]. Qed.

Lemma safe_get_env : safe I E get_env.
Proof. apply safe_same_engine; [reflexivity|discriminate]. Qed.

Lemma safe_driver_call (a : Action) : safe I E (driver_call a).
Proof.
  apply safe_same_engine; intros s; unfold driver_call;
    destruct (fault_at (env s) (clock s)); try reflexivity;
    cbn [fst]; intros e H; inversion H; subst; apply E_driver.
Qed.

Lemma safe_start_driver : safe I E start_driver.
Proof.
  intros s Hs. unfold start_driver. destruct (driver_running s).
  - split; [exact Hs|]. intros e H. inversion H; subst. apply E_driver.
  - now apply safe_driver_call.
Qed.

Lemma safe_browser_instance (name : string) :
  (forall msg, E (AttributeError msg)) -> safe I E (browser_instance name).
Proof.
  intros HE. unfold browser_instance.
  apply safe_bind; [apply safe_get_env|intros W].
  destruct (no_browser W name); [now apply safe_raise|apply safe_ret].
Qed.

Lemma safe_page_call (p : Handle) (a : Action) : safe I E (page_call p a).
Proof.
  intros s Hs. unfold page_call. destruct (page_closed p s).
  - split; [exact Hs|]. intros e H. inversion H; subst. apply E_driver.
  - revert s Hs. apply safe_bind; [apply safe_driver_call|intros; apply safe_ret].
Qed.

Lemma safe_query {A} (l : Locator) (f : list Element -> Result A) :
  (forall found e, f found = Raise e -> E e) -> safe I E (query l f).
Proof.
  intros Hf. apply safe_same_engine; intros s; unfold query;
    destruct (page_closed (loc_page l) s); try reflexivity; cbn [fst].
  - intros e H. inversion H; subst. apply E_driver.
  - intros e H. eapply Hf; eassumption.
Qed.

Lemma safe_retry_loop {A} (fn : M A) :
  safe I E fn -> forall fuel n, safe I E (retry_loop fuel n fn).
Proof.
  intros Hfn fuel. induction fuel as [|fuel IH]; intros n s Hs;
    rewrite retry_loop_unfold;
    destruct (Hfn s Hs) as [Hs1 He1];
    destruct (fn s) as [[v|e] s1]; cbn [fst snd] in *;
    try (split; [exact Hs1|discriminate]); cbv zeta;
    assert (Hs2 : I (snd (emit (EvAfterLog n) s1)))
      by (now apply (I_engine s1));
    destruct (stop_after_attempt max_attempts n);
    try (split; [exact Hs2|]; intros e' H; inversion H; subst; now apply He1).
  apply IH. now apply (I_engine (snd (emit (EvAfterLog n) s1))).
Qed.

Lemma safe_report_status {A} (name : string) (args : list PyValue)
    (kwargs : list (string * PyValue)) (func : M A) :
  safe I E func -> safe I E (report_status name args kwargs func).
Proof.
  intros Hfunc s Hs. rewrite report_status_run. cbv zeta.
  match goal with
  | |- context [func ?st] =>
      assert (Hs1 : I st) by (now apply (I_engine s));
      destruct (Hfunc st Hs1) as [Hs2 He2];
      destruct (func st) as [[v|e] s2]
  end; cbn [fst snd] in *.
  - split; [now apply (I_engine s2)|discriminate].
  - split; [now apply (I_engine s2)|].
    intros e' H. inversion H; subst. now apply He2.
Qed.

End Safe.

(** ** The session's lifecycle and the [page] property *)

Lemma initialized_engine (s s' : State) :
  engine s' = engine s -> initialized s -> initialized s'.
Proof. unfold initialized. now intros ->. Qed.

Lemma other_error_driver (msg : string) : other_error (DriverError msg).
Proof. discriminate. Qed.

Lemma page_result (s : State) :
  page s = (match _page (engine s) with
            | Some p => Ok p
            | None => Raise not_initialized
            end, s).
Proof. unfold page, bind, get_engine. now destruct (_page (engine s)). Qed.

Lemma safe_page : safe initialized other_error page.
Proof.
  intros s Hs. rewrite page_result. split; [exact Hs|].
  unfold initialized in Hs. destruct (_page (engine s)); [discriminate|].
  now elim Hs.
Qed.

(** Decomposes a goal [safe initialized other_error m] along [m]. *)
Ltac safe_auto :=
  repeat first
    [ apply safe_page
    | apply safe_ret
    | apply safe_raise; unfold other_error; cbn; discriminate
    | apply safe_bind; [|intros ?]
    | apply safe_emit; exact initialized_engine
    | apply safe_tick; exact initialized_engine
    | apply safe_get_engine; exact initialized_engine
    | apply safe_get_env; exact initialized_engine
    | apply safe_driver_call;
        [exact initialized_engine|exact other_error_driver]
    | apply safe_page_call;
        [exact initialized_engine|exact other_error_driver]
    | apply safe_query;
        [ exact initialized_engine | exact other_error_driver
        | let found := fresh "found" in
          let e := fresh "e" in
          let H := fresh "H" in
          intros found e H; try discriminate H;
          destruct found as [|? [|? ?]]; inversion H; subst;
          apply other_error_driver ]
    | match goal with
      | |- safe _ _ (let _ := _ in _) => cbv zeta
      | |- safe _ _ (if ?b then _ else _) => destruct b
      | |- safe _ _ (match ?x with _ => _ end) => destruct x
      end ].

Lemma safe_first_visible (l : Locator) (indices : list nat) (selector : string) :
  safe initialized other_error (first_visible l indices selector).
Proof.
  induction indices as [|i rest IH]; cbn [first_visible].
  - safe_auto.
  - cbv zeta. apply safe_bind; [unfold locator_is_visible; safe_auto|].
    intros [|]; [apply safe_ret|exact IH].
Qed.

Lemma safe_any_visible (locators : list Locator) :
  safe initialized other_error (any_visible locators).
Proof.
  induction locators as [|l rest IH]; cbn [any_visible].
  - safe_auto.
  - apply safe_bind; [unfold locator_is_visible; safe_auto|].
    intros [|]; [apply safe_ret|exact IH].
Qed.

Lemma safe_get_locator (selector : SelectorInput) (selector_type : SelectorType)
    (iframe : option FrameLocator) :
  safe initialized other_error (_get_locator selector selector_type iframe).
Proof.
  unfold _get_locator. destruct selector as [raw|l]; [|apply safe_ret].
  cbv zeta. apply safe_bind; [safe_auto|intros locator].
  apply safe_bind; [unfold locator_count; safe_auto|intros n].
  destruct (n =? 0)%nat; [safe_auto|].
  destruct (1 <? n)%nat; [|apply safe_ret].
  apply safe_bind; [unfold log; safe_auto|intros _].
  apply safe_first_visible.
Qed.

Lemma safe_locator_action (l : Locator) (a : Action) :
  safe initialized other_error (locator_action l a).
Proof. unfold locator_action. safe_auto. Qed.

Lemma safe_sleep (ms : Z) : safe initialized other_error (sleep ms).
Proof. unfold sleep. safe_auto. Qed.

Lemma safe_after_click : safe initialized other_error after_click.
Proof. unfold after_click. safe_auto. apply safe_sleep. Qed.

Lemma safe_navigate_body (url : string) :
  safe initialized other_error (navigate_body url).
Proof. unfold navigate_body. safe_auto. apply safe_sleep. Qed.

Lemma safe_click_body (selector : SelectorInput) (selector_type : SelectorType)
    (with_alert : bool) :
  safe initialized other_error (click_body selector selector_type with_alert).
Proof.
  unfold click_body.
  apply safe_bind; [safe_auto|intros _].
  apply safe_bind; [apply safe_get_locator|intros target].
  apply safe_bind; [apply safe_locator_action|intros _].
  apply safe_after_click.
Qed.

Lemma safe_get_iframe (selector : string) (context : option FrameLocator) :
  safe initialized other_error (_get_iframe selector context).
Proof.
  unfold _get_iframe.
  apply safe_report_status; [exact initialized_engine|].
  unfold _get_iframe_body. safe_auto.
Qed.

Lemma safe_enter_iframes (iframe_selectors : list string) :
  forall iframe,
    safe initialized other_error (enter_iframes iframe_selectors iframe).
Proof.
  induction iframe_selectors as [|sel rest IH]; intros iframe;
    cbn [enter_iframes].
  - apply safe_ret.
  - apply safe_bind; [apply safe_get_iframe|intros inner]. apply IH.
Qed.

Lemma safe_click_in_iframe_body (iframe_selectors : list string)
    (selector : SelectorInput) (selector_type : SelectorType) :
  safe initialized other_error
    (click_in_iframe_body iframe_selectors selector selector_type).
Proof.
  unfold click_in_iframe_body.
  apply safe_bind; [apply safe_enter_iframes|intros iframe].
  apply safe_bind; [apply safe_get_locator|intros target].
  apply safe_bind; [apply safe_locator_action|intros _].
  apply safe_after_click.
Qed.

Lemma safe_fill_body (value : FillValue) (selector : SelectorInput)
    (selector_type : SelectorType) :
  safe initialized other_error (fill_body value selector selector_type).
Proof.
  unfold fill_body. cbv zeta.
  apply safe_bind; [apply safe_get_locator|intros target].
  apply safe_locator_action.
Qed.

Lemma safe_exists_expression (l : Locator) (check_visible : bool) :
  safe initialized other_error (exists_expression l check_visible).
Proof.
  unfold exists_expression. destruct check_visible; [|apply safe_ret].
  apply safe_bind; [unfold locator_count; safe_auto|intros n].
  destruct (0 <? n)%nat; [|apply safe_ret].
  apply safe_bind; [unfold locator_all, locator_count; safe_auto|intros every].
  apply safe_any_visible.
Qed.

Lemma safe_element_exists_body (selector : SelectorInput)
    (selector_type : SelectorType) (check_visible : bool) :
  safe initialized other_error
    (element_exists_body selector selector_type check_visible).
Proof.
  unfold element_exists_body.
  destruct selector as [raw|l]; [|apply safe_exists_expression].
  cbv zeta. apply safe_bind; [apply safe_page|intros p].
  apply safe_exists_expression.
Qed.

Lemma safe_assert_element_not_visible_body (selector : SelectorInput)
    (selector_type : SelectorType) :
  safe initialized other_error
    (assert_element_not_visible_body selector selector_type).
Proof.
  unfold assert_element_not_visible_body, locator_is_visible, locator_count.
  safe_auto.
Qed.

(** A decorated, retried operation keeps the two properties of its body. *)
Lemma safe_operation {A} (name : string) (args : list PyValue)
    (kwargs : list (string * PyValue)) (body : M A) :
  safe initialized other_error body ->
  safe initialized other_error
    (report_status name args kwargs (retry_with_backoff body)).
Proof.
  intros H. apply safe_report_status; [exact initialized_engine|].
  now apply safe_retry_loop; [exact initialized_engine|].
Qed.

Lemma safe_never_not_initialized {A} (m : M A) (s : State) :
  safe initialized other_error m -> initialized s ->
  fst (m s) <> Raise not_initialized.
Proof.
  intros Hm Hs H. destruct (Hm s Hs) as [_ He]. now apply (He _ H).
Qed.

Lemma teardown_keeps_engine (s : State) : engine (snd (teardown s)) = engine s.
Proof.
  assert (H : safe (fun s' => engine s' = engine s) (fun _ => True) teardown).
  { unfold teardown, release.
    assert (HI : forall a b : State,
               engine b = engine a -> engine a = engine s -> engine b = engine s)
      by (intros a b -> Hs; exact Hs).
    repeat first
      [ apply safe_ret
      | apply safe_bind; [|intros ?]
      | apply safe_get_engine; exact HI
      | apply safe_driver_call; [exact HI|exact (fun _ => I)]
      | match goal with
        | |- safe _ _ (match ?x with _ => _ end) => destruct x
        end ]. }
  exact (proj1 (H s eq_refl)).
Qed.

(** One more statement of [setup] before its last: the statement keeps the
    page field whether it returns or raises, and the rest is as wanted. *)
Lemma setup_step {A} (p0 : option Handle) (m : M A) (k : A -> M unit) :
  safe (fun s => _page (engine s) = p0) (fun _ => True) m ->
  (forall a s, _page (engine s) = p0 ->
     match fst (k a s) with
     | Ok _ => _page (engine (snd (k a s))) <> None
     | Raise _ => _page (engine (snd (k a s))) = p0
     end) ->
  forall s, _page (engine s) = p0 ->
    match fst (bind m k s) with
    | Ok _ => _page (engine (snd (bind m k s))) <> None
    | Raise _ => _page (engine (snd (bind m k s))) = p0
    end.
Proof.
  intros Hm Hk s Hs. unfold bind.
  destruct (Hm s Hs) as [Hs1 _].
  destruct (m s) as [[a|e] s1]; cbn [fst snd] in *.
  - now apply Hk.
  - exact Hs1.
Qed.

Lemma page_kept_engine (p0 : option Handle) (s s' : State) :
  engine s' = engine s -> _page (engine s) = p0 -> _page (engine s') = p0.
Proof. now intros ->. Qed.

Lemma safe_update_engine_page_kept (p0 : option Handle)
    (f : PlaywrightEngine -> PlaywrightEngine) :
  (forall e, _page (f e) = _page e) ->
  safe (fun s => _page (engine s) = p0) (fun _ => True) (update_engine f).
Proof.
  intros Hf s Hs. unfold update_engine, bind, get_engine, set_engine.
  cbn [fst snd engine]. split; [now rewrite Hf|trivial].
Qed.

(** [setup] either completes and leaves a page in the session, or raises
    and leaves the page field as it was. *)
Lemma setup_page (s : State) :
  match fst (setup s) with
  | Ok _ => _page (engine (snd (setup s))) <> None
  | Raise _ => _page (engine (snd (setup s))) = _page (engine s)
  end.
Proof.
  unfold setup.
  apply (setup_step (_page (engine s))); [|intros playwright s1 Hs1|reflexivity].
  { apply safe_start_driver; [apply page_kept_engine|trivial]. }
  revert s1 Hs1.
  apply setup_step; [now apply safe_update_engine_page_kept|intros _].
  apply setup_step;
    [apply safe_get_engine; apply page_kept_engine|intros self]. cbv zeta.
  apply setup_step;
    [apply safe_browser_instance; [apply page_kept_engine|trivial]|intros _].
  apply setup_step;
    [apply safe_driver_call; [apply page_kept_engine|trivial]|intros browser].
  apply setup_step; [now apply safe_update_engine_page_kept|intros _].
  apply setup_step.
  { destruct (take_video (_settings self)); [|apply safe_ret].
    apply safe_bind; [|intros; apply safe_ret].
    apply safe_driver_call; [apply page_kept_engine|trivial]. }
  intros _.
  apply setup_step;
    [apply safe_driver_call; [apply page_kept_engine|trivial]|intros context].
  apply setup_step;
    [apply safe_driver_call; [apply page_kept_engine|trivial]|intros _].
  apply setup_step; [now apply safe_update_engine_page_kept|intros _].
  apply setup_step;
    [apply safe_driver_call; [apply page_kept_engine|trivial]|intros page].
  intros s1 _. unfold update_engine, bind, get_engine, set_engine.
  cbn [fst snd engine set_page _page]. discriminate.
Qed.

Lemma run_lifecycle_page (calls : list Lifecycle) :
  forall s,
    _page (engine (snd (run_lifecycle calls s))) = None
    <-> _page (engine s) = None
        /\ ~ setup_completed (fst (run_lifecycle calls s)).
Proof.
  unfold setup_completed.
  induction calls as [|c rest IH]; intros s; cbn [run_lifecycle fst snd].
  - split; [intros H; split; [exact H|intros []]|now intros [H _]].
  - rewrite IH. cbn [In]. destruct c; cbn [lifecycle_call].
    + pose proof (setup_page s) as Hsetup.
      destruct (fst (setup s)) as [[]|e].
      * split; [intros [H _]; contradiction|intros [_ H]; elim H; now left].
      * rewrite Hsetup. split; intros [H1 H2]; (split; [exact H1|]).
        -- intros [Habs|Hin]; [discriminate Habs|now apply H2].
        -- intros Hin. apply H2. now right.
    + rewrite teardown_keeps_engine.
      split; intros [H1 H2]; (split; [exact H1|]).
      * intros [Habs|Hin]; [discriminate Habs|now apply H2].
      * intros Hin. apply H2. now right.
Qed.

(** The [page] property fails with NotInitialized exactly when the page
    field is empty; [teardown] leaves every field of the engine as it was;
    so, over any sequence of [setup] and [teardown] calls on a new engine,
    the property fails exactly when no [setup] has completed.  With a page in
    the session, closed or not, no operation fails with NotInitialized. *)
Theorem not_initialized_iff_never_set_up :
  (forall s, fst (page s) = Raise not_initialized <-> _page (engine s) = None)
  /\ (forall s, engine (snd (teardown s)) = engine s)
  /\ (forall settings E t tr calls,
        let s0 := {| engine := __init__ settings; env := E; clock := t;
                     trace := tr |} in
        fst (page (snd (run_lifecycle calls s0))) = Raise not_initialized
        <-> ~ setup_completed (fst (run_lifecycle calls s0)))
  /\ (forall s, _page (engine s) <> None ->
        (forall url, fst (navigate url s) <> Raise not_initialized)
        /\ (forall selector selector_type with_alert,
              fst (click selector selector_type with_alert s)
              <> Raise not_initialized)
        /\ (forall iframe_selectors selector selector_type,
              fst (click_in_iframe iframe_selectors selector selector_type s)
              <> Raise not_initialized)
        /\ (forall value selector selector_type,
              fst (fill value selector selector_type s) <> Raise not_initialized)
        /\ (forall selector selector_type check_visible,
              fst (element_exists selector selector_type check_visible s)
              <> Raise not_initialized)
        /\ (forall selector selector_type,
              fst (assert_element_not_visible selector selector_type s)
              <> Raise not_initialized)).
Proof.
  assert (Hpage : forall s,
             fst (page s) = Raise not_initialized <-> _page (engine s) = None).
  { intros s. rewrite page_result. cbn [fst].
    destruct (_page (engine s)); split; try discriminate; reflexivity. }
  split; [exact Hpage|]. split; [exact teardown_keeps_engine|]. split.
  - intros settings E t tr calls s0. rewrite Hpage, run_lifecycle_page.
    subst s0. cbn [engine __init__ _page]. tauto.
  - intros s Hs.
    repeat split; intros; apply safe_never_not_initialized; try exact Hs;
      apply safe_operation.
    + apply safe_navigate_body.
    + apply safe_click_body.
    + apply safe_click_in_iframe_body.
    + apply safe_fill_body.
    + apply safe_element_exists_body.
    + apply safe_assert_element_not_visible_body.
Qed.

(** After [setup], [teardown] and [teardown] again, the page property still
    gives the page, and [navigate] fails on the closed page, not on a missing
    one. *)
Lemma not_initialized_iff_never_set_up_witness :
  fst (page (snd (run_lifecycle [CallSetup; CallTeardown; CallTeardown]
                    (Fixture.fresh Fixture.sample_world)))) = Ok 4%nat
  /\ fst (navigate "https://link.tidal.com/abc123"
            (snd (teardown Fixture.sample)))
     <> Raise not_initialized
  /\ fst (page (Fixture.fresh Fixture.sample_world)) = Raise not_initialized.
Proof.
  destruct not_initialized_iff_never_set_up as (Hpage & Hkeep & _ & Hops).
  split; [reflexivity|]. split.
  - assert (Hset : _page (engine (snd (teardown Fixture.sample))) <> None)
      by (rewrite Hkeep; discriminate).
    destruct (Hops (snd (teardown Fixture.sample)) Hset) as (Hnavigate & _).
    exact (Hnavigate "https://link.tidal.com/abc123"%string).
  - exact (proj2 (Hpage (Fixture.fresh Fixture.sample_world)) eq_refl).
Defined.

Example navigate_after_teardown :
  fst (navigate "https://link.tidal.com/abc123" (snd (teardown Fixture.sample)))
  = Raise target_closed.
Proof. reflexivity. Qed.

(** ** More on the retry wrapper *)

(** The retry wrapper returns what the first successful attempt returns,
    and stops there: with attempts 1..j failing and attempt j+1 (at most the
    fifth) succeeding, the call ends in the very result and state of that
    attempt. *)
Theorem retry_returns_first_success {A} (fn : M A) (s : State) (j : nat) (v : A) :
  (j < max_attempts)%nat ->
  (forall k, (k < j)%nat -> failed (attempt_result fn s k)) ->
  attempt_result fn s j = Ok v ->
  retry_with_backoff fn s = fn (attempt_state fn s j)
  /\ fst (retry_with_backoff fn s) = Ok v.
Proof.
  intros Hj Hfail Hok.
  rewrite (retry_loop_advance fn s j Hj Hfail), retry_loop_unfold.
  unfold attempt_result in Hok.
  destruct (fn (attempt_state fn s j)) as [[v'|e] s1]; cbn [fst] in Hok;
    [|discriminate].
  split; [reflexivity|exact Hok].
Qed.

Lemma retry_returns_first_success_witness :
  fst (retry_with_backoff (Fixture.flaky 2 7) Fixture.sample) = Ok 7%nat
  /\ backoffs (new_events Fixture.sample
                 (snd (retry_with_backoff (Fixture.flaky 2 7) Fixture.sample)))
     = [1; 2]%Z.
Proof.
  assert (H : forall k, (k < 2)%nat ->
                failed (attempt_result (Fixture.flaky 2 7) Fixture.sample k)).
  { intros k Hk. do 2 (destruct k as [|k]; [exact I|]). lia. }
  destruct (retry_returns_first_success (Fixture.flaky 2 7) Fixture.sample 2 7%nat
              ltac:(unfold max_attempts; lia) H eq_refl) as [Hrun Hres].
  split; [exact Hres|]. rewrite Hrun. reflexivity.
Defined.

(** When every attempt fails with the same error and leaves the same events,
    whatever the state it starts from (inside an invariant [J] that the
    loop's own steps keep), the loop ends in that error with its trace
    spelled out by [failure_trace]. *)
Lemma retry_loop_uniform_failure {A} (J : State -> Prop) (fn : M A) (e : exn)
    (evs : list Event) :
  (forall s, J s ->
     fst (fn s) = Raise e /\ trace (snd (fn s)) = trace s ++ evs
     /\ J (snd (fn s))) ->
  (forall s n, J s -> J (snd (emit (EvAfterLog n) s))) ->
  (forall s z, J s -> J (snd (nap z s))) ->
  forall fuel n s, J s ->
    fst (retry_loop fuel n fn s) = Raise e
    /\ trace (snd (retry_loop fuel n fn s)) = trace s ++ failure_trace evs fuel n
    /\ J (snd (retry_loop fuel n fn s)).
Proof.
  intros Hfn Hafter Hnap fuel.
  induction fuel as [|fuel IH]; intros n s Hs; rewrite retry_loop_unfold;
    destruct (Hfn s Hs) as (Hr & Ht & HJ);
    destruct (fn s) as [[v|e'] s1]; cbn [fst snd] in Hr, Ht, HJ;
    try discriminate; inversion Hr; subst e'; cbv zeta;
    cbn [failure_trace];
    destruct (stop_after_attempt max_attempts n); cbn [fst snd];
    try (split; [reflexivity|]; split; [|now apply Hafter];
         rewrite after_log_trace, Ht, <- app_assoc; reflexivity).
  destruct (IH (S n) (snd (nap (backoff_wait n) (snd (emit (EvAfterLog n) s1)))))
    as (Hr' & Ht' & HJ'); [now apply Hnap, Hafter|].
  split; [exact Hr'|]. split; [|exact HJ'].
  rewrite Ht', nap_trace, after_log_trace, Ht, <- !app_assoc. reflexivity.
Qed.

Lemma failure_trace_unrolled (evs : list Event) :
  failure_trace evs max_attempts 1
  = evs ++ EvAfterLog 1 :: EvBackoff 1
    :: evs ++ EvAfterLog 2 :: EvBackoff 2
    :: evs ++ EvAfterLog 3 :: EvBackoff 4
    :: evs ++ EvAfterLog 4 :: EvBackoff 8
    :: evs ++ [EvAfterLog 5].
Proof. reflexivity. Qed.

Lemma collect_failure_trace {B} (f : Event -> option B) (evs : list Event) :
  collect f evs = [] -> (forall n, f (EvAfterLog n) = None) ->
  collect f (failure_trace evs max_attempts 1)
  = collect f [EvBackoff 1; EvBackoff 2; EvBackoff 4; EvBackoff 8].
Proof.
  intros Hevs Hafter. rewrite failure_trace_unrolled.
  repeat (rewrite collect_app, Hevs; cbn [app collect]; rewrite Hafter;
          try match goal with
              | |- context [f (EvBackoff ?z)] => destruct (f (EvBackoff z))
              end); reflexivity.
Qed.

(** A decorated, retried operation whose body fails the same way on every
    attempt: the error comes back after the five attempts, between the
    "Calling" report and the failure report. *)
Lemma decorated_uniform_failure {A} (J : State -> Prop) (name : string)
    (args : list PyValue) (kwargs : list (string * PyValue)) (body : M A)
    (e : exn) (evs : list Event) :
  (forall s, J s ->
     fst (body s) = Raise e /\ trace (snd (body s)) = trace s ++ evs
     /\ J (snd (body s))) ->
  (forall s ev, is_release ev = false -> J s -> J (snd (emit ev s))) ->
  (forall s, J s -> J (snd (tick s))) ->
  forall s, J s ->
    let op := report_status name args kwargs (retry_with_backoff body) in
    let fc := func_call (env s) name args kwargs in
    fst (op s) = Raise e
    /\ new_events s (snd (op s))
       = EvLog EngineLogger INFO false (calling_message fc)
         :: failure_trace evs max_attempts 1
         ++ [EvLog EngineLogger ERROR true (failed_message fc e)].
Proof.
  intros Hbody Hemit Htick s Hs op fc. subst op.
  rewrite report_status_run. cbv zeta. fold fc.
  set (s1 := snd (report (calling_message fc) None s)).
  assert (Hs1 : J s1) by (apply (Hemit s); [reflexivity|exact Hs]).
  destruct (retry_loop_uniform_failure J body e evs Hbody) with
    (fuel := max_attempts) (n := 1%nat) (s := s1) as (Hr & Ht & _).
  - intros s' n Hs'. now apply Hemit.
  - intros s' z Hs'. unfold nap, bind. cbn [emit fst snd].
    apply Htick. now apply (Hemit s').
  - exact Hs1.
  - fold (retry_with_backoff body) in Hr, Ht.
    destruct (retry_with_backoff body s1) as [[v|e'] s2]; cbn [fst snd] in *;
      [discriminate|]. inversion Hr; subst e'.
    split; [reflexivity|].
    apply new_events_app. cbn [report log_exception emit snd trace].
    rewrite Ht. unfold s1. cbn [report log emit snd trace].
    rewrite <- !app_assoc. reflexivity.
Qed.

(** ** Operations on a session that was never set up *)

Lemma decorated_fails_uninitialized {A} (name : string) (args : list PyValue)
    (kwargs : list (string * PyValue)) (body : M A) (evs : list Event)
    (s : State) :
  (forall s', _page (engine s') = None /\ env s' = env s ->
     fst (body s') = Raise not_initialized
     /\ trace (snd (body s')) = trace s' ++ evs
     /\ (_page (engine (snd (body s'))) = None /\ env (snd (body s')) = env s)) ->
  backoffs evs = [] -> actions evs = [] ->
  _page (engine s) = None ->
  fails_uninitialized
    (report_status name args kwargs (retry_with_backoff body)) s.
Proof.
  intros Hbody Hb Ha Hs.
  destruct (decorated_uniform_failure
              (fun s' => _page (engine s') = None /\ env s' = env s)
              name args kwargs body not_initialized evs Hbody)
    with (s := s) as (Hr & Hev).
  - intros s' ev _ Hs'. exact Hs'.
  - intros s' Hs'. exact Hs'.
  - split; [exact Hs|reflexivity].
  - cbv zeta in Hr, Hev. unfold fails_uninitialized.
    split; [exact Hr|]. rewrite Hev.
    change (?x :: ?l ++ [?y]) with ([x] ++ l ++ [y]).
    unfold backoffs, actions in *. rewrite !collect_app.
    rewrite !collect_failure_trace by (assumption || reflexivity).
    split; reflexivity.
Qed.

Lemma page_uninitialized (s : State) :
  _page (engine s) = None -> page s = (Raise not_initialized, s).
Proof. intros H. now rewrite page_result, H. Qed.

(** Decomposes a body that starts, possibly after pure steps, by reading the
    [page] of a session that has none. *)
Ltac fails_at_page H :=
  intros ? [H ?];
  repeat first
    [ progress cbv zeta
    | progress unfold bind at 1
    | progress (rewrite (page_uninitialized _ H))
    | progress cbn [ret fst snd] ];
  repeat split; try assumption; now rewrite app_nil_r.

Lemma navigate_uninitialized (url : string) (s : State) :
  _page (engine s) = None -> fails_uninitialized (navigate url) s.
Proof.
  intros Hs. apply decorated_fails_uninitialized with (evs := []);
    try reflexivity; try exact Hs.
  unfold navigate_body. fails_at_page H.
Qed.

Lemma click_uninitialized (raw : string) (selector_type : SelectorType)
    (with_alert : option bool) (s : State) :
  _page (engine s) = None ->
  fails_uninitialized (click (Raw raw) selector_type with_alert) s.
Proof.
  intros Hs. apply decorated_fails_uninitialized with (evs := []);
    try reflexivity; try exact Hs.
  unfold click_body, _get_locator.
  destruct with_alert as [[|]|]; fails_at_page H.
Qed.

Lemma fill_uninitialized (value : FillValue) (raw : string)
    (selector_type : SelectorType) (s : State) :
  _page (engine s) = None ->
  fails_uninitialized (fill value (Raw raw) selector_type) s
  /\ fails_uninitialized (fill_by_keyword value (Raw raw) selector_type) s.
Proof.
  intros Hs. split;
    (apply decorated_fails_uninitialized with (evs := []);
     try reflexivity; try exact Hs);
    unfold fill_body, _get_locator; fails_at_page H.
Qed.

Lemma element_exists_uninitialized (raw : string) (selector_type : SelectorType)
    (check_visible : option bool) (s : State) :
  _page (engine s) = None ->
  fails_uninitialized (element_exists (Raw raw) selector_type check_visible) s.
Proof.
  intros Hs. apply decorated_fails_uninitialized with (evs := []);
    try reflexivity; try exact Hs.
  unfold element_exists_body. fails_at_page H.
Qed.

Lemma assert_element_not_visible_uninitialized (raw : string)
    (selector_type : SelectorType) (s : State) :
  _page (engine s) = None ->
  fails_uninitialized (assert_element_not_visible (Raw raw) selector_type) s.
Proof.
  intros Hs. apply decorated_fails_uninitialized with (evs := []);
    try reflexivity; try exact Hs.
  unfold assert_element_not_visible_body. fails_at_page H.
Qed.

(** The first iframe lookup of a chain, on a session without a page: two
    reports and the error. *)
Lemma get_iframe_uninitialized (selector : string) (s : State) :
  _page (engine s) = None ->
  let fc := func_call (env s) "_get_iframe" [VStr selector] [("context", VNone)] in
  fst (_get_iframe selector None s) = Raise not_initialized
  /\ trace (snd (_get_iframe selector None s))
     = trace s ++ [EvLog EngineLogger INFO false (calling_message fc);
                   EvLog EngineLogger ERROR true
                     (failed_message fc not_initialized)]
  /\ engine (snd (_get_iframe selector None s)) = engine s
  /\ env (snd (_get_iframe selector None s)) = env s.
Proof.
  intros Hs fc. unfold _get_iframe. rewrite report_status_run. cbv zeta.
  unfold _get_iframe_body, bind.
  rewrite page_uninitialized by exact Hs.
  cbn [fst snd report log log_exception emit trace engine env context_value].
  rewrite <- app_assoc. repeat split.
Qed.

Lemma enter_iframes_uninitialized (iframe_selectors : list string) (s0 s : State) :
  _page (engine s) = None -> env s = env s0 ->
  exists evs,
    backoffs evs = [] /\ actions evs = []
    /\ (forall raw selector_type (k : Locator -> M unit),
          let body :=
            iframe <- enter_iframes iframe_selectors None ;;
            locator <- _get_locator (Raw raw) selector_type iframe ;;
            k locator in
          fst (body s) = Raise not_initialized
          /\ trace (snd (body s)) = trace s ++ evs
          /\ _page (engine (snd (body s))) = None
          /\ env (snd (body s)) = env s0)
    /\ evs = match iframe_selectors with
             | [] => []
             | selector :: _ =>
                 let fc := func_call (env s0) "_get_iframe" [VStr selector]
                             [("context", VNone)] in
                 [EvLog EngineLogger INFO false (calling_message fc);
                  EvLog EngineLogger ERROR true
                    (failed_message fc not_initialized)]
             end.
Proof.
  intros Hs Henv. eexists. split; [|split; [|split; [|reflexivity]]].
  - destruct iframe_selectors; reflexivity.
  - destruct iframe_selectors; reflexivity.
  - intros raw selector_type k body.
    destruct iframe_selectors as [|selector rest].
    + assert (Hrun : body s = (Raise not_initialized, s)).
      { subst body. cbn [enter_iframes]. unfold _get_locator, bind.
        cbn [ret]. now rewrite page_uninitialized by exact Hs. }
      rewrite Hrun. cbn [fst snd]. rewrite app_nil_r. auto.
    + destruct (get_iframe_uninitialized selector s Hs) as (Hr & Ht & He & Hv).
      assert (Hrun : body s
                     = (Raise not_initialized, snd (_get_iframe selector None s))).
      { subst body. cbn [enter_iframes]. unfold bind at 1. unfold bind at 1.
        destruct (_get_iframe selector None s) as [[f|e] s1];
          cbn [fst snd] in *; [discriminate|]. now inversion Hr. }
      rewrite Hrun. cbn [fst snd]. rewrite Ht, He, Hv, Henv. auto.
Qed.

Lemma in_iframe_uninitialized (name : string) (args : list PyValue)
    (iframe_selectors : list string) (raw : string)
    (selector_type : SelectorType) (k : Locator -> M unit) (s : State) :
  _page (engine s) = None ->
  fails_uninitialized
    (report_status name args []
       (retry_with_backoff
          (iframe <- enter_iframes iframe_selectors None ;;
           locator <- _get_locator (Raw raw) selector_type iframe ;;
           k locator))) s.
Proof.
  intros Hs.
  destruct (enter_iframes_uninitialized iframe_selectors s s Hs eq_refl)
    as (evs & Hb & Ha & _ & Hevs).
  apply decorated_fails_uninitialized with (evs := evs); try assumption.
  intros s' [Hs' Henv].
  destruct (enter_iframes_uninitialized iframe_selectors s s' Hs' Henv)
    as (evs' & _ & _ & Hrun & Hevs').
  rewrite <- Hevs in Hevs'. subst evs'.
  destruct (Hrun raw selector_type k) as (Hr & Ht & Hp & He). auto.
Qed.

(** On a session that was never set up, every operation given a selector
    string fails with NotInitialized, but only once the retry wrapper has
    gone through its five attempts and its waits of 1, 2, 4 and 8 seconds;
    no action reaches the driver. *)
Theorem operations_before_setup (s : State) :
  _page (engine s) = None ->
  (forall url, fails_uninitialized (navigate url) s)
  /\ (forall raw selector_type with_alert,
        fails_uninitialized (click (Raw raw) selector_type with_alert) s)
  /\ (forall iframe_selectors raw selector_type,
        fails_uninitialized
          (click_in_iframe iframe_selectors (Raw raw) selector_type) s)
  /\ (forall value raw selector_type,
        fails_uninitialized (fill value (Raw raw) selector_type) s)
  /\ (forall value iframe_selectors raw selector_type,
        fails_uninitialized
          (fill_in_iframe value iframe_selectors (Raw raw) selector_type) s)
  /\ (forall raw selector_type check_visible,
        fails_uninitialized
          (element_exists (Raw raw) selector_type check_visible) s)
  /\ (forall raw selector_type,
        fails_uninitialized
          (assert_element_not_visible (Raw raw) selector_type) s).
Proof.
  intros Hs. split; [|split; [|split; [|split; [|split; [|split]]]]].
  - intros url. exact (navigate_uninitialized url s Hs).
  - intros raw selector_type with_alert.
    exact (click_uninitialized raw selector_type with_alert s Hs).
  - intros iframe_selectors raw selector_type.
    exact (in_iframe_uninitialized _ _ iframe_selectors raw selector_type _ s Hs).
  - intros value raw selector_type.
    exact (proj1 (fill_uninitialized value raw selector_type s Hs)).
  - intros value iframe_selectors raw selector_type.
    exact (in_iframe_uninitialized _ _ iframe_selectors raw selector_type _ s Hs).
  - intros raw selector_type check_visible.
    exact (element_exists_uninitialized raw selector_type check_visible s Hs).
  - intros raw selector_type.
    exact (assert_element_not_visible_uninitialized raw selector_type s Hs).
Qed.

Lemma operations_before_setup_witness :
  fails_uninitialized (navigate "https://link.tidal.com/abc123")
    (Fixture.fresh Fixture.sample_world)
  /\ fails_uninitialized
       (click_in_iframe ["#outer"; "#inner"] (Raw "#password") CSS)
       (Fixture.fresh Fixture.sample_world).
Proof.
  destruct (operations_before_setup (Fixture.fresh Fixture.sample_world) eq_refl)
    as (Hnavigate & _ & Hclick & _).
  split; [exact (Hnavigate _)|exact (Hclick _ _ _)].
Defined.

(** ** A click on a selector that matches nothing *)

Lemma page_closed_emit (p : Handle) (ev : Event) (s : State) :
  is_release ev = false ->
  page_closed p (snd (emit ev s)) = page_closed p s.
Proof.
  intros Hev. unfold page_closed. cbn [emit snd trace].
  rewrite existsb_app. cbn [existsb].
  destruct ev as [? ? ? ?|?|?|?|[]]; try discriminate Hev;
    cbn [is_close_of]; now rewrite !orb_false_r.
Qed.

Lemma actions_failure_trace (evs : list Event) :
  actions (failure_trace evs max_attempts 1)
  = actions evs ++ actions evs ++ actions evs ++ actions evs ++ actions evs.
Proof.
  rewrite failure_trace_unrolled. unfold actions.
  repeat (rewrite collect_app; cbn [collect action_of]).
  now rewrite app_nil_r.
Qed.

Lemma bind_ok {A B} (m : M A) (k : A -> M B) (s : State) (a : A) (s1 : State) :
  m s = (Ok a, s1) -> bind m k s = k a s1.
Proof. unfold bind. now intros ->. Qed.

Lemma bind_raise {A B} (m : M A) (k : A -> M B) (s : State) (e : exn)
    (s1 : State) :
  m s = (Raise e, s1) -> bind m k s = (Raise e, s1).
Proof. unfold bind. now intros ->. Qed.

Lemma get_locator_no_match (raw : string) (selector_type : SelectorType)
    (p : Handle) (s : State) :
  _page (engine s) = Some p ->
  page_closed p s = false ->
  current_dom s p [] (_get_selector raw selector_type) = [] ->
  _get_locator (Raw raw) selector_type None s
  = (Raise (ElementNotFound (_get_selector raw selector_type)), s).
Proof.
  intros Hpage Hopen Hnone. unfold _get_locator. cbv zeta.
  rewrite (bind_ok _ _ s (page_locator p (_get_selector raw selector_type)) s).
  2: { rewrite (bind_ok _ _ s p s); [reflexivity|].
       now rewrite page_result, Hpage. }
  rewrite (bind_ok _ _ s 0%nat s); [reflexivity|].
  unfold locator_count. rewrite query_open by exact Hopen.
  change (resolve (current_dom s) _)
    with (current_dom s p [] (_get_selector raw selector_type)).
  now rewrite Hnone.
Qed.

Lemma click_body_no_match (raw : string) (selector_type : SelectorType)
    (with_alert : bool) (p : Handle) (s : State) :
  _page (engine s) = Some p ->
  page_closed p s = false ->
  current_dom s p [] (_get_selector raw selector_type) = [] ->
  click_body (Raw raw) selector_type with_alert s
  = (Raise (ElementNotFound (_get_selector raw selector_type)),
     if with_alert then snd (emit (EvAction (AcceptDialogs p)) s) else s).
Proof.
  intros Hpage Hopen Hnone. unfold click_body. destruct with_alert.
  - rewrite (bind_ok _ _ s tt (snd (emit (EvAction (AcceptDialogs p)) s))).
    2: { rewrite (bind_ok _ _ s p s); [reflexivity|].
         now rewrite page_result, Hpage. }
    apply bind_raise. apply (get_locator_no_match raw selector_type p).
    + exact Hpage.
    + now rewrite page_closed_emit.
    + exact Hnone.
  - rewrite (bind_ok _ _ s tt s) by reflexivity.
    apply bind_raise. now apply (get_locator_no_match raw selector_type p).
Qed.

(** A click on a selector that never matches anything, on a live page:
    the caller gets ElementNotFound after the five attempts and the waits of
    1, 2, 4 and 8 seconds, with exactly one failure report; the element is
    never clicked, and with [with_alert] the dialog handler is registered
    once per attempt. *)
Theorem click_without_match (raw : string) (selector_type : SelectorType)
    (with_alert : option bool) (p : Handle) (s : State) :
  _page (engine s) = Some p ->
  page_closed p s = false ->
  (forall t, dom_at (env s) t p [] (_get_selector raw selector_type) = []) ->
  let evs := new_events s (snd (click (Raw raw) selector_type with_alert s)) in
  fst (click (Raw raw) selector_type with_alert s)
  = Raise (ElementNotFound (_get_selector raw selector_type))
  /\ backoffs evs = [1; 2; 4; 8]%Z
  /\ count is_failed evs = 1%nat
  /\ actions evs = match with_alert with
                   | Some true => repeat (AcceptDialogs p) 5
                   | _ => []
                   end.
Proof.
  intros Hpage Hopen Hnone evs.
  set (wa := match with_alert with Some b => b | None => false end).
  set (each := if wa then [EvAction (AcceptDialogs p)] else []).
  destruct (decorated_uniform_failure
              (fun s' => engine s' = engine s /\ env s' = env s
                         /\ page_closed p s' = false)
              "click" [selector_value (Raw raw); VSelectorType selector_type]
              (match with_alert with
               | Some b => [("with_alert", VBool b)]
               | None => []
               end)
              (click_body (Raw raw) selector_type wa)
              (ElementNotFound (_get_selector raw selector_type)) each)
    with (s := s) as (Hr & Hev).
  - intros s' (He & Hv & Ho).
    rewrite (click_body_no_match raw selector_type wa p s').
    + cbn [fst snd]. split; [reflexivity|]. subst each.
      destruct wa.
      * split; [reflexivity|]. split; [exact He|]. split; [exact Hv|].
        now rewrite page_closed_emit.
      * rewrite app_nil_r. auto.
    + now rewrite He.
    + exact Ho.
    + unfold current_dom. rewrite Hv. apply Hnone.
  - intros s' ev Hev (He & Hv & Ho). repeat split; try assumption.
    now rewrite page_closed_emit.
  - intros s' Hs'. exact Hs'.
  - auto.
  - cbv zeta in Hr, Hev. subst evs. unfold click. fold wa.
    split; [exact Hr|]. rewrite Hev.
    change (?x :: ?l ++ [?y]) with ([x] ++ l ++ [y]).
    split; [|split].
    + unfold backoffs. rewrite !collect_app.
      rewrite collect_failure_trace;
        [reflexivity|subst each; now destruct wa|reflexivity].
    + rewrite !count_app. rewrite (count_none is_failed (failure_trace _ _ _)).
      * reflexivity.
      * rewrite failure_trace_unrolled. subst each.
        destruct wa; repeat constructor.
    + unfold actions. rewrite !collect_app. fold (actions (failure_trace each max_attempts 1)).
      rewrite actions_failure_trace. subst each wa.
      destruct with_alert as [[|]|]; reflexivity.
Qed.

Lemma click_without_match_witness :
  fst (click (Raw "#none") CSS (Some true) Fixture.sample)
  = Raise (ElementNotFound "#none")
  /\ actions (new_events Fixture.sample
                (snd (click (Raw "#none") CSS (Some true) Fixture.sample)))
     = repeat (AcceptDialogs 4) 5.
Proof.
  destruct (click_without_match "#none" CSS (Some true) 4%nat Fixture.sample
              eq_refl eq_refl (fun t => eq_refl))
    as (Hresult & _ & _ & Hactions).
  split; [exact Hresult|exact Hactions].
Defined.

(** ** Where errors come from *)

(** The two decorators add no error of their own: whatever property holds
    of every error the body can raise holds of every error the decorated,
    retried operation raises. *)
Theorem decorators_raise_only_body_errors {A} (E : exn -> Prop) (name : string)
    (args : list PyValue) (kwargs : list (string * PyValue)) (body : M A) :
  (forall s e, fst (body s) = Raise e -> E e) ->
  forall s e,
    fst (report_status name args kwargs (retry_with_backoff body) s) = Raise e ->
    E e.
Proof.
  intros Hbody s e.
  assert (Hsafe : safe (fun _ => True) E
                    (report_status name args kwargs (retry_with_backoff body))).
  { apply safe_report_status; [trivial|].
    apply safe_retry_loop; [trivial|].
    intros s' _. split; [trivial|]. apply Hbody. }
  apply (Hsafe s I).
Qed.

Lemma flaky_raises_driver_errors (failures value : nat) (s : State) (e : exn) :
  fst (Fixture.flaky failures value s) = Raise e -> exists msg, e = DriverError msg.
Proof.
  unfold Fixture.flaky. cbv zeta.
  destruct (_ <? _)%nat; cbn [fst]; intros He; [|discriminate He].
  inversion He. eexists. reflexivity.
Qed.

Lemma decorators_raise_only_body_errors_witness :
  exists msg,
    fst (report_status "flaky" [] [] (retry_with_backoff (Fixture.flaky 9 0))
           Fixture.sample) = Raise (DriverError msg).
Proof.
  destruct (decorators_raise_only_body_errors
              (fun e => exists msg, e = DriverError msg) "flaky" [] []
              (Fixture.flaky 9 0) (flaky_raises_driver_errors 9 0)
              Fixture.sample (DriverError "fifth") eq_refl) as [msg Hmsg].
  exists msg. rewrite <- Hmsg. reflexivity.
Defined.

(** ** [setup] and [teardown] in a world without driver faults *)

Lemma driver_call_ok (a : Action) (s : State) :
  fault_at (env s) (clock s) = None ->
  driver_call a s
  = (Ok (clock s),
     {| engine := engine s; env := env s; clock := S (clock s);
        trace := trace s ++ [EvAction a] |}).
Proof. unfold driver_call. now intros ->. Qed.

Lemma driver_call_fault (a : Action) (s : State) (msg : string) :
  fault_at (env s) (clock s) = Some msg ->
  driver_call a s
  = (Raise (DriverError msg),
     {| engine := engine s; env := env s; clock := S (clock s);
        trace := trace s ++ [EvAction a] |}).
Proof. unfold driver_call. now intros ->. Qed.

Lemma release_run (handle : option Handle) (close : Handle -> Action)
    (s : State) :
  fault_at (env s) (clock s) = None ->
  release handle close s = (Ok tt, after_release handle close s).
Proof.
  intros Hok. unfold release, after_release. destruct handle as [h|];
    [|reflexivity].
  now rewrite (bind_ok _ _ s (clock s) _ (driver_call_ok (close h) s Hok)).
Qed.

Lemma after_release_env (handle : option Handle) (close : Handle -> Action)
    (s : State) :
  env (after_release handle close s) = env s
  /\ engine (after_release handle close s) = engine s.
Proof. now destruct handle. Qed.

Lemma teardown_run (s : State) :
  (forall t, fault_at (env s) t = None) ->
  teardown s = (Ok tt, teardown_outcome s).
Proof.
  intros Hok. unfold teardown.
  rewrite (bind_ok _ _ s (engine s) s) by reflexivity.
  set (s1 := after_release (_page (engine s)) ClosePage s).
  set (s2 := after_release (_context (engine s)) CloseContext s1).
  set (s3 := after_release (_browser (engine s)) CloseBrowser s2).
  assert (H1 : env s1 = env s) by apply after_release_env.
  assert (H2 : env s2 = env s)
    by (unfold s2; now rewrite (proj1 (after_release_env _ _ _))).
  assert (H3 : env s3 = env s)
    by (unfold s3; now rewrite (proj1 (after_release_env _ _ _))).
  rewrite (bind_ok _ _ s tt s1) by (apply release_run, Hok).
  rewrite (bind_ok _ _ s1 tt s2) by (apply release_run; rewrite H1; apply Hok).
  rewrite (bind_ok _ _ s2 tt s3) by (apply release_run; rewrite H2; apply Hok).
  rewrite release_run by (rewrite H3; apply Hok).
  f_equal. unfold s3, s2, s1, teardown_outcome, release_actions, after_release.
  destruct (_page (engine s)) as [p|], (_context (engine s)) as [c|],
    (_browser (engine s)) as [b|], (_playwright (engine s)) as [d|];
    cbn [List.length app engine env clock trace];
    rewrite <- ?app_assoc; cbn [app]; rewrite ?app_nil_r;
    try (destruct s; cbn; f_equal; lia);
    f_equal; lia.
Qed.

Lemma release_fault (h : Handle) (close : Handle -> Action) (s : State)
    (msg : string) :
  fault_at (env s) (clock s) = Some msg ->
  release (Some h) close s
  = (Raise (DriverError msg), after_release (Some h) close s).
Proof.
  intros Hfault. unfold release, after_release.
  now rewrite (bind_raise _ _ s _ _ (driver_call_fault (close h) s msg Hfault)).
Qed.

(** [teardown] in a world where no driver call fails: it returns, having
    issued the release actions of the resources the engine holds, in the
    order page, context, browser, driver, and nothing else; the fields of
    the engine stay as they were.  On an engine that holds nothing it does
    nothing. *)
Theorem teardown_releases_what_it_holds (s : State) :
  (forall t, fault_at (env s) t = None) ->
  fst (teardown s) = Ok tt
  /\ new_events s (snd (teardown s)) = release_actions (engine s)
  /\ engine (snd (teardown s)) = engine s
  /\ (engine s = __init__ (_settings (engine s)) -> teardown s = (Ok tt, s)).
Proof.
  intros Hok. rewrite (teardown_run s Hok). cbn [fst snd].
  split; [reflexivity|]. split; [now apply new_events_app|].
  split; [reflexivity|].
  intros Hnew. unfold teardown_outcome, release_actions. rewrite Hnew.
  cbn [__init__ _page _context _browser _playwright app List.length].
  rewrite <- Hnew, app_nil_r, Nat.add_0_r. now destruct s.
Qed.

Lemma teardown_releases_what_it_holds_witness :
  new_events Fixture.sample (snd (teardown Fixture.sample))
  = [EvAction (ClosePage 4); EvAction (CloseContext 2);
     EvAction (CloseBrowser 1); EvAction (StopDriver 0)]
  /\ teardown (Fixture.fresh Fixture.sample_world)
     = (Ok tt, Fixture.fresh Fixture.sample_world).
Proof.
  split.
  - exact (proj1 (proj2 (teardown_releases_what_it_holds Fixture.sample
                           (fun t => eq_refl)))).
  - exact (proj2 (proj2 (proj2 (teardown_releases_what_it_holds
                                  (Fixture.fresh Fixture.sample_world)
                                  (fun t => eq_refl)))) eq_refl).
Defined.

(** [teardown] is not fault tolerant.  On a complete session, when the
    release call number [i] (0 for the page, 3 for the driver) is the first
    to fail, [teardown] raises that error, and the resources after it in the
    order page, context, browser, driver are never released. *)
Theorem teardown_stops_at_first_fault (s : State) (p c b d : Handle)
    (i : nat) (msg : string) :
  _page (engine s) = Some p -> _context (engine s) = Some c ->
  _browser (engine s) = Some b -> _playwright (engine s) = Some d ->
  (i < 4)%nat ->
  (forall j, (j < i)%nat -> fault_at (env s) (clock s + j) = None) ->
  fault_at (env s) (clock s + i) = Some msg ->
  fst (teardown s) = Raise (DriverError msg)
  /\ new_events s (snd (teardown s))
     = firstn (S i) [EvAction (ClosePage p); EvAction (CloseContext c);
                     EvAction (CloseBrowser b); EvAction (StopDriver d)].
Proof.
  intros Hp Hc Hb Hd Hi Hbefore Hfault. unfold teardown.
  rewrite (bind_ok _ _ s (engine s) s) by reflexivity.
  rewrite Hp, Hc, Hb, Hd.
  set (s1 := after_release (Some p) ClosePage s).
  set (s2 := after_release (Some c) CloseContext s1).
  set (s3 := after_release (Some b) CloseBrowser s2).
  assert (C1 : clock s1 = (clock s + 1)%nat) by (cbn; lia).
  assert (C2 : clock s2 = (clock s + 2)%nat) by (cbn; lia).
  assert (C3 : clock s3 = (clock s + 3)%nat) by (cbn; lia).
  assert (E1 : env s1 = env s) by reflexivity.
  assert (E2 : env s2 = env s) by reflexivity.
  assert (E3 : env s3 = env s) by reflexivity.
  destruct i as [|[|[|[|i]]]]; try lia.
  - rewrite Nat.add_0_r in Hfault.
    rewrite (bind_raise _ _ s _ _ (release_fault p ClosePage s msg Hfault)).
    split; [reflexivity|]. now apply new_events_app.
  - rewrite (bind_ok _ _ s tt s1).
    2: { apply release_run. rewrite <- (Nat.add_0_r (clock s)).
         apply Hbefore. lia. }
    rewrite (bind_raise _ _ s1 (DriverError msg) s2).
    2: { apply release_fault. now rewrite E1, C1. }
    split; [reflexivity|]. apply new_events_app.
    cbn. now rewrite <- app_assoc.
  - rewrite (bind_ok _ _ s tt s1).
    2: { apply release_run. rewrite <- (Nat.add_0_r (clock s)).
         apply Hbefore. lia. }
    rewrite (bind_ok _ _ s1 tt s2).
    2: { apply release_run. rewrite E1, C1.
         apply Hbefore. lia. }
    rewrite (bind_raise _ _ s2 (DriverError msg) s3).
    2: { apply release_fault. now rewrite E2, C2. }
    split; [reflexivity|]. apply new_events_app.
    cbn. now rewrite <- !app_assoc.
  - rewrite (bind_ok _ _ s tt s1).
    2: { apply release_run. rewrite <- (Nat.add_0_r (clock s)).
         apply Hbefore. lia. }
    rewrite (bind_ok _ _ s1 tt s2).
    2: { apply release_run. rewrite E1, C1.
         apply Hbefore. lia. }
    rewrite (bind_ok _ _ s2 tt s3).
    2: { apply release_run. rewrite E2, C2.
         apply Hbefore. lia. }
    rewrite release_fault with (msg := msg).
    2: { now rewrite E3, C3. }
    split; [reflexivity|]. apply new_events_app.
    cbn. now rewrite <- !app_assoc.
Qed.

Lemma teardown_stops_at_first_fault_witness :
  fst (teardown (Fixture.ready (Fixture.faulty_world 5)))
  = Raise (DriverError "connection lost")
  /\ new_events (Fixture.ready (Fixture.faulty_world 5))
       (snd (teardown (Fixture.ready (Fixture.faulty_world 5))))
     = [EvAction (ClosePage 4)].
Proof.
  apply (teardown_stops_at_first_fault (Fixture.ready (Fixture.faulty_world 5))
           4 2 1 0 0 "connection lost"); try reflexivity.
  - lia.
  - intros j Hj. lia.
Defined.

Lemma update_engine_run (f : PlaywrightEngine -> PlaywrightEngine) (s : State) :
  update_engine f s
  = (Ok tt, {| engine := f (engine s); env := env s; clock := clock s;
               trace := trace s |}).
Proof. reflexivity. Qed.

Lemma start_driver_ok (s : State) :
  driver_running s = false ->
  fault_at (env s) (clock s) = None ->
  start_driver s
  = (Ok (clock s),
     {| engine := engine s; env := env s; clock := S (clock s);
        trace := trace s ++ [EvAction StartDriver] |}).
Proof. intros Hidle Hok. unfold start_driver. rewrite Hidle. now apply driver_call_ok. Qed.

Lemma browser_instance_ok (name : string) (s : State) :
  no_browser (env s) name = None -> browser_instance name s = (Ok tt, s).
Proof. intros H. unfold browser_instance, bind, get_env. now rewrite H. Qed.

Lemma setup_equation (s : State) :
  (forall t, fault_at (env s) t = None) ->
  no_browser (env s) (browser_type (_settings (engine s))) = None ->
  driver_running s = false ->
  setup s = (Ok tt, setup_outcome s).
Proof.
  intros Hok Hbrowser Hidle. unfold setup, setup_outcome. cbv zeta.
  set (st := _settings (engine s)).
  rewrite (bind_ok _ _ s _ _ (start_driver_ok s Hidle (Hok _))).
  rewrite (bind_ok _ _ _ tt _ (update_engine_run _ _)).
  erewrite bind_ok by reflexivity.
  cbn [engine set_playwright _settings]. fold st.
  erewrite bind_ok by (apply browser_instance_ok; exact Hbrowser).
  erewrite bind_ok by (apply driver_call_ok; apply Hok).
  rewrite (bind_ok _ _ _ tt _ (update_engine_run _ _)).
  cbn [engine env clock trace set_browser set_playwright _settings _playwright
       _browser _context _page].
  destruct (take_video st).
  - erewrite bind_ok
      by (erewrite bind_ok by (apply driver_call_ok; apply Hok); reflexivity).
    erewrite bind_ok by (apply driver_call_ok; apply Hok).
    erewrite bind_ok by (apply driver_call_ok; apply Hok).
    rewrite (bind_ok _ _ _ tt _ (update_engine_run _ _)).
    erewrite bind_ok by (apply driver_call_ok; apply Hok).
    rewrite update_engine_run.
    cbn [engine env clock trace set_context set_page _settings _playwright
         _browser _context _page].
    rewrite <- !app_assoc. cbn [app].
    unfold set_page, set_context, set_browser, set_playwright.
    cbn [_settings _playwright _browser _context _page]. fold st.
    repeat (f_equal; try lia).
  - erewrite bind_ok by reflexivity.
    erewrite bind_ok by (apply driver_call_ok; apply Hok).
    erewrite bind_ok by (apply driver_call_ok; apply Hok).
    rewrite (bind_ok _ _ _ tt _ (update_engine_run _ _)).
    erewrite bind_ok by (apply driver_call_ok; apply Hok).
    rewrite update_engine_run.
    cbn [engine env clock trace set_context set_page _settings _playwright
         _browser _context _page].
    rewrite <- !app_assoc. cbn [app].
    unfold set_page, set_context, set_browser, set_playwright.
    cbn [_settings _playwright _browser _context _page]. fold st.
    repeat (f_equal; try lia).
Qed.

(** [setup] when the driver is not running yet, has a browser of the
    configured name, and no driver call fails: it starts the driver,
    launches the configured browser, creates the video directory first when
    videos are on, makes one context with the configured viewport and
    timeout, opens one page in it, and stores the four handles. *)
Theorem setup_run (s : State) :
  (forall t, fault_at (env s) t = None) ->
  no_browser (env s) (browser_type (_settings (engine s))) = None ->
  driver_running s = false ->
  setup s = (Ok tt, setup_outcome s).
Proof.
  exact (setup_equation s).
Qed.

Lemma setup_run_witness :
  setup (Fixture.fresh Fixture.sample_world)
  = (Ok tt, setup_outcome (Fixture.fresh Fixture.sample_world))
  /\ _page (engine (setup_outcome (Fixture.fresh Fixture.sample_world)))
     = Some 4%nat.
Proof.
  split; [|reflexivity].
  exact (setup_run (Fixture.fresh Fixture.sample_world) (fun t => eq_refl)
           eq_refl eq_refl).
Defined.

Lemma driver_running_setup_outcome (s : State) :
  driver_running (setup_outcome s) = true.
Proof.
  unfold driver_running, setup_outcome. cbv zeta. cbn [trace].
  rewrite !fold_left_app.
  destruct (take_video (_settings (engine s))); reflexivity.
Qed.

(** A second [setup], on an engine whose first [setup] completed, is
    refused: the driver is running, so starting it again raises the driver's
    error before anything is launched.  Nothing changes: the engine keeps
    the handles of the first session, and a [teardown] after it releases
    that session. *)
Theorem second_setup_is_refused (s : State) :
  (forall t, fault_at (env s) t = None) ->
  no_browser (env s) (browser_type (_settings (engine s))) = None ->
  driver_running s = false ->
  let s1 := snd (setup s) in
  fst (setup s) = Ok tt
  /\ setup s1 = (Raise sync_api_in_loop, s1)
  /\ fst (teardown (snd (setup s1))) = Ok tt
  /\ new_events s1 (snd (teardown (snd (setup s1))))
     = release_actions (engine s1).
Proof.
  intros Hok Hbrowser Hidle. cbv zeta.
  rewrite (setup_equation s Hok Hbrowser Hidle). cbn [fst snd].
  assert (Hrefused : setup (setup_outcome s)
                     = (Raise sync_api_in_loop, setup_outcome s)).
  { unfold setup. apply bind_raise. unfold start_driver.
    now rewrite driver_running_setup_outcome. }
  rewrite Hrefused. cbn [snd].
  assert (Hok1 : forall t, fault_at (env (setup_outcome s)) t = None)
    by exact Hok.
  rewrite (teardown_run _ Hok1). cbn [fst snd].
  split; [reflexivity|]. split; [reflexivity|]. split; [reflexivity|].
  now apply new_events_app.
Qed.

Lemma second_setup_is_refused_witness :
  setup Fixture.sample = (Raise sync_api_in_loop, Fixture.sample)
  /\ new_events Fixture.sample (snd (teardown (snd (setup Fixture.sample))))
     = [EvAction (ClosePage 4); EvAction (CloseContext 2);
        EvAction (CloseBrowser 1); EvAction (StopDriver 0)].
Proof.
  destruct (second_setup_is_refused (Fixture.fresh Fixture.sample_world)
              (fun t => eq_refl) eq_refl eq_refl) as (_ & Hrefused & _ & Hrelease).
  split; [exact Hrefused|exact Hrelease].
Defined.

(** ** Queries on a live page *)

Lemma retry_first_success {A} (fn : M A) (s : State) (v : A) (s1 : State) :
  fn s = (Ok v, s1) -> retry_with_backoff fn s = (Ok v, s1).
Proof.
  intros H. unfold retry_with_backoff. now rewrite retry_loop_unfold, H.
Qed.

(** On a live page, [assert_element_not_visible] with a selector string
    passes exactly when nothing matches, and then at its first attempt; one
    match makes its body raise the assertion error whether the match is
    visible or hidden, and several matches make it raise the driver's
    strict-mode error. *)
Theorem assert_element_not_visible_on_live_page (raw : string)
    (selector_type : SelectorType) (p : Handle) (s : State) :
  _page (engine s) = Some p ->
  page_closed p s = false ->
  let found := current_dom s p [] (_get_selector raw selector_type) in
  (fst (assert_element_not_visible_body (Raw raw) selector_type s) = Ok tt
   <-> found = [])
  /\ (found = [] ->
      fst (assert_element_not_visible (Raw raw) selector_type s) = Ok tt
      /\ backoffs (new_events s
                     (snd (assert_element_not_visible (Raw raw) selector_type s)))
         = [])
  /\ (forall e, found = [e] ->
        fst (assert_element_not_visible_body (Raw raw) selector_type s)
        = Raise (AssertionError
                   ("Element not visible assertion failed: "
                    ++ _get_selector raw selector_type)%string))
  /\ ((1 < List.length found)%nat ->
      fst (assert_element_not_visible_body (Raw raw) selector_type s)
      = Raise strict_mode_violation).
Proof.
  intros Hpage Hopen found.
  pose proof (assert_element_not_visible_result raw selector_type s p Hpage Hopen)
    as Hbody. fold found in Hbody.
  split; [|split; [|split]].
  - rewrite Hbody. cbn [fst].
    destruct found as [|x [|y rest]]; split; intros H;
      try reflexivity; discriminate H.
  - intros Hnone. unfold assert_element_not_visible.
    rewrite report_status_run. cbv zeta.
    match goal with
    | |- context [retry_with_backoff ?b ?st] => set (s1 := st)
    end.
    assert (Hrun : assert_element_not_visible_body (Raw raw) selector_type s1
                   = (Ok tt, s1)).
    { rewrite (assert_element_not_visible_result raw selector_type s1 p).
      - change (current_dom s1) with (current_dom s). fold found.
        now rewrite Hnone.
      - exact Hpage.
      - unfold s1, report, log. now rewrite page_closed_emit. }
    rewrite (retry_first_success _ _ _ _ Hrun). cbn [fst snd].
    split; [reflexivity|].
    erewrite new_events_app; [|unfold s1; cbn [report log emit snd trace];
                               rewrite <- app_assoc; reflexivity].
    reflexivity.
  - intros e He. rewrite Hbody, He. reflexivity.
  - intros Hlen. rewrite Hbody.
    destruct found as [|x [|y rest]]; cbn [List.length] in Hlen; try lia.
    reflexivity.
Qed.

Lemma assert_element_not_visible_on_live_page_witness :
  fst (assert_element_not_visible (Raw "#none") CSS Fixture.sample) = Ok tt
  /\ fst (assert_element_not_visible_body (Raw ".item") CSS Fixture.sample)
     = Raise strict_mode_violation.
Proof.
  destruct (assert_element_not_visible_on_live_page "#none" CSS 4%nat
              Fixture.sample eq_refl eq_refl) as (_ & Hnone & _).
  destruct (assert_element_not_visible_on_live_page ".item" CSS 4%nat
              Fixture.sample eq_refl eq_refl) as (_ & _ & _ & Hmany).
  split; [exact (proj1 (Hnone eq_refl))|].
  apply Hmany. cbn. lia.
Defined.

(** ** Resolution on a live page *)

Lemma get_locator_run (raw : string) (selector_type : SelectorType)
    (iframe : option FrameLocator) (s : State) (base : Locator) :
  base_locator s iframe (_get_selector raw selector_type) = Some base ->
  page_closed (loc_page base) s = false ->
  let selector := _get_selector raw selector_type in
  snd (_get_locator (Raw raw) selector_type iframe s)
  = if (1 <? List.length (resolve (current_dom s) base))%nat
    then snd (log EngineLogger WARNING
                ("Multiple elements found: " ++ selector
                 ++ ". Selecting the first visible.")%string s)
    else s.
Proof.
  intros Hbase Hopen selector. unfold _get_locator. fold selector.
  assert (Hloc : (match iframe with
                  | Some f => ret (frame_locator f selector)
                  | None => p <- page ;; ret (page_locator p selector)
                  end) s = (Ok base, s)).
  { destruct iframe as [f|]; cbn [base_locator] in Hbase.
    - inversion Hbase; reflexivity.
    - destruct (_page (engine s)) as [p|] eqn:Hpage; cbn [option_map] in Hbase;
        inversion Hbase.
      rewrite (bind_ok _ _ s p s); [reflexivity|].
      now rewrite page_result, Hpage. }
  rewrite (bind_ok _ _ s base s Hloc).
  rewrite (bind_ok _ _ s (List.length (resolve (current_dom s) base)) s)
    by (unfold locator_count; now rewrite query_open).
  destruct (resolve (current_dom s) base) as [|e [|e' rest]] eqn:Hfound;
    try reflexivity.
  cbn [List.length Nat.eqb Nat.ltb Nat.leb].
  set (s' := snd (log EngineLogger WARNING
                    ("Multiple elements found: " ++ selector
                     ++ ". Selecting the first visible.")%string s)).
  rewrite (bind_ok _ _ s tt s') by reflexivity.
  assert (Hopen' : page_closed (loc_page base) s' = false)
    by (unfold s', log; now rewrite page_closed_emit).
  pose proof (first_visible_scan base selector s' Hopen'
                (e :: e' :: rest) [] Hfound) as Hscan.
  cbn [List.length] in Hscan. now rewrite Hscan.
Qed.

(** ** Iframe chains *)

Lemma get_iframe_run (selector : string) (context : option FrameLocator)
    (p : Handle) (s : State) :
  (context = None -> _page (engine s) = Some p) ->
  let fc := func_call (env s) "_get_iframe" [VStr selector]
              [("context", context_value context)] in
  _get_iframe selector context s
  = (Ok {| fl_page := match context with Some c => fl_page c | None => p end;
           fl_chain := match context with Some c => fl_chain c | None => [] end
                       ++ [selector] |},
     {| engine := engine s; env := env s; clock := clock s;
        trace := trace s ++ [EvLog EngineLogger INFO false (calling_message fc);
                             EvLog EngineLogger INFO false (called_message fc)] |}).
Proof.
  intros Hpage fc. unfold _get_iframe. rewrite report_status_run. cbv zeta.
  fold fc. unfold _get_iframe_body. destruct context as [c|].
  - cbn [ret report log emit fst snd engine env clock trace].
    now rewrite <- app_assoc.
  - rewrite (bind_ok _ _ _ p _)
      by (rewrite page_result; cbn [report log emit snd engine];
          now rewrite (Hpage eq_refl)).
    cbn [ret report log emit fst snd engine env clock trace app].
    now rewrite <- app_assoc.
Qed.

Lemma count_report_pair (fc : string) :
  count is_attempting [EvLog EngineLogger INFO false (calling_message fc);
                       EvLog EngineLogger INFO false (called_message fc)] = 1%nat
  /\ count is_terminal [EvLog EngineLogger INFO false (calling_message fc);
                        EvLog EngineLogger INFO false (called_message fc)] = 1%nat.
Proof.
  unfold count. cbn [filter].
  destruct (calling_is_attempting fc) as [-> ->].
  destruct (called_is_terminal fc) as [-> ->]. split; reflexivity.
Qed.

Lemma enter_iframes_from (iframe_selectors : list string) :
  forall (c : FrameLocator) (s : State),
    exists evs,
      enter_iframes iframe_selectors (Some c) s
      = (Ok (Some {| fl_page := fl_page c;
                     fl_chain := fl_chain c ++ iframe_selectors |}),
         {| engine := engine s; env := env s; clock := clock s;
            trace := trace s ++ evs |})
      /\ count is_attempting evs = List.length iframe_selectors
      /\ count is_terminal evs = List.length iframe_selectors
      /\ Forall (fun ev => is_report ev = true) evs.
Proof.
  induction iframe_selectors as [|selector rest IH]; intros c s.
  - exists []. cbn [enter_iframes ret]. rewrite !app_nil_r.
    destruct c, s. repeat split. constructor.
  - cbn [enter_iframes].
    rewrite (bind_ok _ _ s _ _ (get_iframe_run selector (Some c) 0%nat s
                                  ltac:(discriminate))).
    match goal with
    | |- context [enter_iframes rest (Some ?f) ?st] =>
        destruct (IH f st) as (evs & Hrun & Ha & Ht & Hq)
    end.
    rewrite Hrun. cbn [fl_page fl_chain engine env clock trace context_value].
    eexists (_ :: _ :: evs). rewrite <- !app_assoc. cbn [app].
    split; [reflexivity|]. split; [|split].
    + change (?x :: ?y :: evs) with ([x; y] ++ evs).
      now rewrite count_app, Ha, (proj1 (count_report_pair _)).
    + change (?x :: ?y :: evs) with ([x; y] ++ evs).
      now rewrite count_app, Ht, (proj2 (count_report_pair _)).
    + constructor; [|constructor; [|exact Hq]]; unfold is_report.
      * now rewrite (proj1 (calling_is_attempting _)).
      * rewrite (proj2 (called_is_terminal _)). apply orb_true_r.
Qed.

Lemma report_is_log (ev : Event) :
  is_report ev = true ->
  is_release ev = false /\ action_of ev = None
  /\ (forall z, ev <> EvBackoff z).
Proof.
  destruct ev as [lg lv ex msg|n|z|z|a]; try discriminate.
  intros _. repeat split. discriminate.
Qed.

Lemma enter_iframes_run (iframe_selectors : list string) (p : Handle)
    (s : State) :
  _page (engine s) = Some p ->
  exists evs,
    enter_iframes iframe_selectors None s
    = (Ok (match iframe_selectors with
           | [] => None
           | _ => Some {| fl_page := p; fl_chain := iframe_selectors |}
           end),
       {| engine := engine s; env := env s; clock := clock s;
          trace := trace s ++ evs |})
    /\ count is_attempting evs = List.length iframe_selectors
    /\ count is_terminal evs = List.length iframe_selectors
    /\ Forall (fun ev => is_report ev = true) evs.
Proof.
  intros Hpage. destruct iframe_selectors as [|selector rest].
  - exists []. cbn [enter_iframes ret]. rewrite app_nil_r.
    destruct s. repeat split. constructor.
  - cbn [enter_iframes].
    rewrite (bind_ok _ _ s _ _ (get_iframe_run selector None p s (fun _ => Hpage))).
    match goal with
    | |- context [enter_iframes rest (Some ?f) ?st] =>
        destruct (enter_iframes_from rest f st) as (evs & Hrun & Ha & Ht & Hq)
    end.
    rewrite Hrun. cbn [fl_page fl_chain engine env clock trace context_value app].
    eexists (_ :: _ :: evs). rewrite <- !app_assoc. cbn [app].
    split; [reflexivity|]. split; [|split].
    + change (?x :: ?y :: evs) with ([x; y] ++ evs).
      now rewrite count_app, Ha, (proj1 (count_report_pair _)).
    + change (?x :: ?y :: evs) with ([x; y] ++ evs).
      now rewrite count_app, Ht, (proj2 (count_report_pair _)).
    + constructor; [|constructor; [|exact Hq]]; unfold is_report.
      * now rewrite (proj1 (calling_is_attempting _)).
      * rewrite (proj2 (called_is_terminal _)). apply orb_true_r.
Qed.

(** An iframe chain is entered in the order given, each frame inside the
    one before it: on a session with a page, the chain resolves to the frame
    locator with exactly that chain (to no frame when the chain is empty),
    with one pair of [_get_iframe] reports per frame and nothing sent to the
    driver. *)
Theorem enter_iframes_in_order (iframe_selectors : list string) (p : Handle)
    (s : State) :
  _page (engine s) = Some p ->
  let run := enter_iframes iframe_selectors None s in
  let evs := new_events s (snd run) in
  fst run = Ok (match iframe_selectors with
                | [] => None
                | _ => Some {| fl_page := p; fl_chain := iframe_selectors |}
                end)
  /\ count is_attempting evs = List.length iframe_selectors
  /\ count is_terminal evs = List.length iframe_selectors
  /\ actions evs = []
  /\ engine (snd run) = engine s /\ env (snd run) = env s
  /\ clock (snd run) = clock s.
Proof.
  intros Hpage run evs. subst evs run.
  destruct (enter_iframes_run iframe_selectors p s Hpage)
    as (evs & Hrun & Ha & Ht & Hq).
  rewrite Hrun. cbn [fst snd engine env clock].
  rewrite (new_events_app s _ evs) by reflexivity.
  split; [reflexivity|]. split; [exact Ha|]. split; [exact Ht|].
  split; [|repeat split].
  apply collect_none. eapply Forall_impl; [|exact Hq].
  intros ev Hev. now apply report_is_log.
Qed.

Lemma enter_iframes_in_order_witness :
  fst (enter_iframes ["#outer"; "#inner"] None Fixture.framed)
  = Ok (Some {| fl_page := 4; fl_chain := ["#outer"; "#inner"] |}).
Proof.
  exact (proj1 (enter_iframes_in_order ["#outer"; "#inner"] 4%nat Fixture.framed
                  eq_refl)).
Defined.

Lemma page_closed_app (p : Handle) (s : State) (evs : list Event) :
  Forall (fun ev => is_report ev = true) evs ->
  page_closed p {| engine := engine s; env := env s; clock := clock s;
                   trace := trace s ++ evs |}
  = page_closed p s.
Proof.
  intros Hq. unfold page_closed. cbn [trace]. rewrite existsb_app.
  replace (existsb (is_close_of p) evs) with false; [apply orb_false_r|].
  symmetry. induction Hq as [|ev evs Hev _ IH]; [reflexivity|].
  cbn [existsb]. rewrite IH.
  destruct ev as [lg lv ex msg|n|z|z|a]; try discriminate Hev. reflexivity.
Qed.

(** [fill_in_iframe] on a live page, when the selector has, inside the
    iframe chain, exactly one match and it is visible, and the driver does
    not fail: the call succeeds at its first attempt and fills that element,
    inside the innermost frame, exactly once, with the text of the value (a
    secret is unwrapped there). *)
Theorem fill_in_iframe_fills_once (value : FillValue)
    (iframe_selectors : list string) (raw : string)
    (selector_type : SelectorType) (p : Handle) (s : State) (e : Element) :
  _page (engine s) = Some p ->
  page_closed p s = false ->
  let target := {| loc_page := p; loc_frames := iframe_selectors;
                   loc_query := _get_selector raw selector_type;
                   loc_nth := [] |} in
  resolve (current_dom s) target = [e] ->
  el_visible e = true ->
  fault_at (env s) (clock s) = None ->
  let op := fill_in_iframe value iframe_selectors (Raw raw) selector_type in
  fst (op s) = Ok tt
  /\ actions (new_events s (snd (op s))) = [Fill target (str_value value)]
  /\ backoffs (new_events s (snd (op s))) = [].
Proof.
  intros Hpage Hopen target Hone Hvisible Hfault op. subst op.
  unfold fill_in_iframe. rewrite report_status_run. cbv zeta.
  match goal with
  | |- context [retry_with_backoff ?b ?st] => set (s1 := st); set (body := b)
  end.
  assert (Hpage1 : _page (engine s1) = Some p) by exact Hpage.
  destruct (enter_iframes_run iframe_selectors p s1 Hpage1)
    as (evs & Hrun & _ & _ & Hq).
  set (s2 := {| engine := engine s1; env := env s1; clock := clock s1;
                trace := trace s1 ++ evs |}) in *.
  set (iframe := match iframe_selectors with
                 | [] => None
                 | _ => Some {| fl_page := p; fl_chain := iframe_selectors |}
                 end) in *.
  assert (Hbase : base_locator s2 iframe (_get_selector raw selector_type)
                  = Some target).
  { subst iframe target. destruct iframe_selectors; cbn [base_locator].
    - cbn [s2 engine]. rewrite Hpage1. reflexivity.
    - reflexivity. }
  assert (Hopen2 : page_closed (loc_page target) s2 = false).
  { cbn [target loc_page]. unfold s2. rewrite page_closed_app by exact Hq.
    unfold s1, report, log. now rewrite page_closed_emit. }
  assert (Hone2 : resolve (current_dom s2) target = [e]) by exact Hone.
  assert (Hlocate : _get_locator (Raw raw) selector_type iframe s2
                    = (Ok target, s2)).
  { rewrite (surjective_pairing (_get_locator _ _ _ _)).
    rewrite (_get_locator_result raw selector_type iframe s2 target Hbase Hopen2).
    rewrite (get_locator_run raw selector_type iframe s2 target Hbase Hopen2).
    now rewrite Hone2. }
  set (s3 := {| engine := engine s2; env := env s2; clock := S (clock s2);
                trace := trace s2 ++ [EvAction (Fill target (str_value value))] |}).
  assert (Hbody : body s1 = (Ok tt, s3)).
  { subst body. unfold fill_in_iframe_body.
    rewrite (bind_ok _ _ s1 _ _ Hrun). cbv zeta.
    rewrite (bind_ok _ _ s2 _ _ Hlocate).
    unfold locator_action.
    rewrite (bind_ok _ _ s2 true s2)
      by (rewrite query_open by exact Hopen2; now rewrite Hone2, Hvisible).
    now rewrite (bind_ok _ _ s2 _ _ (driver_call_ok _ s2 Hfault)). }
  rewrite (retry_first_success _ _ _ _ Hbody). cbn [fst snd].
  split; [reflexivity|].
  erewrite new_events_app.
  2: { cbn [report log emit snd trace s3 s2]. unfold s1.
       cbn [report log emit snd trace]. rewrite <- !app_assoc. reflexivity. }
  cbn [app]. unfold actions, backoffs. cbn [collect action_of].
  rewrite !collect_app. cbn [collect action_of app].
  rewrite !collect_none; [split; reflexivity| |].
  - eapply Forall_impl; [|exact Hq]. intros ev Hev.
    destruct ev as [lg lv ex msg|n|z|z|a]; try discriminate Hev. reflexivity.
  - eapply Forall_impl; [|exact Hq]. intros ev Hev. now apply report_is_log.
Qed.

Lemma fill_in_iframe_fills_once_witness :
  actions (new_events Fixture.framed
             (snd (fill_in_iframe (Secret (mkSecretStr "hunter2"))
                     ["#outer"; "#inner"] (Raw "password") ID Fixture.framed)))
  = [Fill {| loc_page := 4; loc_frames := ["#outer"; "#inner"];
             loc_query := "#password"; loc_nth := [] |} "hunter2"].
Proof.
  exact (proj1 (proj2 (fill_in_iframe_fills_once
                         (Secret (mkSecretStr "hunter2")) ["#outer"; "#inner"]
                         "password" ID 4%nat Fixture.framed (Fixture.shown 9)
                         eq_refl eq_refl eq_refl eq_refl eq_refl))).
Defined.

(** ** More on the main flow *)

(** When the auth check fails, for whatever reason (the session cannot be
    set up, the request fails, the answer has an error status), [main] fails
    with that same error right there: nothing is logged or done after it, and
    [navigate] is not called, whatever the body of the answer. *)
Theorem main_stops_when_auth_check_fails (settings : TidalauthSettings)
    (s : State) (e : exn) :
  fst (auth_check settings s) = Raise e ->
  main settings s = (Raise e, snd (auth_check settings s))
  /\ navigate_calls (new_events s (snd (main settings s))) = []
  /\ gotos (new_events s (snd (main settings s))) = [].
Proof.
  intros Hfail.
  assert (Hmain : main settings s = (Raise e, snd (auth_check settings s))).
  { unfold main. apply bind_raise.
    rewrite (surjective_pairing (auth_check settings s)). now rewrite Hfail. }
  split; [exact Hmain|]. rewrite Hmain. cbn [snd].
  destruct (emits_auth_check no_navigation settings) with (s := s)
    as (evs & Htr & Hevs).
  { intros a _ Ha. split; [reflexivity|exact Ha]. }
  rewrite (new_events_app _ _ _ Htr). now apply no_navigation_lists.
Qed.

Lemma main_stops_when_auth_check_fails_witness :
  fst (main Fixture.settings (Fixture.fresh Fixture.refusing_world))
  = Raise (RequestError "503 Server Error: Service Unavailable")
  /\ navigate_calls
       (new_events (Fixture.fresh Fixture.refusing_world)
          (snd (main Fixture.settings (Fixture.fresh Fixture.refusing_world))))
     = [].
Proof.
  destruct (main_stops_when_auth_check_fails Fixture.settings
              (Fixture.fresh Fixture.refusing_world)
              (RequestError "503 Server Error: Service Unavailable") eq_refl)
    as (Hmain & Hcalls & _).
  split; [now rewrite Hmain|exact Hcalls].
Defined.

Lemma sleep_limit_below_float_limit : (sleep_limit < float_limit)%Z.
Proof. reflexivity. Qed.

(** A length that [time.sleep] accepts: not negative, and within what its
    clock can hold. *)
Lemma sleep_ok (ms : Z) (s : State) :
  (0 <= ms <= sleep_limit)%Z ->
  sleep ms s
  = (Ok tt, {| engine := engine s; env := env s; clock := S (clock s);
               trace := trace s ++ [EvSleep ms] |}).
Proof.
  intros Hms. unfold sleep. rewrite Z.abs_eq by lia.
  pose proof sleep_limit_below_float_limit as Hlimit.
  destruct (Z.leb_spec float_limit ms) as [Hbig|_]; [lia|].
  destruct (Z.ltb_spec sleep_limit ms) as [Hbig|_]; [lia|].
  destruct (Z.ltb_spec ms 0) as [Hneg|_]; [lia|].
  reflexivity.
Qed.

(** [navigate] on a live page, when the driver does not fail and the sleep
    of three times the configured interval is one that [time.sleep] accepts:
    one page load of the URL, then that sleep, at the first attempt and
    between the two reports. *)
Theorem navigate_loads_then_idles (url : string) (p : Handle) (s : State) :
  _page (engine s) = Some p ->
  page_closed p s = false ->
  fault_at (env s) (clock s) = None ->
  (0 <= sleep_ms (_settings (engine s)) * 3 <= sleep_limit)%Z ->
  let fc := func_call (env s) "navigate" [VStr url] [] in
  fst (navigate url s) = Ok tt
  /\ new_events s (snd (navigate url s))
     = [EvLog EngineLogger INFO false (calling_message fc);
        EvAction (Goto p url);
        EvSleep (sleep_ms (_settings (engine s)) * 3);
        EvLog EngineLogger INFO false (called_message fc)]
  /\ clock (snd (navigate url s)) = (clock s + 2)%nat.
Proof.
  intros Hpage Hopen Hfault Hsleep fc. unfold navigate.
  rewrite report_status_run. cbv zeta. fold fc.
  set (s1 := snd (report (calling_message fc) None s)).
  set (s2 := {| engine := engine s1; env := env s1; clock := S (clock s1);
                trace := trace s1 ++ [EvAction (Goto p url)] |}).
  assert (Hbody : navigate_body url s1
                  = (Ok tt, snd (sleep (sleep_ms (_settings (engine s)) * 3) s2))).
  { unfold navigate_body.
    assert (Hpage1 : _page (engine s1) = Some p) by exact Hpage.
    rewrite (bind_ok _ _ s1 p s1) by (rewrite page_result; now rewrite Hpage1).
    rewrite (bind_ok _ _ s1 tt s2).
    2: { unfold page_call.
         replace (page_closed p s1) with false
           by (unfold s1, report, log; now rewrite page_closed_emit).
         now rewrite (bind_ok _ _ s1 _ _ (driver_call_ok _ s1 Hfault)). }
    rewrite (bind_ok _ _ s2 (engine s) s2) by reflexivity.
    now rewrite (sleep_ok _ s2 Hsleep). }
  rewrite (retry_first_success _ _ _ _ Hbody). cbn [fst snd].
  rewrite (sleep_ok _ s2 Hsleep). cbn [snd].
  split; [reflexivity|]. split.
  - apply new_events_app. unfold s2, s1.
    cbn [report log emit snd trace].
    now rewrite <- !app_assoc.
  - cbn. lia.
Qed.

Lemma navigate_loads_then_idles_witness :
  actions (new_events Fixture.sample
             (snd (navigate "https://link.tidal.com/abc123" Fixture.sample)))
  = [Goto 4 "https://link.tidal.com/abc123"]
  /\ clock (snd (navigate "https://link.tidal.com/abc123" Fixture.sample))
     = 7%nat.
Proof.
  destruct (navigate_loads_then_idles "https://link.tidal.com/abc123" 4%nat
              Fixture.sample eq_refl eq_refl eq_refl
              ltac:(vm_compute; split; discriminate))
    as (_ & Hevents & Hclock).
  split; [now rewrite Hevents|exact Hclock].
Defined.

Lemma string_length_app (a b : string) :
  String.length (a ++ b) = (String.length a + String.length b)%nat.
Proof. induction a as [|c a IH]; simpl; [reflexivity|now rewrite IH]. Qed.

Lemma substring_prefix (a b : string) :
  substring 0 (String.length a) (a ++ b) = a.
Proof.
  induction a as [|c a IH]; simpl.
  - now destruct b.
  - now rewrite IH.
Qed.

Lemma endswith_app (suffix a : string) : Py.endswith suffix (a ++ suffix) = true.
Proof.
  induction a as [|c a IH].
  - cbn [append]. destruct suffix; cbn [Py.endswith]; now rewrite String.eqb_refl.
  - cbn [append Py.endswith].
    destruct (String.eqb (String c (a ++ suffix)) suffix); [reflexivity|exact IH].
Qed.

(** [removesuffix] takes one trailing slash off, and only one. *)
Lemma removesuffix_slash (u : string) :
  Py.removesuffix "/" (u ++ "/") = u
  /\ (Py.endswith "/" u = false -> Py.removesuffix "/" u = u).
Proof.
  unfold Py.removesuffix. split.
  - rewrite endswith_app. cbn [String.eqb andb negb].
    rewrite string_length_app. cbn [String.length].
    replace (String.length u + 1 - 1)%nat with (String.length u) by lia.
    apply substring_prefix.
  - now intros ->.
Qed.

Lemma setup_no_request : emits (fun ev => http_of ev = None) setup.
Proof.
  unfold setup, update_engine, browser_instance.
  apply emits_bind; [now apply emits_start_driver|intros playwright].
  emits_auto.
Qed.

Lemma interaction_no_request (ev : Event) : interaction ev -> http_of ev = None.
Proof.
  unfold interaction.
  destruct ev as [lg lv ex msg|n|z|z|[]]; simpl; try discriminate; reflexivity.
Qed.

(** [main] sends at most what the auth check sends: every HTTP request of
    a run goes to the configured base URL, without its trailing slash if it
    has one, followed by [/auth]. *)
Theorem main_requests_auth_url (settings : TidalauthSettings) (s : State)
    (u : string) :
  Py.endswith "/" u = false ->
  tidalidarr_url settings = u \/ tidalidarr_url settings = (u ++ "/")%string ->
  Forall (eq (u ++ "/auth")%string)
    (requested_urls (new_events s (snd (main settings s)))).
Proof.
  intros Hu Hurl.
  assert (Hbase : Py.removesuffix "/" (tidalidarr_url settings) = u).
  { destruct Hurl as [-> | ->]; now apply removesuffix_slash. }
  set (P := fun ev => forall url, http_of ev = Some url -> url = (u ++ "/auth")%string).
  assert (Hquiet : forall ev, http_of ev = None -> P ev)
    by (intros ev Hev url Hsome; rewrite Hev in Hsome; discriminate).
  assert (Hmain : emits P (main settings)).
  { unfold main. apply emits_bind.
    - unfold auth_check. rewrite Hbase.
      apply emits_bind; [apply emits_sentry_init; now apply Hquiet|intros _].
      apply emits_bind; [apply emits_set_engine|intros _].
      apply emits_bind;
        [eapply emits_weaken; [exact Hquiet|exact setup_no_request]|intros _].
      cbv zeta. apply emits_bind.
      + apply emits_requests_get. intros url Hsome. now inversion Hsome.
      + intros response. apply emits_bind; [|intros; apply emits_ret].
        unfold raise_for_status. destruct (http_error response);
          [apply emits_raise|apply emits_ret].
    - intros content. destruct (negb (Py.contains link_marker content)).
      + unfold log. apply emits_emit. now apply Hquiet.
      + cbv zeta. apply emits_bind;
          [unfold log; apply emits_emit; now apply Hquiet|intros _].
        apply emits_navigate; intros; apply Hquiet;
          [now apply interaction_no_request|reflexivity|reflexivity]. }
  destruct (Hmain s) as (evs & Htr & Hevs).
  rewrite (new_events_app _ _ _ Htr). unfold requested_urls.
  clear Htr. induction Hevs as [|ev evs Hev _ IH]; cbn [collect]; [constructor|].
  destruct (http_of ev) as [url|] eqn:Hurl'; [|exact IH].
  constructor; [symmetry; now apply Hev|exact IH].
Qed.

Lemma main_requests_auth_url_witness :
  Forall (eq "http://127.0.0.1:8000/auth"%string)
    (requested_urls
       (new_events (Fixture.fresh Fixture.link_world)
          (snd (main Fixture.settings (Fixture.fresh Fixture.link_world))))).
Proof.
  exact (main_requests_auth_url Fixture.settings
           (Fixture.fresh Fixture.link_world) "http://127.0.0.1:8000"
           eq_refl (or_intror eq_refl)).
Defined.

(** ** A click that goes through *)

(** [click] on a live page, when the selector has exactly one match and
    it is visible, the driver does not fail, and the configured interval is
    a length that [time.sleep] accepts: the call succeeds at its first
    attempt; it clicks that element exactly once, then waits for the page to
    load, then sleeps the configured interval; with [with_alert] it first
    registers the dialog handler, once. *)
Theorem click_clicks_once (raw : string) (selector_type : SelectorType)
    (with_alert : option bool) (p : Handle) (s : State) (e : Element) :
  _page (engine s) = Some p ->
  page_closed p s = false ->
  current_dom s p [] (_get_selector raw selector_type) = [e] ->
  el_visible e = true ->
  fault_at (env s) (clock s) = None ->
  fault_at (env s) (S (clock s)) = None ->
  (0 <= sleep_ms (_settings (engine s)) <= sleep_limit)%Z ->
  let target := page_locator p (_get_selector raw selector_type) in
  let fc := func_call (env s) "click" [VStr raw; VSelectorType selector_type]
              (match with_alert with
               | Some b => [("with_alert", VBool b)]
               | None => []
               end) in
  fst (click (Raw raw) selector_type with_alert s) = Ok tt
  /\ new_events s (snd (click (Raw raw) selector_type with_alert s))
     = EvLog EngineLogger INFO false (calling_message fc)
       :: (match with_alert with
           | Some true => [EvAction (AcceptDialogs p)]
           | _ => []
           end)
       ++ [EvAction (Click target); EvAction (WaitForLoadState p);
           EvSleep (sleep_ms (_settings (engine s)));
           EvLog EngineLogger INFO false (called_message fc)].
Proof.
  intros Hpage Hopen Hone Hvisible Hfault0 Hfault1 Hsleep target fc.
  unfold click. rewrite report_status_run. cbv zeta.
  cbn [selector_value]. fold fc.
  set (wa := match with_alert with Some b => b | None => false end).
  set (s1 := snd (report (calling_message fc) None s)).
  set (s2 := if wa then snd (emit (EvAction (AcceptDialogs p)) s1) else s1).
  assert (Hpage1 : _page (engine s1) = Some p) by exact Hpage.
  assert (Hpage2 : _page (engine s2) = Some p) by (unfold s2; now destruct wa).
  assert (Hopen1 : page_closed p s1 = false)
    by (unfold s1, report, log; now rewrite page_closed_emit).
  assert (Hopen2 : page_closed (loc_page target) s2 = false).
  { cbn [target page_locator loc_page]. unfold s2. destruct wa; [|exact Hopen1].
    now rewrite page_closed_emit. }
  assert (Hsame : env s2 = env s /\ clock s2 = clock s /\ engine s2 = engine s)
    by (unfold s2; now destruct wa).
  destruct Hsame as (Henv & Hclock & Hengine).
  assert (Hone2 : resolve (current_dom s2) target = [e]).
  { unfold current_dom. rewrite Henv, Hclock. exact Hone. }
  assert (Hbase : base_locator s2 None (_get_selector raw selector_type)
                  = Some target)
    by (cbn [base_locator]; now rewrite Hpage2).
  assert (Hlocate : _get_locator (Raw raw) selector_type None s2 = (Ok target, s2)).
  { rewrite (surjective_pairing (_get_locator _ _ _ _)).
    rewrite (_get_locator_result raw selector_type None s2 target Hbase Hopen2).
    rewrite (get_locator_run raw selector_type None s2 target Hbase Hopen2).
    now rewrite Hone2. }
  set (s3 := {| engine := engine s2; env := env s2; clock := S (clock s2);
                trace := trace s2 ++ [EvAction (Click target)] |}).
  set (s4 := {| engine := engine s3; env := env s3; clock := S (clock s3);
                trace := trace s3 ++ [EvAction (WaitForLoadState p)] |}).
  assert (Hbody : click_body (Raw raw) selector_type wa s1
                  = (Ok tt, snd (sleep (sleep_ms (_settings (engine s))) s4))).
  { unfold click_body.
    rewrite (bind_ok _ _ s1 tt s2).
    2: { unfold s2. destruct wa; [|reflexivity].
         rewrite (bind_ok _ _ s1 p s1); [reflexivity|].
         now rewrite page_result, Hpage1. }
    rewrite (bind_ok _ _ s2 _ _ Hlocate).
    rewrite (bind_ok _ _ s2 tt s3).
    2: { unfold locator_action.
         rewrite (bind_ok _ _ s2 true s2)
           by (rewrite query_open by exact Hopen2; now rewrite Hone2, Hvisible).
         rewrite (bind_ok _ _ s2 (clock s2) s3); [reflexivity|].
         apply driver_call_ok. now rewrite Henv, Hclock. }
    unfold after_click.
    rewrite (bind_ok _ _ s3 p s3) by (rewrite page_result; cbn [s3 engine];
                                       now rewrite Hpage2).
    rewrite (bind_ok _ _ s3 tt s4).
    2: { unfold page_call.
         replace (page_closed p s3) with false.
         - rewrite (bind_ok _ _ s3 (clock s3) s4); [reflexivity|].
           apply driver_call_ok. cbn [s3 env clock]. now rewrite Henv, Hclock.
         - symmetry. unfold page_closed, s3. cbn [trace].
           rewrite existsb_app. cbn [existsb is_close_of].
           rewrite orb_false_r. exact Hopen2. }
    rewrite (bind_ok _ _ s4 (engine s) s4)
      by (unfold get_engine, s4, s3; cbn [engine]; now rewrite Hengine).
    now rewrite (sleep_ok _ s4 Hsleep). }
  rewrite (retry_first_success _ _ _ _ Hbody). cbn [fst snd].
  rewrite (sleep_ok _ s4 Hsleep). cbn [snd].
  split; [reflexivity|]. apply new_events_app.
  cbn [report log emit snd trace s4 s3].
  unfold s2, s1, wa. destruct with_alert as [[|]|];
    cbn [report log emit snd trace app]; now rewrite <- !app_assoc.
Qed.

Lemma click_clicks_once_witness :
  actions (new_events Fixture.sample
             (snd (click (Raw "one") ID (Some true) Fixture.sample)))
  = [AcceptDialogs 4; Click (page_locator 4 "#one"); WaitForLoadState 4].
Proof.
  destruct (click_clicks_once "one" ID (Some true) 4%nat Fixture.sample
              (Fixture.shown 7) eq_refl eq_refl eq_refl eq_refl eq_refl eq_refl
              ltac:(vm_compute; split; discriminate))
    as (_ & Hevents).
  now rewrite Hevents.
Defined.

(** ** Secrets in the reports *)

(** Two different passwords, passed positionally to [fill], give the same
    description of the call. *)
Lemma positional_secret_masked_witness :
  func_call Fixture.sample_world "fill"
    [VSecret (mkSecretStr "hunter2"); VStr "#one"; VSelectorType CSS] []
  = func_call Fixture.sample_world "fill"
      [VSecret (mkSecretStr "letmein"); VStr "#one"; VSelectorType CSS] [].
Proof.
  exact (positional_secret_masked Fixture.sample_world "fill"
           (mkSecretStr "hunter2") (mkSecretStr "letmein")
           [] [VStr "#one"; VSelectorType CSS] []
           ltac:(discriminate) ltac:(discriminate)).
Defined.

(** ** Reports of the calls, nested or not *)

Lemma count_one (p : Event -> bool) (ev : Event) :
  count p [ev] = if p ev then 1%nat else 0%nat.
Proof. unfold count. cbn [filter]. now destruct (p ev). Qed.

Lemma own_reports_at {A} (name : string) (args : list PyValue)
    (kwargs : list (string * PyValue)) (func : M A) (s : State)
    (inner : list Event) :
  (let s1 := snd (report (calling_message (func_call (env s) name args kwargs))
                    None s) in
   trace (snd (func s1)) = trace s1 ++ inner) ->
  own_reports name args kwargs func s.
Proof.
  cbv zeta. intros Htr. unfold own_reports. cbv zeta.
  set (fc := func_call (env s) name args kwargs) in *.
  set (s1 := snd (report (calling_message fc) None s)) in *.
  rewrite (new_events_app s1 _ inner Htr).
  assert (Hevs : new_events s (snd (report_status name args kwargs func s))
                 = EvLog EngineLogger INFO false (calling_message fc)
                   :: inner
                   ++ [match fst (func s1) with
                       | Ok _ => EvLog EngineLogger INFO false (called_message fc)
                       | Raise e =>
                           EvLog EngineLogger ERROR true (failed_message fc e)
                       end]).
  { rewrite report_status_run. cbv zeta. fold fc. fold s1.
    destruct (func s1) as [[v|e] s2]; cbn [fst snd] in *;
      apply new_events_app;
      cbn [report log log_exception emit snd trace];
      rewrite Htr; unfold s1; cbn [report log emit snd trace];
      now rewrite <- !app_assoc. }
  rewrite Hevs. split; [reflexivity|].
  change (?x :: inner ++ [?y]) with ([x] ++ inner ++ [y]).
  rewrite !count_app, !count_one.
  destruct (calling_is_attempting fc) as [-> ->].
  destruct (fst (func s1)) as [v|e].
  - destruct (called_is_terminal fc) as [-> ->]. lia.
  - destruct (failed_is_terminal fc e) as [-> ->]. lia.
Qed.

Lemma own_reports_of_appending {A} (name : string) (args : list PyValue)
    (kwargs : list (string * PyValue)) (func : M A) (s : State) :
  emits (fun _ => True) func -> own_reports name args kwargs func s.
Proof.
  intros Happ.
  destruct (Happ (snd (report (calling_message
                                 (func_call (env s) name args kwargs)) None s)))
    as (inner & Htr & _).
  now apply (own_reports_at name args kwargs func s inner).
Qed.

(** An event that is no report. *)
Lemma emits_quiet_retried {A} (body : M A) :
  emits (fun ev => is_report ev = false) body ->
  emits (fun ev => is_report ev = false) (retry_with_backoff body).
Proof.
  intros H. unfold retry_with_backoff.
  apply emits_retry_loop; [reflexivity|reflexivity|exact H].
Qed.

Lemma emits_expect_call (P : Event -> Prop) (p : Handle) (a : Action) :
  P (EvAction a) -> emits P (expect_call p a).
Proof.
  intros HP s. unfold expect_call. destruct (page_closed p s).
  - exists []. cbn [snd]. now rewrite app_nil_r.
  - exists [EvAction a].
    destruct (fault_at (env s) (clock s)); [|destruct (unmet_at (env s) (clock s))];
      cbn [snd trace]; auto.
Qed.

Lemma quiet_get_locator (selector : SelectorInput) (selector_type : SelectorType)
    (iframe : option FrameLocator) :
  emits (fun ev => is_report ev = false)
    (_get_locator selector selector_type iframe).
Proof.
  eapply emits_weaken; [exact interaction_not_report|apply emits_get_locator].
Qed.

Lemma quiet_assert_url_body (url : string) :
  emits (fun ev => is_report ev = false) (assert_url_body url).
Proof.
  unfold assert_url_body, page.
  apply emits_bind; [emits_auto|intros p]. now apply emits_expect_call.
Qed.

Lemma quiet_assert_element_visible_body (selector : SelectorInput)
    (selector_type : SelectorType) :
  emits (fun ev => is_report ev = false)
    (assert_element_visible_body selector selector_type).
Proof.
  unfold assert_element_visible_body.
  apply emits_bind; [apply quiet_get_locator|intros locator].
  now apply emits_expect_call.
Qed.

Lemma quiet_assert_text_body (text : TextInput) (selector : SelectorInput)
    (selector_type : SelectorType) :
  emits (fun ev => is_report ev = false)
    (assert_text_body text selector selector_type).
Proof.
  unfold assert_text_body.
  apply emits_bind; [apply quiet_get_locator|intros locator].
  now apply emits_expect_call.
Qed.

Lemma quiet_set_local_storage_body (key value : string) :
  emits (fun ev => is_report ev = false) (set_local_storage_body key value).
Proof.
  unfold set_local_storage_body, page, log. emits_auto.
Qed.

(** What one attempt of a body leaves besides the reports of the decorated
    methods it calls: the warning of [_get_locator], sleeps and actions. *)
Section Steps.

Variable P : Event -> Prop.

Hypothesis P_warning : forall msg, P (EvLog EngineLogger WARNING false msg).
Hypothesis P_sleep : forall z, P (EvSleep z).
Hypothesis P_action : forall a, P (EvAction a).

Lemma steps_page : emits P page.
Proof. unfold page. emits_auto. Qed.

Lemma steps_sleep (ms : Z) : emits P (sleep ms).
Proof. unfold sleep. emits_auto. apply P_sleep. Qed.

Lemma steps_first_visible (l : Locator) (indices : list nat) (selector : string) :
  emits P (first_visible l indices selector).
Proof.
  induction indices as [|i rest IH]; simpl.
  - emits_auto.
  - apply emits_bind; [unfold locator_is_visible; emits_auto|].
    intros [|]; [apply emits_ret|exact IH].
Qed.

Lemma steps_get_locator (selector : SelectorInput) (selector_type : SelectorType)
    (iframe : option FrameLocator) :
  emits P (_get_locator selector selector_type iframe).
Proof.
  unfold _get_locator. destruct selector as [raw|l]; [|apply emits_ret].
  cbv zeta. apply emits_bind.
  - destruct iframe; [apply emits_ret|].
    apply emits_bind; [apply steps_page|intros; apply emits_ret].
  - intros locator.
    apply emits_bind; [unfold locator_count; emits_auto|].
    intros n. destruct (n =? 0)%nat; [apply emits_raise|].
    destruct (1 <? n)%nat; [|apply emits_ret].
    apply emits_bind; [unfold log; apply emits_emit, P_warning|].
    intros _. apply steps_first_visible.
Qed.

Lemma steps_locator_action (l : Locator) (a : Action) :
  emits P (locator_action l a).
Proof. unfold locator_action. emits_auto. apply P_action. Qed.

Lemma steps_after_click : emits P after_click.
Proof.
  unfold after_click.
  apply emits_bind; [apply steps_page|intros p].
  apply emits_bind; [apply emits_page_call, P_action|intros _].
  apply emits_bind; [apply emits_get_engine|intros self]. apply steps_sleep.
Qed.

End Steps.

Lemma unretried_events (evs : list Event) :
  Forall unretried evs ->
  count is_attempting evs = 0%nat /\ count is_terminal evs = 0%nat
  /\ backoffs evs = [].
Proof.
  induction 1 as [|ev evs [Hq Hb] _ (IHa & IHt & IHb)].
  - repeat split.
  - change (ev :: evs) with ([ev] ++ evs).
    rewrite !count_app, backoffs_app, IHa, IHt, IHb, Hb, !count_one.
    destruct (is_report_parts ev Hq) as [-> ->]. repeat split.
Qed.

Lemma reports_events (evs : list Event) :
  Forall (fun ev => is_report ev = true) evs -> backoffs evs = [].
Proof.
  induction 1 as [|ev evs Hev _ IH]; [reflexivity|].
  change (ev :: evs) with ([ev] ++ evs). rewrite backoffs_app, IH.
  destruct ev as [lg lv ex msg|n|z|z|a]; try discriminate Hev; reflexivity.
Qed.

(** A retried call whose every attempt leaves [c] events of a kind, and no
    backoff sleep of its own, leaves [c] of them per attempt. *)
Lemma retry_loop_counted {A} (fn : M A) (I : State -> Prop) (q : Event -> bool)
    (c : nat) :
  (forall s s', engine s' = engine s -> I s -> I s') ->
  (forall n, q (EvAfterLog n) = false) ->
  (forall z, q (EvBackoff z) = false) ->
  (forall s, I s ->
     I (snd (fn s))
     /\ exists evs, trace (snd (fn s)) = trace s ++ evs
                    /\ count q evs = c /\ backoffs evs = []) ->
  forall fuel n s, I s ->
    exists evs,
      trace (snd (retry_loop fuel n fn s)) = trace s ++ evs
      /\ count q evs = (attempts evs * c)%nat.
Proof.
  intros I_engine Hafter Hnap Hfn fuel. unfold attempts.
  induction fuel as [|fuel IH]; intros n s Hs; rewrite retry_loop_unfold;
    destruct (Hfn s Hs) as (Hs1 & evs & Htr & Hc & Hb);
    destruct (fn s) as [[v|e] s1]; cbn [fst snd] in *.
  - exists evs. rewrite Hb, Hc. split; [exact Htr|cbn; lia].
  - exists (evs ++ [EvAfterLog n]).
    rewrite backoffs_app, Hb, count_app, Hc, count_one, Hafter.
    destruct (stop_after_attempt max_attempts n); cbn [snd];
      rewrite after_log_trace, Htr, <- app_assoc;
      (split; [reflexivity|cbn; lia]).
  - exists evs. rewrite Hb, Hc. split; [exact Htr|cbn; lia].
  - destruct (stop_after_attempt max_attempts n).
    + exists (evs ++ [EvAfterLog n]).
      rewrite backoffs_app, Hb, count_app, Hc, count_one, Hafter. cbn [snd].
      rewrite after_log_trace, Htr, <- app_assoc.
      split; [reflexivity|cbn; lia].
    + cbv zeta.
      set (s2 := snd (nap (backoff_wait n) (snd (emit (EvAfterLog n) s1)))).
      assert (Hs2 : I s2) by (apply (I_engine s1); [reflexivity|exact Hs1]).
      destruct (IH (S n) s2 Hs2) as (evs2 & Htr2 & Hc2).
      exists (evs ++ EvAfterLog n :: EvBackoff (backoff_wait n) :: evs2).
      split.
      * cbn [snd]. fold s2. rewrite Htr2. unfold s2.
        rewrite nap_trace, after_log_trace, Htr, <- !app_assoc. reflexivity.
      * change (evs ++ EvAfterLog n :: EvBackoff (backoff_wait n) :: evs2)
          with (evs ++ [EvAfterLog n] ++ [EvBackoff (backoff_wait n)] ++ evs2).
        rewrite !count_app, !backoffs_app, !count_one, Hafter, Hnap, Hc, Hc2, Hb.
        cbn [backoffs collect app List.length]. lia.
Qed.

Lemma unretried_step :
  (forall msg, unretried (EvLog EngineLogger WARNING false msg))
  /\ (forall z, unretried (EvSleep z))
  /\ (forall a, unretried (EvAction a)).
Proof. repeat split. Qed.

(** One attempt of a body that starts by entering an iframe chain, on a
    session with a page: one pair of reports per iframe selector. *)
Lemma in_iframe_attempt {A} (iframe_selectors : list string)
    (rest : option FrameLocator -> M A) (s : State) :
  initialized s ->
  (forall iframe, emits unretried (rest iframe)) ->
  exists evs,
    trace (snd ((iframe <- enter_iframes iframe_selectors None ;; rest iframe) s))
    = trace s ++ evs
    /\ count is_attempting evs = List.length iframe_selectors
    /\ count is_terminal evs = List.length iframe_selectors
    /\ backoffs evs = [].
Proof.
  intros Hs Hrest. unfold initialized in Hs.
  destruct (_page (engine s)) as [p|] eqn:Hpage; [|now elim Hs].
  destruct (enter_iframes_run iframe_selectors p s Hpage)
    as (evs1 & Hrun & Ha & Ht & Hq).
  rewrite (bind_ok _ _ s _ _ Hrun).
  match goal with
  | |- context [rest ?f ?st] =>
      destruct (Hrest f st) as (evs2 & Htr2 & Hevs2)
  end.
  destruct (unretried_events evs2 Hevs2) as (Ha2 & Ht2 & Hb2).
  exists (evs1 ++ evs2). rewrite Htr2. cbn [trace].
  rewrite !count_app, backoffs_app, Ha, Ht, Ha2, Ht2, Hb2,
    (reports_events evs1 Hq), app_assoc.
  repeat split; lia.
Qed.

Lemma reported_per_attempt_in_iframe {A} (name : string) (args : list PyValue)
    (iframe_selectors : list string) (rest : option FrameLocator -> M A)
    (s : State) :
  initialized s ->
  (forall iframe, emits unretried (rest iframe)) ->
  safe initialized other_error
    (iframe <- enter_iframes iframe_selectors None ;; rest iframe) ->
  reported_per_attempt
    (report_status name args []
       (retry_with_backoff
          (iframe <- enter_iframes iframe_selectors None ;; rest iframe)))
    s (List.length iframe_selectors).
Proof.
  intros Hs Hrest Hsafe.
  set (body := iframe <- enter_iframes iframe_selectors None ;; rest iframe).
  set (fc := func_call (env s) name args []).
  set (s1 := snd (report (calling_message fc) None s)).
  assert (Hs1 : initialized s1) by exact Hs.
  assert (Hattempt : forall q, q = is_attempting \/ q = is_terminal ->
            exists evs,
              trace (snd (retry_with_backoff body s1)) = trace s1 ++ evs
              /\ count q evs = (attempts evs * List.length iframe_selectors)%nat).
  { intros q Hq. unfold retry_with_backoff.
    apply (retry_loop_counted body initialized q).
    - exact initialized_engine.
    - destruct Hq as [-> | ->]; reflexivity.
    - destruct Hq as [-> | ->]; reflexivity.
    - intros s' Hs'. split; [exact (proj1 (Hsafe s' Hs'))|].
      destruct (in_iframe_attempt iframe_selectors rest s' Hs' Hrest)
        as (evs & Htr & Ha & Ht & Hb).
      exists evs. destruct Hq as [-> | ->]; auto.
    - exact Hs1. }
  destruct (Hattempt is_attempting (or_introl eq_refl)) as (inner & Htr & Ha).
  destruct (Hattempt is_terminal (or_intror eq_refl)) as (inner' & Htr' & Ht).
  rewrite Htr in Htr'. apply app_inv_head in Htr'. subst inner'.
  destruct (own_reports_at name args [] (retry_with_backoff body) s inner Htr)
    as (Hevs & Hca & Hct).
  cbv zeta in Hevs, Hca, Hct. fold fc in Hevs, Hca, Hct. fold s1 in Hevs, Hca, Hct.
  rewrite (new_events_app s1 _ inner Htr) in Hevs, Hca, Hct.
  unfold reported_per_attempt. cbv zeta. fold body.
  rewrite Hca, Hct, Ha, Ht.
  assert (Hb : attempts (new_events s
                           (snd (report_status name args []
                                   (retry_with_backoff body) s)))
               = attempts inner).
  { rewrite Hevs. unfold attempts.
    change (?x :: inner ++ [?y]) with ([x] ++ inner ++ [y]).
    rewrite !backoffs_app.
    destruct (fst (retry_with_backoff body s1)); cbn [backoffs collect app];
      now rewrite app_nil_r. }
  rewrite Hb. split; reflexivity.
Qed.

Lemma safe_fill_in_iframe_body (value : FillValue)
    (iframe_selectors : list string) (selector : SelectorInput)
    (selector_type : SelectorType) :
  safe initialized other_error
    (fill_in_iframe_body value iframe_selectors selector selector_type).
Proof.
  unfold fill_in_iframe_body.
  apply safe_bind; [apply safe_enter_iframes|intros iframe]. cbv zeta.
  apply safe_bind; [apply safe_get_locator|intros target].
  apply safe_locator_action.
Qed.

(** C7, amended. Every decorated call, whatever it decorates, leaves its own
    "Calling" report first and its own report of the outcome last, once
    each, around what the decorated function leaves, however many attempts
    the retry wrapper inside makes.  For the operations whose body calls no
    decorated method ([navigate], [click], [fill], [assert_url],
    [assert_element_visible], [assert_text], [element_exists],
    [assert_element_not_visible], [set_local_storage]) these are the only
    reports of the call, in any state and any world.  [click_in_iframe] and
    [fill_in_iframe] call the decorated [_get_iframe] inside the retried
    body: on a session with a page, their log has one more pair of reports
    for each iframe selector on each attempt. *)
Theorem each_operation_reported_once :
  (forall (A : Type) (name : string) (args : list PyValue)
          (kwargs : list (string * PyValue)) (func : M A) (s : State),
      emits (fun _ => True) func -> own_reports name args kwargs func s)
  /\ (forall s,
        (forall url, reported_once (navigate url) s)
        /\ (forall selector selector_type with_alert,
              reported_once (click selector selector_type with_alert) s)
        /\ (forall value selector selector_type,
              reported_once (fill value selector selector_type) s
              /\ reported_once (fill_by_keyword value selector selector_type) s)
        /\ (forall url, reported_once (assert_url url) s)
        /\ (forall selector selector_type,
              reported_once (assert_element_visible selector selector_type) s)
        /\ (forall text selector selector_type,
              reported_once (assert_text text selector selector_type) s)
        /\ (forall selector selector_type check_visible,
              reported_once
                (element_exists selector selector_type check_visible) s)
        /\ (forall selector selector_type,
              reported_once
                (assert_element_not_visible selector selector_type) s)
        /\ (forall key value, reported_once (set_local_storage key value) s))
  /\ (forall s,
        initialized s ->
        (forall iframe_selectors selector selector_type,
            reported_per_attempt
              (click_in_iframe iframe_selectors selector selector_type) s
              (List.length iframe_selectors))
        /\ (forall value iframe_selectors selector selector_type,
              reported_per_attempt
                (fill_in_iframe value iframe_selectors selector selector_type) s
                (List.length iframe_selectors))).
Proof.
  split; [|split].
  - intros A name args kwargs func s. apply own_reports_of_appending.
  - intros s.
    split; [|split; [|split; [|split; [|split; [|split; [|split; [|split]]]]]]];
      intros.
    + apply report_status_once, retried_body_quiet, emits_navigate_body.
    + apply report_status_once, retried_body_quiet, emits_click_body.
    + split; apply report_status_once, retried_body_quiet, emits_fill_body.
    + apply report_status_once, emits_quiet_retried, quiet_assert_url_body.
    + apply report_status_once, emits_quiet_retried,
        quiet_assert_element_visible_body.
    + apply report_status_once, emits_quiet_retried, quiet_assert_text_body.
    + apply report_status_once, retried_body_quiet, emits_element_exists_body.
    + apply report_status_once, retried_body_quiet,
        emits_assert_element_not_visible_body.
    + apply report_status_once, emits_quiet_retried,
        quiet_set_local_storage_body.
  - intros s Hs. destruct unretried_step as (Hw & Hsl & Hact). split.
    + intros iframe_selectors selector selector_type.
      apply (reported_per_attempt_in_iframe "click_in_iframe" _ iframe_selectors
               (fun iframe =>
                  target <- _get_locator selector selector_type iframe ;;
                  locator_action target (Click target) ;; after_click) s Hs).
      * intros iframe.
        apply emits_bind; [now apply steps_get_locator|intros target].
        apply emits_bind; [now apply steps_locator_action|intros _].
        now apply steps_after_click.
      * apply safe_click_in_iframe_body.
    + intros value iframe_selectors selector selector_type.
      apply (reported_per_attempt_in_iframe "fill_in_iframe" _ iframe_selectors
               (fun iframe =>
                  locator <- _get_locator selector selector_type iframe ;;
                  locator_action locator (Fill locator (str_value value))) s Hs).
      * intros iframe.
        apply emits_bind; [now apply steps_get_locator|intros target].
        now apply steps_locator_action.
      * apply (safe_fill_in_iframe_body value).
Qed.

(** One call of [click_in_iframe] through one iframe, on the sample page,
    where the element is missing: five attempts, six reports of each kind;
    and one call of [navigate] there: one report of each kind. *)
Lemma each_operation_reported_once_witness :
  reported_once (navigate "https://link.tidal.com/abc123") Fixture.sample
  /\ reported_per_attempt (click_in_iframe ["#f"] (Raw "#x") CSS)
       Fixture.sample 1
  /\ attempts (new_events Fixture.sample
                 (snd (click_in_iframe ["#f"] (Raw "#x") CSS Fixture.sample)))
     = 5%nat.
Proof.
  destruct each_operation_reported_once as (_ & Hquiet & Hnested).
  split; [exact (proj1 (Hquiet Fixture.sample) _)|].
  split; [|reflexivity].
  assert (Hs : initialized Fixture.sample) by discriminate.
  exact (proj1 (Hnested Fixture.sample Hs) ["#f"] (Raw "#x") CSS).
Defined.

(** ** The main flow, call by call *)












(** ** The page after [teardown] *)

Lemma safe_expect_call (p : Handle) (a : Action) :
  safe initialized other_error (expect_call p a).
Proof.
  apply safe_same_engine; [exact initialized_engine| |];
    intros s; unfold expect_call; destruct (page_closed p s);
    try reflexivity;
    destruct (fault_at (env s) (clock s));
    try destruct (unmet_at (env s) (clock s)); try reflexivity;
    cbn [fst]; intros e H; inversion H; discriminate.
Qed.

Lemma safe_assert_url_body (url : string) :
  safe initialized other_error (assert_url_body url).
Proof.
  unfold assert_url_body.
  apply safe_bind; [apply safe_page|intros p]. apply safe_expect_call.
Qed.

Lemma safe_assert_element_visible_body (selector : SelectorInput)
    (selector_type : SelectorType) :
  safe initialized other_error
    (assert_element_visible_body selector selector_type).
Proof.
  unfold assert_element_visible_body.
  apply safe_bind; [apply safe_get_locator|intros locator].
  apply safe_expect_call.
Qed.

Lemma safe_assert_text_body (text : TextInput) (selector : SelectorInput)
    (selector_type : SelectorType) :
  safe initialized other_error (assert_text_body text selector selector_type).
Proof.
  unfold assert_text_body.
  apply safe_bind; [apply safe_get_locator|intros locator].
  apply safe_expect_call.
Qed.

Lemma safe_set_local_storage_body (key value : string) :
  safe initialized other_error (set_local_storage_body key value).
Proof. unfold set_local_storage_body, log. safe_auto. Qed.

Lemma never_not_initialized_with_page (s : State) :
  initialized s -> never_not_initialized s.
Proof.
  intros Hs. unfold never_not_initialized.
  repeat split; intros; apply safe_never_not_initialized; try exact Hs;
    apply safe_operation.
  - apply safe_navigate_body.
  - apply safe_click_body.
  - apply safe_click_in_iframe_body.
  - apply safe_fill_body.
  - apply safe_fill_in_iframe_body.
  - apply safe_assert_url_body.
  - apply safe_assert_element_visible_body.
  - apply safe_assert_text_body.
  - apply safe_element_exists_body.
  - apply safe_assert_element_not_visible_body.
  - apply safe_set_local_storage_body.
Qed.

Lemma page_ok (s : State) (p : Handle) :
  fst (page s) = Ok p <-> _page (engine s) = Some p.
Proof.
  rewrite page_result. cbn [fst].
  destruct (_page (engine s)); split; intros H; inversion H; reflexivity.
Qed.

Lemma teardowns_keep_engine (n : nat) (s : State) :
  engine (snd (run_lifecycle (repeat CallTeardown n) s)) = engine s.
Proof.
  revert s. induction n as [|n IH]; intros s; [reflexivity|].
  cbn [repeat run_lifecycle lifecycle_call snd].
  now rewrite IH, teardown_keeps_engine.
Qed.

Lemma page_closed_later (p : Handle) (s s' : State) (evs : list Event) :
  trace s' = trace s ++ evs -> page_closed p s = true -> page_closed p s' = true.
Proof.
  unfold page_closed. intros -> H. rewrite existsb_app, H. reflexivity.
Qed.

Lemma teardowns_append (n : nat) (s : State) :
  exists evs,
    trace (snd (run_lifecycle (repeat CallTeardown n) s)) = trace s ++ evs.
Proof.
  revert s. induction n as [|n IH]; intros s.
  - exists []. cbn. now rewrite app_nil_r.
  - cbn [repeat run_lifecycle lifecycle_call snd].
    destruct (emits_teardown (fun _ => True) (fun _ => I) s) as (evs1 & H1 & _).
    destruct (IH (snd (teardown s))) as (evs2 & H2).
    exists (evs1 ++ evs2). now rewrite H2, H1, app_assoc.
Qed.

Lemma teardown_closes_page (s : State) (p : Handle) :
  _page (engine s) = Some p -> page_closed p (snd (teardown s)) = true.
Proof.
  intros Hp. unfold teardown.
  unfold bind at 1. cbn [get_engine]. rewrite Hp. cbn [release].
  set (s1 := {| engine := engine s; env := env s; clock := S (clock s);
                trace := trace s ++ [EvAction (ClosePage p)] |}).
  assert (Hclosed : page_closed p s1 = true).
  { unfold page_closed, s1. cbn [trace]. rewrite existsb_app.
    cbn [existsb is_close_of]. rewrite Nat.eqb_refl. apply orb_true_r. }
  assert (Hfirst : exists r, (_ <- driver_call (ClosePage p) ;; ret tt) s = (r, s1)).
  { unfold bind, driver_call.
    destruct (fault_at (env s) (clock s)); eexists; reflexivity. }
  destruct Hfirst as (r & Hfirst).
  unfold bind at 1. rewrite Hfirst. destruct r as [[]|e]; [|exact Hclosed].
  match goal with
  | |- page_closed p (snd (?m s1)) = true =>
      assert (Hrest : emits (fun _ => True) m)
  end.
  { unfold release.
    repeat first
      [ apply emits_ret
      | apply emits_bind; [|intros ?]
      | now apply emits_driver_call
      | match goal with
        | |- emits _ (match ?x with _ => _ end) => destruct x
        end ]. }
  destruct (Hrest s1) as (evs & Htr & _).
  exact (page_closed_later p s1 _ evs Htr Hclosed).
Qed.

(** C10, as stated, fails: [setup] is called on a new engine whose settings
    name a browser the driver does not have; the call fails at the lookup of
    the browser, before a page is made, and the [page] property still fails
    with NotInitialized. *)
Lemma failed_setup_leaves_no_page :
  fst (setup Fixture.unknown_browser)
  = Raise (AttributeError "'Playwright' object has no attribute 'netscape'")
  /\ ~ fails_iff_never_called [CallSetup] Fixture.unknown_browser.
Proof.
  split; [reflexivity|].
  intros [Hfails _]. apply Hfails; [reflexivity|].
  eexists. left. reflexivity.
Qed.

(** C10, amended. A [setup] call that completes leaves a page in the
    session, and one that fails leaves the [page] property as it was.  Once
    the property gives a page, it gives that same page after any number of
    [teardown] calls, which leave every field of the engine as it was,
    although the page is closed by then (when its close call went through);
    and no operation fails with NotInitialized.  So, over any sequence of
    [setup] and [teardown] calls on a new engine, the property fails with
    NotInitialized exactly when no [setup] call has completed. *)
Theorem page_survives_teardown :
  (forall s,
      match fst (setup s) with
      | Ok _ => exists p, fst (page (snd (setup s))) = Ok p
      | Raise _ => fst (page (snd (setup s))) = fst (page s)
      end)
  /\ (forall s p n,
        fst (page s) = Ok p ->
        let s' := snd (run_lifecycle (repeat CallTeardown n) s) in
        fst (page s') = Ok p
        /\ engine s' = engine s
        /\ ((0 < n)%nat -> fault_at (env s) (clock s) = None ->
            page_closed p s' = true)
        /\ never_not_initialized s')
  /\ (forall settings E t tr calls,
        let s0 := {| engine := __init__ settings; env := E; clock := t;
                     trace := tr |} in
        fst (page (snd (run_lifecycle calls s0))) = Raise not_initialized
        <-> ~ setup_completed (fst (run_lifecycle calls s0))).
Proof.
  split; [|split].
  - intros s. pose proof (setup_page s) as Hsetup.
    destruct (fst (setup s)) as [[]|e].
    + rewrite page_result. cbn [fst].
      destruct (_page (engine (snd (setup s)))) as [p|]; [now exists p|].
      now elim Hsetup.
    + rewrite !page_result. cbn [fst]. now rewrite Hsetup.
  - intros s p n Hpage s'.
    apply page_ok in Hpage.
    assert (Hengine : engine s' = engine s) by apply teardowns_keep_engine.
    assert (Hpage' : _page (engine s') = Some p) by now rewrite Hengine.
    split; [now apply page_ok|]. split; [exact Hengine|]. split.
    + intros Hn _. destruct n as [|n]; [lia|].
      unfold s'. cbn [repeat run_lifecycle lifecycle_call snd].
      destruct (teardowns_append n (snd (teardown s))) as (evs & Htr).
      apply (page_closed_later p (snd (teardown s)) _ evs Htr).
      now apply teardown_closes_page.
    + apply never_not_initialized_with_page. unfold initialized.
      now rewrite Hpage'.
  - intros settings E t tr calls s0.
    assert (Hnone : fst (page (snd (run_lifecycle calls s0))) = Raise not_initialized
                    <-> _page (engine (snd (run_lifecycle calls s0))) = None).
    { rewrite page_result. cbn [fst].
      destruct (_page (engine (snd (run_lifecycle calls s0))));
        split; try discriminate; reflexivity. }
    rewrite Hnone, run_lifecycle_page.
    subst s0. cbn [engine __init__ _page]. tauto.
Qed.

(** On the sample session: after two [teardown] calls the property gives
    page 4, which is closed, and [navigate] does not fail with
    NotInitialized; on a new engine the property fails. *)
Lemma page_survives_teardown_witness :
  fst (page (snd (run_lifecycle [CallTeardown; CallTeardown] Fixture.sample)))
  = Ok 4%nat
  /\ page_closed 4
       (snd (run_lifecycle [CallTeardown; CallTeardown] Fixture.sample)) = true
  /\ fst (navigate "https://link.tidal.com/abc123"
            (snd (run_lifecycle [CallTeardown; CallTeardown] Fixture.sample)))
     <> Raise not_initialized
  /\ fst (page (Fixture.fresh Fixture.sample_world)) = Raise not_initialized.
Proof.
  destruct page_survives_teardown as (_ & Hkeeps & Hnew).
  destruct (Hkeeps Fixture.sample 4%nat 2%nat eq_refl)
    as (Hpage & _ & Hclosed & Hops).
  split; [exact Hpage|]. split; [apply Hclosed; [lia|reflexivity]|].
  split; [exact (proj1 Hops _)|].
  apply (proj2 (Hnew Fixture.settings Fixture.sample_world 0%nat [] [])).
  intros [].
Defined.
